(** * SMART Health Cards validation SDK: compact-token, QR-image and
      trusted-issuer validators

    A shallow embedding of [src/jws-compact.ts], [src/image.ts] and the
    trusted-issuers module, and the properties of their [validate] entry
    points.  JavaScript strings are sequences of UTF-16 code units; the
    asynchronous functions are written in a state-and-exception monad over
    the objects they mutate (the [Log], the key store) together with a
    record of the calls made to collaborators. *)

From Stdlib Require Import String Ascii DecimalString.
From Stdlib Require Import NArith ZArith List Bool Lia.
Import ListNotations.

Set Implicit Arguments.

(* ================================================================== *)
(** * The JavaScript string primitives used by the validators *)
(* ================================================================== *)

Module JS.

(** A JavaScript string: its UTF-16 code units. *)
Definition jsstring := list N.

(** A string literal of the source (all of them are ASCII). *)
Definition lit (s : string) : jsstring :=
  map N_of_ascii (list_ascii_of_string s).

(** [n.toString()] for a non-negative integer. *)
Definition of_N (n : N) : jsstring :=
  lit (NilZero.string_of_uint (N.to_uint n)).

(** [a === b] on strings. *)
Fixpoint eqb (a b : jsstring) : bool :=
  match a, b with
  | [], [] => true
  | x :: a', y :: b' => (x =? y)%N && eqb a' b'
  | _, _ => false
  end.

(** WhiteSpace and LineTerminator code points of ECMAScript, the ones
    [String.prototype.trim] strips. *)
Definition isWhiteSpace (c : N) : bool :=
  ((c =? 0x09) || (c =? 0x0A) || (c =? 0x0B) || (c =? 0x0C) || (c =? 0x0D)
   || (c =? 0x20) || (c =? 0xA0) || (c =? 0x1680)
   || ((0x2000 <=? c) && (c <=? 0x200A))
   || (c =? 0x2028) || (c =? 0x2029) || (c =? 0x202F) || (c =? 0x205F)
   || (c =? 0x3000) || (c =? 0xFEFF))%N.

Fixpoint trimStart (s : jsstring) : jsstring :=
  match s with
  | c :: s' => if isWhiteSpace c then trimStart s' else s
  | [] => []
  end.

Definition trimEnd (s : jsstring) : jsstring := rev (trimStart (rev s)).

(** [s.trim()] *)
Definition trim (s : jsstring) : jsstring := trimEnd (trimStart s).

(** [s.slice(start, end)]; [None] is an omitted [end]. *)
Definition slice (start : Z) (fin : option Z) (s : jsstring) : jsstring :=
  let len := Z.of_nat (length s) in
  let clamp k := if (k <? 0)%Z then Z.max (len + k) 0 else Z.min k len in
  let from := clamp start in
  let to := match fin with Some e => clamp e | None => len end in
  firstn (Z.to_nat (Z.max (to - from) 0)) (skipn (Z.to_nat from) s).

(** [s.split(sep)] for a one-character separator: never the empty array. *)
Fixpoint split (sep : N) (s : jsstring) : list jsstring :=
  match s with
  | [] => [ [] ]
  | c :: s' =>
      if (c =? sep)%N then [] :: split sep s'
      else match split sep s' with
           | p :: ps => (c :: p) :: ps
           | [] => [ [c] ]
           end
  end.

(** [parts.join(sep)] *)
Fixpoint join (sep : jsstring) (parts : list jsstring) : jsstring :=
  match parts with
  | [] => []
  | [p] => p
  | p :: ps => p ++ sep ++ join sep ps
  end.

(** ** Regular expressions

    The fragment of the regular-expression language the source uses:
    character classes, concatenation and [+].  [test] is
    [RegExp.prototype.test] for a pattern without anchors, on a fresh
    regular expression object ([lastIndex] is 0): it succeeds when some
    substring of the subject matches. *)

Inductive regex : Type :=
| Fail : regex
| Eps : regex
| Class : (N -> bool) -> regex
| Cat : regex -> regex -> regex
| Alt : regex -> regex -> regex
| Star : regex -> regex.

Definition Plus (r : regex) : regex := Cat r (Star r).

Fixpoint nullable (r : regex) : bool :=
  match r with
  | Fail => false
  | Eps => true
  | Class _ => false
  | Cat r1 r2 => nullable r1 && nullable r2
  | Alt r1 r2 => nullable r1 || nullable r2
  | Star _ => true
  end.

Fixpoint deriv (c : N) (r : regex) : regex :=
  match r with
  | Fail => Fail
  | Eps => Fail
  | Class p => if p c then Eps else Fail
  | Cat r1 r2 =>
      if nullable r1 then Alt (Cat (deriv c r1) r2) (deriv c r2)
      else Cat (deriv c r1) r2
  | Alt r1 r2 => Alt (deriv c r1) (deriv c r2)
  | Star r1 => Cat (deriv c r1) (Star r1)
  end.

(** Some prefix of [s] matches [r]. *)
Fixpoint matches_prefix (r : regex) (s : jsstring) : bool :=
  nullable r ||
  match s with
  | [] => false
  | c :: s' => matches_prefix (deriv c r) s'
  end.

(** [/r/.test(s)] *)
Fixpoint test (r : regex) (s : jsstring) : bool :=
  matches_prefix r s ||
  match s with
  | [] => false
  | _ :: s' => test r s'
  end.

(** The words a regular expression denotes. *)
Inductive Matches : regex -> jsstring -> Prop :=
| MEps : Matches Eps []
| MClass p c : p c = true -> Matches (Class p) [c]
| MCat r1 r2 u v : Matches r1 u -> Matches r2 v -> Matches (Cat r1 r2) (u ++ v)
| MAltL r1 r2 u : Matches r1 u -> Matches (Alt r1 r2) u
| MAltR r1 r2 u : Matches r2 u -> Matches (Alt r1 r2) u
| MStarNil r : Matches (Star r) []
| MStarCons r u v : Matches r u -> Matches (Star r) v -> Matches (Star r) (u ++ v).

(** ** Buffers *)

(** A Node [Buffer]: its bytes. *)
Definition Buffer := list N.

(** [Buffer.from(s, 'binary')]: the low byte of every code unit. *)
Definition Buffer_from_binary (s : jsstring) : Buffer :=
  map (fun c => N.land c 0xFF) s.

Definition hex_digit (d : N) : N :=
  if (d <? 10)%N then (48 + d)%N else (87 + d)%N.

(** [buf.toString('hex')] *)
Definition Buffer_toString_hex (b : Buffer) : jsstring :=
  flat_map (fun x => [hex_digit (N.shiftr x 4); hex_digit (N.land x 0xF)]) b.

End JS.

(* ================================================================== *)
(** * Diagnostics: log entries, logs and validation results *)
(* ================================================================== *)

Module Logger.
Import JS.

Inductive LogLevels : Type := DEBUG | INFO | WARNING | ERROR | FATAL.

Definition rank (l : LogLevels) : nat :=
  match l with DEBUG => 0 | INFO => 1 | WARNING => 2 | ERROR => 3 | FATAL => 4 end.

(** Modelled from the spec: the enumeration of error kinds ([error.ts] is
    not among the sources).  The members are the ones the three modules
    name; [OtherCode] stands for the members only collaborators use. *)
Inductive ErrorCode : Type :=
| TRAILING_CHARACTERS
| JWS_TOO_LONG
| JSON_PARSE_ERROR
| INFLATION_ERROR
| SCHEMA_ERROR
| INVALID_ISSUER_URL
| ISSUER_KEY_DOWNLOAD_ERROR
| JWS_VERIFICATION_ERROR
| UNKNOWN_FILE_DATA
| QR_DECODE_ERROR
| ISSUER_NOT_TRUSTED
| OtherCode (n : N).

Definition ErrorCode_eqb (a b : ErrorCode) : bool :=
  match a, b with
  | TRAILING_CHARACTERS, TRAILING_CHARACTERS
  | JWS_TOO_LONG, JWS_TOO_LONG
  | JSON_PARSE_ERROR, JSON_PARSE_ERROR
  | INFLATION_ERROR, INFLATION_ERROR
  | SCHEMA_ERROR, SCHEMA_ERROR
  | INVALID_ISSUER_URL, INVALID_ISSUER_URL
  | ISSUER_KEY_DOWNLOAD_ERROR, ISSUER_KEY_DOWNLOAD_ERROR
  | JWS_VERIFICATION_ERROR, JWS_VERIFICATION_ERROR
  | UNKNOWN_FILE_DATA, UNKNOWN_FILE_DATA
  | QR_DECODE_ERROR, QR_DECODE_ERROR
  | ISSUER_NOT_TRUSTED, ISSUER_NOT_TRUSTED => true
  | OtherCode n, OtherCode m => (n =? m)%N
  | _, _ => false
  end.

(** Modelled from the spec: a leveled entry with its message and an
    optional error kind ([logger.ts] is not among the sources). *)
Record LogItem : Type := mkItem {
  level : LogLevels;
  message : jsstring;
  code : option ErrorCode
}.

(** Modelled from the spec: an ordered sequence of entries, oldest first,
    and the nested log of the next stage, which the sources set as the one
    property [log.child]. *)
#[warnings="-register-all"] Inductive Log : Type :=
| mkLog (title : jsstring) (items : list LogItem) (child : option Log).

Definition title (l : Log) : jsstring := let 'mkLog t _ _ := l in t.
Definition items (l : Log) : list LogItem := let 'mkLog _ i _ := l in i.
Definition child (l : Log) : option Log := let 'mkLog _ _ c := l in c.

(** [new Log(title)] *)
Definition new_Log (t : jsstring) : Log := mkLog t [] None.

(** The five logging methods append one entry. *)
Definition push (i : LogItem) (l : Log) : Log :=
  let 'mkLog t its c := l in mkLog t (its ++ [i]) c.

(** [log.child = c] *)
Definition set_child (c : Log) (l : Log) : Log :=
  let 'mkLog t its _ := l in mkLog t its (Some c).

(** [log.debug(m)], [log.info(m)], [log.warn(m, code)], [log.error(m, code)]
    and [log.fatal(m, code)]; the error kind is optional in the last three. *)
Definition Log_debug (m : jsstring) : Log -> Log := push (mkItem DEBUG m None).
Definition Log_info (m : jsstring) : Log -> Log := push (mkItem INFO m None).
Definition Log_warn (m : jsstring) (c : option ErrorCode) : Log -> Log :=
  push (mkItem WARNING m c).
Definition Log_error (m : jsstring) (c : option ErrorCode) : Log -> Log :=
  push (mkItem ERROR m c).
Definition Log_fatal (m : jsstring) (c : option ErrorCode) : Log -> Log :=
  push (mkItem FATAL m c).

(** The worst level among entries; [DEBUG] for none. *)
Definition worst (its : list LogItem) : LogLevels :=
  fold_left (fun acc i => if Nat.ltb (rank acc) (rank (level i)) then level i else acc)
            its DEBUG.

(** An entry of the given level and error kind. *)
Definition is_entry (l : LogLevels) (c : ErrorCode) (i : LogItem) : bool :=
  (rank (level i) =? rank l)%nat &&
  match code i with Some c' => ErrorCode_eqb c' c | None => false end.

(** A possibly-undefined result paired with a log. *)
Record ValidationResult (T : Type) : Type := mkResult {
  result : option T;
  log : Log
}.

End Logger.

(* ================================================================== *)
(** * Effects: mutable state, exceptions and rejected promises *)
(* ================================================================== *)

Module Eff.
Import JS.

(** What a [throw] or a rejected promise carries. *)
Inductive Exn : Type :=
| TypeError (what : jsstring)
| Error (message : jsstring)
| RejectedUndefined.

Inductive Outcome (A : Type) : Type :=
| Resolved (a : A)
| Rejected (e : Exn).
Arguments Rejected {A} e.

Definition M (St A : Type) : Type := St -> Outcome A * St.

Definition ret {St A} (a : A) : M St A := fun s => (Resolved a, s).

Definition bind {St A B} (m : M St A) (k : A -> M St B) : M St B :=
  fun s => match m s with
           | (Resolved a, s') => k a s'
           | (Rejected e, s') => (Rejected e, s')
           end.

Definition throw {St A} (e : Exn) : M St A := fun s => (Rejected e, s).

(** [try { m } catch (e) { h e }], or [promise.catch(h)]: the state changes
    made before the exception stay. *)
Definition try_catch {St A} (m : M St A) (h : Exn -> M St A) : M St A :=
  fun s => match m s with
           | (Resolved a, s') => (Resolved a, s')
           | (Rejected e, s') => h e s'
           end.

Definition get {St} : M St St := fun s => (Resolved s, s).
Definition modify {St} (f : St -> St) : M St unit := fun s => (Resolved tt, f s).

(** [if (b) { m }] *)
Definition when {St} (b : bool) (m : M St unit) : M St unit :=
  if b then m else ret tt.

Module Notations.
Declare Scope eff_scope.
Delimit Scope eff_scope with eff.
Notation "x <- m ;; k" := (bind m (fun x => k))
  (at level 61, m at next level, right associativity) : eff_scope.
Notation "m ;; k" := (bind m (fun _ => k))
  (at level 61, right associativity) : eff_scope.
End Notations.

End Eff.

(* ================================================================== *)
(** * The Compact Token Validator ([src/jws-compact.ts]) *)
(* ================================================================== *)

Module JwsCompact.
Import JS Logger Eff Eff.Notations.
Local Open Scope eff_scope.

(** Modelled from the spec: a public-key record of a key set ([keys.ts] is
    not among the sources); this module never looks inside one. *)
Record Key : Type := mkKey {
  kid : jsstring; kty : jsstring; use : jsstring;
  crv : jsstring; x : jsstring; y : jsstring
}.
Definition KeySet := list Key.
(** [keys.store], the process-wide key store. *)
Definition KeyStore := list Key.

(** The member of the decoded payload that [validate] reads: [None] is a
    payload without an [iss] member ([payload.iss] is [undefined]). *)
Record JWSPayload : Type := mkPayload {
  iss : option jsstring
}.

Inductive VerifyOutcome : Type :=
| Verified
| VerifyFailed (message : jsstring).

(** The collaborators of the module: the schema validator, Node's base64
    and UTF-8 decoders, [pako.inflateRaw] (the inflated text, or what it
    throws rendered as a string), the Payload Validator, the HTTP client
    ([None]: the request or the JSON parse failed), the Key Set Validator
    (what it logs, the key store it leaves, and its result or rejection)
    and the signature verifier over a key store. *)
Record Env : Type := mkEnv {
  validateSchema : jsstring -> list LogItem;
  Buffer_from_base64 : jsstring -> Buffer;
  Buffer_toString : Buffer -> jsstring;
  inflateRaw : Buffer -> jsstring + jsstring;
  jwsPayload_validate : jsstring -> ValidationResult JWSPayload;
  got_json : jsstring -> option KeySet;
  verifyHealthCardIssuerKey :
    KeySet -> jsstring -> KeyStore -> Outcome (option KeySet) * list LogItem * KeyStore;
  verifier_verify : KeyStore -> jsstring -> VerifyOutcome
}.

(** The calls [validate] makes to its collaborators, in order. *)
Inductive Call : Type :=
| CallValidateSchema (jws : jsstring)
| CallInflateRaw (input : Buffer)
| CallPayloadValidate (text : jsstring)
| CallGot (url : jsstring)
| CallVerifyIssuerKey (keySet : KeySet) (issuerURL : jsstring)
| CallVerify (store : KeyStore) (jws : jsstring).

(** What a run can change: its log, the key store, and the calls made. *)
Record State : Type := mkState {
  st_log : Log;
  st_store : KeyStore;
  st_calls : list Call
}.

(** A method call on the log object. *)
Definition logging (f : Log -> Log) : M State unit :=
  modify (fun s => mkState (f (st_log s)) (st_store s) (st_calls s)).

Definition log_debug (m : jsstring) : M State unit := logging (Log_debug m).
Definition log_info (m : jsstring) : M State unit := logging (Log_info m).
Definition log_warn (m : jsstring) (c : ErrorCode) : M State unit :=
  logging (Log_warn m (Some c)).
Definition log_error (m : jsstring) (c : ErrorCode) : M State unit :=
  logging (Log_error m (Some c)).
Definition log_fatal (m : jsstring) (c : ErrorCode) : M State unit :=
  logging (Log_fatal m (Some c)).

(** A collaborator that writes its entries into the caller's log. *)
Definition logged (its : list LogItem) : M State unit :=
  logging (fun l => fold_left (fun l i => push i l) its l).

(** The record of a call to a collaborator. *)
Definition called (c : Call) : M State unit :=
  modify (fun s => mkState (st_log s) (st_store s) (st_calls s ++ [c])).

Definition current_log : M State Log := s <- get ;; ret (st_log s).

Definition MAX_JWS_SINGLE_CHUNK_LENGTH : N := 1195.

(** The class [[0-9a-zA-Z_-]]. *)
Definition base64url_char (c : N) : bool :=
  (((48 <=? c) && (c <=? 57)) || ((97 <=? c) && (c <=? 122))
   || ((65 <=? c) && (c <=? 90)) || (c =? 95) || (c =? 45))%N.

Definition dot : N := 46.

(** [/[0-9a-zA-Z_-]+\.[0-9a-zA-Z_-]+\.[0-9a-zA-Z_-]+/] *)
Definition jws_shape : regex :=
  Cat (Plus (Class base64url_char))
 (Cat (Class (N.eqb dot))
 (Cat (Plus (Class base64url_char))
 (Cat (Class (N.eqb dot))
      (Plus (Class base64url_char))))).

Section WithEnv.
Variable env : Env.

(** [downloadKey]: the [catch] also covers a rejection of the Key Set
    Validator, whose log entries and key-store changes stay. *)
Definition downloadKey (issuerURL : jsstring) : M State (option KeySet) :=
  let jwkURL := issuerURL ++ lit "/.well-known/jwks.json" in
  log_info (lit "Retrieving issuer key from " ++ jwkURL) ;;
  called (CallGot jwkURL) ;;
  try_catch
    (match got_json env jwkURL with
     | None => throw (Error (lit "request failed"))
     | Some keySet =>
         log_debug (lit "Downloaded issuer key(s) : ") ;;
         called (CallVerifyIssuerKey keySet issuerURL) ;;
         s <- get ;;
         let '(r, entries, store') :=
           verifyHealthCardIssuerKey env keySet issuerURL (st_store s) in
         logged entries ;;
         modify (fun s => mkState (st_log s) store' (st_calls s)) ;;
         match r with
         | Resolved ks => ret ks
         | Rejected e => throw e
         end
     end)
    (fun _ =>
       log_error (lit "Can't parse downloaded issuer keys as a key set")
                 ISSUER_KEY_DOWNLOAD_ERROR ;;
       ret None).

(** [verifyJws] *)
Definition verifyJws (jws : jsstring) : M State bool :=
  s <- get ;;
  called (CallVerify (st_store s) jws) ;;
  match verifier_verify env (st_store s) jws with
  | Verified => ret true
  | VerifyFailed m =>
      log_error (lit "JWS verification failed : (" ++ m ++ lit ")")
                JWS_VERIFICATION_ERROR ;;
      ret false
  end.

(** The end of [validate] (lines 84 to 109): the checks of the issuer URL,
    the key download and the signature verification, on a payload that is
    not [null]. *)
Definition check_issuer (payload : JWSPayload) (jws : jsstring)
  : M State (ValidationResult jsstring) :=
  when (match iss payload with None | Some [] => true | _ => false end)
       (log_error (lit "Can't find 'iss' entry in JWS payload") SCHEMA_ERROR) ;;
  match iss payload with
  | None => throw (TypeError (lit "Cannot read property 'slice' of undefined"))
  | Some issuer =>
      when (negb (eqb (slice 0 (Some 8%Z) issuer) (lit "https://")))
           (log_error (lit "Issuer URL SHALL use https") INVALID_ISSUER_URL) ;;
      when (eqb (slice (-1) None issuer) (lit "/"))
           (log_error (lit "Issuer URL SHALL NOT include a trailing /")
                      INVALID_ISSUER_URL) ;;
      downloadKey issuer ;;
      ok <- verifyJws jws ;;
      when ok (log_info (lit "JWS signature verified")) ;;
      l <- current_log ;;
      ret (mkResult (Some jws) l)
  end.

(** [validate] from the length check on (lines 33 to 81), on the token
    with its surrounding white space removed. *)
Definition validate_trimmed (jws : jsstring) : M State (ValidationResult jsstring) :=
  when (MAX_JWS_SINGLE_CHUNK_LENGTH <? N.of_nat (length jws))%N
       (log_warn (lit "JWS is longer than " ++ of_N MAX_JWS_SINGLE_CHUNK_LENGTH
                  ++ lit " characters, and will result in split QR codes")
                 JWS_TOO_LONG) ;;
  if negb (test jws_shape jws) then
    log_fatal (lit "Failed to parse JWS-compact data as 'base64url.base64url.base64url' string.")
              JSON_PARSE_ERROR ;;
    l <- current_log ;;
    ret (mkResult None l)
  else
    called (CallValidateSchema jws) ;;
    logged (validateSchema env jws) ;;
    match split dot jws with
    | [] => throw (TypeError (lit "The first argument must be of type string"))
    | header :: rest =>
        log_debug (lit "JWS.header = " ++ Buffer_toString env (Buffer_from_base64 env header)) ;;
        match rest with
        | rawPayload :: key :: _ =>
            log_debug (lit "JWS.key (hex) = "
                       ++ Buffer_toString_hex (Buffer_from_binary key)) ;;
            called (CallInflateRaw (Buffer_from_base64 env rawPayload)) ;;
            inflatedPayload <-
              match inflateRaw env (Buffer_from_base64 env rawPayload) with
              | inl text => log_info (lit "JWS payload inflated") ;; ret (Some text)
              | inr err =>
                  log_error (join [10%N]
                               [lit "Error inflating JWS payload. Did you use raw DEFLATE compression?";
                                err])
                            INFLATION_ERROR ;;
                  ret None
              end ;;
            let text := match inflatedPayload with
                        | Some (c :: t) => c :: t
                        | _ => rawPayload
                        end in
            called (CallPayloadValidate text) ;;
            let payloadResult := jwsPayload_validate env text in
            logging (set_child (log payloadResult)) ;;
            match result payloadResult with
            | None => l <- current_log ;; ret (mkResult None l)
            | Some payload => check_issuer payload jws
            end
        | _ => throw (TypeError (lit "The first argument must be of type string"))
        end
    end.

(** The body of [validate], run on the fresh log. *)
Definition validate_body (jws : jsstring) : M State (ValidationResult jsstring) :=
  jws <- (if negb (eqb (trim jws) jws) then
            log_warn (lit "JWS has leading or trailing spaces") TRAILING_CHARACTERS ;;
            ret (trim jws)
          else ret jws) ;;
  validate_trimmed jws.

(** [validate(jws)]: the outcome of the promise, with the final state of
    the log (also when the promise is rejected), of the key store and the
    calls made. *)
Definition validate (store : KeyStore) (jws : jsstring)
  : Outcome (ValidationResult jsstring) * State :=
  validate_body jws (mkState (new_Log (lit "JWS-compact")) store []).

End WithEnv.

End JwsCompact.

(* ================================================================== *)
(** * The Image QR Decoder ([src/image.ts]) *)
(* ================================================================== *)

Module Image.
Import JS Logger Eff Eff.Notations.
Local Open Scope eff_scope.

(** Decoded pixel data, as [pngjs] gives it. *)
Record PNG : Type := mkPNG {
  data : Buffer;
  width : N;
  height : N
}.

(** One input file; [image] is absent until the file has been read as a
    raster image. *)
Record FileInfo : Type := mkFileInfo {
  name : jsstring;
  path : jsstring;
  fileType : jsstring;
  buffer : Buffer;
  image : option PNG
}.

(** The collaborators: Node's UTF-8 decoder, [svg2img] (the message of its
    error, or the raster buffer), [PNG.sync.read] and [fs.writeFileSync]
    (which may throw), the [jsQR] reader (the text of the code it finds, if
    any) and the Numeric QR Decoder. *)
Record Env : Type := mkEnv {
  Buffer_toString : Buffer -> jsstring;
  svg2img : jsstring -> N -> N -> jsstring + Buffer;
  PNG_sync_read : Buffer -> Exn + PNG;
  fs_writeFileSync : jsstring -> Buffer -> option Exn;
  jsQR : Buffer -> N -> N -> option jsstring;
  qr_validate : list jsstring -> ValidationResult jsstring
}.

(** What a run can change: its log and the files it has written. *)
Record State : Type := mkState {
  st_log : Log;
  st_written : list (jsstring * Buffer)
}.

Definition logging (f : Log -> Log) : M State unit :=
  modify (fun s => mkState (f (st_log s)) (st_written s)).

Definition current_log : M State Log := s <- get ;; ret (st_log s).

Definition svgImageWidth : N := 600.

(** [JSON.stringify] of a string: [QuoteJSONString]. *)
Definition hex4 (c : N) : jsstring :=
  [hex_digit (N.land (N.shiftr c 12) 0xF); hex_digit (N.land (N.shiftr c 8) 0xF);
   hex_digit (N.land (N.shiftr c 4) 0xF); hex_digit (N.land c 0xF)].

Definition unicode_escape (c : N) : jsstring := lit "\u" ++ hex4 c.

Definition is_lead (c : N) : bool := ((0xD800 <=? c) && (c <=? 0xDBFF))%N.
Definition is_trail (c : N) : bool := ((0xDC00 <=? c) && (c <=? 0xDFFF))%N.

Definition quote_unit (c : N) : jsstring :=
  if (c =? 0x08)%N then lit "\b"
  else if (c =? 0x09)%N then lit "\t"
  else if (c =? 0x0A)%N then lit "\n"
  else if (c =? 0x0C)%N then lit "\f"
  else if (c =? 0x0D)%N then lit "\r"
  else if (c =? 0x22)%N then [0x5C; 0x22]%N
  else if (c =? 0x5C)%N then [0x5C; 0x5C]%N
  else if (c <? 0x20)%N then unicode_escape c
  else [c].

Fixpoint quote_units (s : jsstring) : jsstring :=
  match s with
  | [] => []
  | c :: s' =>
      if is_lead c then
        match s' with
        | d :: s'' =>
            if is_trail d then c :: d :: quote_units s''
            else unicode_escape c ++ quote_units s'
        | [] => unicode_escape c
        end
      else if is_trail c then unicode_escape c ++ quote_units s'
      else quote_unit c ++ quote_units s'
  end.

Definition QuoteJSONString (s : jsstring) : jsstring :=
  [0x22%N] ++ quote_units s ++ [0x22%N].

(** [JSON.stringify] of an array of strings. *)
Definition JSON_stringify (a : list jsstring) : jsstring :=
  lit "[" ++ join (lit ",") (map QuoteJSONString a) ++ lit "]".

Section WithEnv.
Variable env : Env.

(** [svgToImageBuffer]: on an error the promise is rejected with
    [undefined]; the later [resolve] has no effect then. *)
Definition svgToImageBuffer (svgPath : jsstring) : M State Buffer :=
  match svg2img env svgPath svgImageWidth svgImageWidth with
  | inl message =>
      logging (Log_fatal (lit "Could not convert SVG to image. Error: " ++ message) None) ;;
      throw RejectedUndefined
  | inr buffer => ret buffer
  end.

(** [decodeQrBuffer]; the reader gets the bytes of [data.data], the width
    and the height. *)
Definition decodeQrBuffer (fileInfo : FileInfo) : M State (option jsstring) :=
  match image fileInfo with
  | None =>
      logging (Log_fatal (lit "Could not read image data from : " ++ name fileInfo) None) ;;
      ret None
  | Some data =>
      match jsQR env (Image.data data) (width data) (height data) with
      | None =>
          logging (Log_fatal (lit "Could not decode QR image from : " ++ name fileInfo)
                             (Some QR_DECODE_ERROR)) ;;
          ret None
      | Some code_data => ret (Some code_data)
      end
  end.

(** [decode]: the [svg] case falls through to the raster cases with the
    image it has read.  The assignment to [fileInfo.image] is carried in the
    record handed to [decodeQrBuffer]; nothing in [validate] reads it
    afterwards. *)
Definition decode (fileInfo : FileInfo) : M State (option jsstring) :=
  if eqb (fileType fileInfo) (lit "svg") then
    svgBuffer <- svgToImageBuffer (Buffer_toString env (buffer fileInfo)) ;;
    png <- match PNG_sync_read env svgBuffer with
           | inl e => throw e
           | inr png => ret png
           end ;;
    let fileInfo :=
      mkFileInfo (name fileInfo) (path fileInfo) (fileType fileInfo) (buffer fileInfo)
                 (Some png) in
    match fs_writeFileSync env (path fileInfo ++ lit ".png") svgBuffer with
    | Some e => throw e
    | None =>
        modify (fun s => mkState (st_log s)
                                 (st_written s ++ [(path fileInfo ++ lit ".png", svgBuffer)]))
    end ;;
    decodeQrBuffer fileInfo
  else if eqb (fileType fileInfo) (lit "png") || eqb (fileType fileInfo) (lit "jpg")
          || eqb (fileType fileInfo) (lit "bmp") then
    decodeQrBuffer fileInfo
  else
    logging (Log_fatal (lit "Unknown data in file") (Some UNKNOWN_FILE_DATA)) ;;
    ret None.

(** The [for] loop of [validate]: [None] is the early
    [return { result: undefined, log: log }]. *)
Fixpoint decode_loop (images : list FileInfo) (shcStrings : list jsstring)
  : M State (option (list jsstring)) :=
  match images with
  | [] => ret (Some shcStrings)
  | img :: rest =>
      shc <- decode img ;;
      match shc with
      | None => ret None
      | Some shc =>
          logging (Log_info (name img ++ lit " decoded")) ;;
          logging (Log_debug (name img ++ lit " = " ++ shc)) ;;
          decode_loop rest (shcStrings ++ [shc])
      end
  end.

Definition validate_body (images : list FileInfo)
  : M State (ValidationResult jsstring) :=
  r <- decode_loop images [] ;;
  match r with
  | None => l <- current_log ;; ret (mkResult None l)
  | Some shcStrings =>
      logging (set_child (log (qr_validate env shcStrings))) ;;
      l <- current_log ;;
      ret (mkResult (Some (JSON_stringify shcStrings)) l)
  end.

(** [validate(images)] *)
Definition validate (images : list FileInfo)
  : Outcome (ValidationResult jsstring) * State :=
  validate_body images
    (mkState (new_Log (if (1 <? length images)%nat
                       then lit "QR images (" ++ of_N (N.of_nat (length images)) ++ lit ")"
                       else lit "QR image"))
             []).

End WithEnv.

End Image.

(* ================================================================== *)
(** * The Trusted Issuer Directory *)
(* ================================================================== *)

Module TrustedIssuers.
Import JS Logger.

Record TrustedIssuer : Type := mkIssuer {
  iss : jsstring;
  name : jsstring
}.

Record TrustedIssuers : Type := mkIssuers {
  participating_issuers : list TrustedIssuer
}.

(** The static members of the class; each is [undefined] until set. *)
Record TrustedIssuerDirectory : Type := mkDirectory {
  directoryURL : option jsstring;
  directoryName : option jsstring;
  issuers : option TrustedIssuers
}.

(** [TrustedIssuerDirectory.name]: no static member has that name, so it is
    the name of the class. *)
Definition class_name : jsstring := lit "TrustedIssuerDirectory".

(** A possibly-undefined string inside a template literal. *)
Definition interpolate (s : option jsstring) : jsstring :=
  match s with Some s => s | None => lit "undefined" end.

(** [checkTrustedIssuerDirectory(iss, log)] *)
Definition checkTrustedIssuerDirectory
    (dir : TrustedIssuerDirectory) (iss' : jsstring) (log : Log) : Log :=
  match issuers dir with
  | Some directory =>
      let issName :=
        nth_error (map name (filter (fun issuer => eqb (iss issuer) iss')
                                    (participating_issuers directory))) 0 in
      match issName with
      | Some (c :: n) =>
          Log_debug (lit "Issuer found in " ++ class_name ++ lit " directory; name: "
                     ++ (c :: n)) log
      | _ =>
          Log_error (lit "Issuer not part of the " ++ interpolate (directoryName dir)
                     ++ lit " directory") (Some ISSUER_NOT_TRUSTED) log
      end
  | None =>
      Log_error (lit "Error validating against the trusted issuers directory: directory not set")
                None log
  end.

End TrustedIssuers.

(* ================================================================== *)
(** * The shapes and conditions the properties speak about *)
(* ================================================================== *)

Module Shape.
Import JS JwsCompact.

(** A non-empty run of base64url characters. *)
Definition Base64url (x : jsstring) : Prop :=
  x <> [] /\ forallb base64url_char x = true.

(** The [x.y.z] shape: the whole string is three base64url parts separated
    by two dots. *)
Definition Segmentable (s : jsstring) : Prop :=
  exists x y z,
    s = x ++ [dot] ++ y ++ [dot] ++ z /\ Base64url x /\ Base64url y /\ Base64url z.

(** Some substring has the [x.y.z] shape. *)
Definition ContainsShape (s : jsstring) : Prop :=
  exists pre u post, s = pre ++ u ++ post /\ Segmentable u.

(** The [x.y.z] shape, decided on the dot-separated parts. *)
Definition xyz_shape (s : jsstring) : bool :=
  match split dot s with
  | [x; y; z] =>
      let part p := negb (eqb p []) && forallb base64url_char p in
      part x && part y && part z
  | _ => false
  end.

End Shape.

(* ================================================================== *)
(** * The entries and the intermediate logs of a compact-token run *)
(* ================================================================== *)

Module Stages.
Import JS Logger Eff JwsCompact.

Definition trailing_warning : LogItem :=
  mkItem WARNING (lit "JWS has leading or trailing spaces") (Some TRAILING_CHARACTERS).

Definition length_warning : LogItem :=
  mkItem WARNING
    (lit "JWS is longer than " ++ of_N MAX_JWS_SINGLE_CHUNK_LENGTH
     ++ lit " characters, and will result in split QR codes")
    (Some JWS_TOO_LONG).

Definition shape_fatal : LogItem :=
  mkItem FATAL
    (lit "Failed to parse JWS-compact data as 'base64url.base64url.base64url' string.")
    (Some JSON_PARSE_ERROR).

Definition inflation_error (err : jsstring) : LogItem :=
  mkItem ERROR
    (join [10%N] [lit "Error inflating JWS payload. Did you use raw DEFLATE compression?"; err])
    (Some INFLATION_ERROR).

Definition missing_iss_error : LogItem :=
  mkItem ERROR (lit "Can't find 'iss' entry in JWS payload") (Some SCHEMA_ERROR).

Definition retrieving_info (issuer : jsstring) : LogItem :=
  mkItem INFO (lit "Retrieving issuer key from " ++ issuer ++ lit "/.well-known/jwks.json")
         None.

Definition download_error : LogItem :=
  mkItem ERROR (lit "Can't parse downloaded issuer keys as a key set")
         (Some ISSUER_KEY_DOWNLOAD_ERROR).

Definition verification_error (m : jsstring) : LogItem :=
  mkItem ERROR (lit "JWS verification failed : (" ++ m ++ lit ")")
         (Some JWS_VERIFICATION_ERROR).

(** Where [jwkURL] points. *)
Definition jwks_url (issuer : jsstring) : jsstring :=
  issuer ++ lit "/.well-known/jwks.json".

(** The state in which the length check starts. *)
Definition entered (store : KeyStore) (s : jsstring) : State :=
  mkState (if negb (eqb (trim s) s)
           then push trailing_warning (new_Log (lit "JWS-compact"))
           else new_Log (lit "JWS-compact"))
          store [].

(** The log after the length check. *)
Definition measured (jws : jsstring) (l : Log) : Log :=
  (if (MAX_JWS_SINGLE_CHUNK_LENGTH <? N.of_nat (length jws))%N
   then push length_warning else fun l => l) l.

Section WithEnv.
Variable env : Env.

(** What the inflation step logs, and the text it hands on. *)
Definition inflation_entry (rawPayload : jsstring) : LogItem :=
  match inflateRaw env (Buffer_from_base64 env rawPayload) with
  | inl _ => mkItem INFO (lit "JWS payload inflated") None
  | inr err => inflation_error err
  end.

Definition payload_text (rawPayload : jsstring) : jsstring :=
  match inflateRaw env (Buffer_from_base64 env rawPayload) with
  | inl (c :: t) => c :: t
  | _ => rawPayload
  end.

(** The state in which the Payload Validator has returned. *)
Definition parsed (jws header rawPayload key : jsstring) (st : State) : State :=
  mkState
    (set_child (log (jwsPayload_validate env (payload_text rawPayload)))
       (push (inflation_entry rawPayload)
          (Log_debug (lit "JWS.key (hex) = " ++ Buffer_toString_hex (Buffer_from_binary key))
             (Log_debug (lit "JWS.header = "
                         ++ Buffer_toString env (Buffer_from_base64 env header))
                (fold_left (fun l i => push i l) (validateSchema env jws)
                           (measured jws (st_log st)))))))
    (st_store st)
    (st_calls st ++ [CallValidateSchema jws;
                     CallInflateRaw (Buffer_from_base64 env rawPayload);
                     CallPayloadValidate (payload_text rawPayload)]).

End WithEnv.

(** The calls of the last stage: the download and the verifications. *)
Definition issuer_call (c : Call) : Prop :=
  match c with
  | CallGot _ | CallVerifyIssuerKey _ _ | CallVerify _ _ => True
  | _ => False
  end.

(** An entry logged after the trimming step: one of the validator's own,
    none of which has the trailing-characters kind, or one that the schema
    validator or the Key Set Validator wrote into the log. *)
Definition later_entry (env : Env) (i : LogItem) : Prop :=
  code i <> Some TRAILING_CHARACTERS
  \/ (exists jws, In i (validateSchema env jws))
  \/ (exists keySet url store,
        In i (snd (fst (verifyHealthCardIssuerKey env keySet url store)))).

(** The log [l'] is [l] with later entries appended. *)
Definition log_grows (env : Env) (l l' : Log) : Prop :=
  exists its, items l' = items l ++ its /\ Forall (later_entry env) its.

(** The calls of [st'] are those of [st] and calls of the last stage. *)
Definition calls_grow (st st' : State) : Prop :=
  exists more, st_calls st' = st_calls st ++ more /\ Forall issuer_call more.

(** What a run on the trimmed token [jws] ends with, read off the token
    and the collaborators' answers. *)
Definition expected_result (env : Env) (jws : jsstring) : Outcome (option jsstring) :=
  if test jws_shape jws then
    match split dot jws with
    | _ :: rawPayload :: _ :: _ =>
        match result (jwsPayload_validate env (payload_text env rawPayload)) with
        | None => Resolved None
        | Some payload =>
            match iss payload with
            | None => Rejected (TypeError (lit "Cannot read property 'slice' of undefined"))
            | Some _ => Resolved (Some jws)
            end
        end
    | _ => Rejected (TypeError (lit "The first argument must be of type string"))
    end
  else Resolved None.

(** The result of a run without its log. *)
Definition result_of {T} (o : Outcome (ValidationResult T)) : Outcome (option T) :=
  match o with
  | Resolved r => Resolved (result r)
  | Rejected e => Rejected e
  end.

(** The run stopped at the shape check: the fatal entry is the last one
    logged, the result is [undefined] and no collaborator was called. *)
Definition stopped_at_shape_check
    (r : Outcome (ValidationResult jsstring) * State) : Prop :=
  exists its,
    fst r = Resolved (mkResult None (st_log (snd r)))
    /\ items (st_log (snd r)) = its ++ [shape_fatal]
    /\ child (st_log (snd r)) = None
    /\ st_calls (snd r) = [].

(** The run went past the shape check: its next step, the schema
    validation of the trimmed token, was made. *)
Definition passed_shape_check (jws : jsstring)
    (r : Outcome (ValidationResult jsstring) * State) : Prop :=
  exists rest, st_calls (snd r) = CallValidateSchema jws :: rest.

(** Three readings that the validator does not meet, for comparison with
    what it does. *)

(** The result is [undefined] exactly when the Payload Validator gave no
    payload, and is the input string in every other case. *)
Definition undefined_iff_payload_failed (env : Env) (store : KeyStore) (s : jsstring)
  : Prop :=
  forall r, fst (validate env store s) = Resolved r ->
    (result r = None <->
     exists text,
       In (CallPayloadValidate text) (st_calls (snd (validate env store s)))
       /\ result (jwsPayload_validate env text) = None)
    /\ (result r <> None -> result r = Some s).

(** The shape check stops exactly the strings that are not of the [x.y.z]
    shape. *)
Definition shape_check_is_exact (env : Env) (store : KeyStore) (s : jsstring) : Prop :=
  (~ Shape.Segmentable s -> stopped_at_shape_check (validate env store s))
  /\ (Shape.Segmentable s -> passed_shape_check (trim s) (validate env store s)).

(** When the payload segment does not inflate, its base64-decoded bytes go
    to the Payload Validator. *)
Definition decoded_bytes_handed_on (env : Env) (store : KeyStore) (s : jsstring) : Prop :=
  forall header rawPayload key more err,
    split dot (trim s) = header :: rawPayload :: key :: more ->
    inflateRaw env (Buffer_from_base64 env rawPayload) = inr err ->
    In (inflation_error err) (items (st_log (snd (validate env store s))))
    /\ In (CallPayloadValidate (Buffer_toString env (Buffer_from_base64 env rawPayload)))
          (st_calls (snd (validate env store s))).

End Stages.

(* ================================================================== *)
(** * The entries and the conditions of an image run *)
(* ================================================================== *)

Module ImageStages.
Import JS Logger Eff Image.

Definition decode_error (n : jsstring) : LogItem :=
  mkItem FATAL (lit "Could not decode QR image from : " ++ n) (Some QR_DECODE_ERROR).

Definition conversion_error (m : jsstring) : LogItem :=
  mkItem FATAL (lit "Could not convert SVG to image. Error: " ++ m) None.

(** The file types [decode] hands to the QR reader as they are. *)
Definition is_raster (t : jsstring) : bool :=
  eqb t (lit "png") || eqb t (lit "jpg") || eqb t (lit "bmp").

Section WithEnv.
Variable env : Env.

(** [decode] gives the text [shc] for the image, whatever was logged
    before. *)
Definition Decodes (img : FileInfo) (shc : jsstring) : Prop :=
  forall st, exists st', decode env img st = (Resolved (Some shc), st').

(** The QR reader is reached and finds no code: in the pixel data of a
    raster file, or in the raster that an SVG file was converted to. *)
Definition QrUnreadable (img : FileInfo) : Prop :=
  (is_raster (fileType img) = true /\
   exists png, image img = Some png
               /\ jsQR env (data png) (width png) (height png) = None)
  \/
  (eqb (fileType img) (lit "svg") = true /\
   exists svgBuffer png,
     svg2img env (Buffer_toString env (buffer img)) svgImageWidth svgImageWidth
     = inr svgBuffer
     /\ PNG_sync_read env svgBuffer = inr png
     /\ fs_writeFileSync env (path img ++ lit ".png") svgBuffer = None
     /\ jsQR env (data png) (width png) (height png) = None).

(** An image for which [decode] gives no text. *)
Definition gives_no_text (img : FileInfo) : Prop :=
  forall st shc, fst (decode env img st) <> Resolved (Some shc).

(** The conversion of an SVG file to a raster fails with the message [m]. *)
Definition SvgConversionFails (img : FileInfo) (m : jsstring) : Prop :=
  eqb (fileType img) (lit "svg") = true
  /\ svg2img env (Buffer_toString env (buffer img)) svgImageWidth svgImageWidth = inl m.

End WithEnv.

End ImageStages.

(* ================================================================== *)
(** * Writing QR image files ([svgToQRImage] of [src/image.ts]) *)
(* ================================================================== *)

Module QrImageFiles.
Import JS Eff.

(** [s.lastIndexOf(c)] for a one-character [c]: [-1] when [c] is absent. *)
Fixpoint lastIndexOf_from (c : N) (s : jsstring) (i : Z) (found : Z) : Z :=
  match s with
  | [] => found
  | d :: s' => lastIndexOf_from c s' (i + 1) (if (d =? c)%N then i else found)
  end.

Definition lastIndexOf (c : N) (s : jsstring) : Z := lastIndexOf_from c s 0 (-1).

(** [filePath.slice(0, filePath.lastIndexOf('.'))] *)
Definition baseFileName (filePath : jsstring) : jsstring :=
  slice 0 (Some (lastIndexOf 46 filePath)) filePath.

(** What reaches [console.error]: the string the first promise is rejected
    with, or what a later step throws. *)
Inductive Reason : Type :=
| ReasonString (s : jsstring)
| ReasonExn (e : Exn).

(** What a run does to the outside, in the order of the calls. *)
Inductive Effect : Type :=
| WriteFileSync (path : jsstring) (content : Buffer)
| JimpRead (path : jsstring)
| JimpWrite (path : jsstring)
| JimpGrayscale
| JimpQuality (q : N)
| ConsoleError (what : Reason).

(** The collaborators: [svg2img] ([None]: it calls back with an error),
    [fs.writeFileSync] and [Jimp.read] (what they throw, if anything).  The
    methods of the image [Jimp.read] gives are taken to return normally. *)
Record Env : Type := mkEnv {
  svg2img : jsstring -> N -> N -> option Buffer;
  fs_writeFileSync : jsstring -> Buffer -> option Exn;
  Jimp_read : jsstring -> option Exn
}.

(** [svgToQRImage(filePath)]: the effects of the promise chain; its final
    [catch] prints whatever an earlier step was rejected with. *)
Definition svgToQRImage (env : Env) (filePath : jsstring) : list Effect :=
  let base := baseFileName filePath in
  match svg2img env filePath 600 600 with
  | None => [ConsoleError (ReasonString (lit "Could not create image from svg"))]
  | Some buffer =>
      match fs_writeFileSync env (base ++ lit ".png") buffer with
      | Some e => [ConsoleError (ReasonExn e)]
      | None =>
          WriteFileSync (base ++ lit ".png") buffer ::
          JimpRead (base ++ lit ".png") ::
          match Jimp_read env (base ++ lit ".png") with
          | Some e => [ConsoleError (ReasonExn e)]
          | None =>
              [JimpWrite (base ++ lit ".bmp");
               JimpGrayscale; JimpQuality 100;
               JimpWrite (base ++ lit ".jpg")]
          end
      end
  end.

End QrImageFiles.

(* ================================================================== *)
(** * More entries and conditions of the runs *)
(* ================================================================== *)

Module MoreStages.
Import JS Logger Eff.

Definition https_error : LogItem :=
  mkItem ERROR (lit "Issuer URL SHALL use https") (Some INVALID_ISSUER_URL).

Definition slash_error : LogItem :=
  mkItem ERROR (lit "Issuer URL SHALL NOT include a trailing /") (Some INVALID_ISSUER_URL).

Definition downloaded_debug : LogItem :=
  mkItem DEBUG (lit "Downloaded issuer key(s) : ") None.

Definition verified_info : LogItem := mkItem INFO (lit "JWS signature verified") None.

Definition inflated_info : LogItem := mkItem INFO (lit "JWS payload inflated") None.

(** [p] is a prefix of [s]. *)
Fixpoint starts_with (p s : jsstring) : bool :=
  match p, s with
  | [], _ => true
  | a :: p', b :: s' => (a =? b)%N && starts_with p' s'
  | _ :: _, [] => false
  end.

(** The last character of [s] is a slash. *)
Definition ends_with_slash (s : jsstring) : bool :=
  match rev s with
  | c :: _ => (c =? 47)%N
  | [] => false
  end.

(** What the checks of the issuer URL log. *)
Definition issuer_entries (issuer : jsstring) : list LogItem :=
  (match issuer with [] => [Stages.missing_iss_error] | _ => [] end)
  ++ (if starts_with (lit "https://") issuer then [] else [https_error])
  ++ (if ends_with_slash issuer then [slash_error] else []).

(** An entry that is not fatal, or that the schema validator or the Key
    Set Validator wrote into the log. *)
Definition nonfatal_entry (env : JwsCompact.Env) (i : LogItem) : Prop :=
  level i <> FATAL
  \/ (exists jws, In i (JwsCompact.validateSchema env jws))
  \/ (exists keySet url store,
        In i (snd (fst (JwsCompact.verifyHealthCardIssuerKey env keySet url store)))).

(** Entries of the image decoder. *)
Definition unknown_file_error : LogItem :=
  mkItem FATAL (lit "Unknown data in file") (Some UNKNOWN_FILE_DATA).

Definition missing_data_error (n : jsstring) : LogItem :=
  mkItem FATAL (lit "Could not read image data from : " ++ n) None.

Definition decoded_entries (n shc : jsstring) : list LogItem :=
  [mkItem INFO (n ++ lit " decoded") None; mkItem DEBUG (n ++ lit " = " ++ shc) None].

(** The state of an image run before anything is logged or written, and a
    state with the entries and files of another one added. *)
Definition fresh : Image.State := Image.mkState (new_Log []) [].

Definition appended (st0 st : Image.State) : Image.State :=
  Image.mkState
    (fold_left (fun l i => push i l) (items (Image.st_log st0)) (Image.st_log st))
    (Image.st_written st ++ Image.st_written st0).

(** A raster file with pixel data in which the reader finds [shc]. *)
Definition ReadableRaster (env : Image.Env) (img : Image.FileInfo) (shc : jsstring) : Prop :=
  ImageStages.is_raster (Image.fileType img) = true
  /\ exists png, Image.image img = Some png
                 /\ Image.jsQR env (Image.data png) (Image.width png) (Image.height png)
                    = Some shc.

(** A file of a type [decode] does not know. *)
Definition UnknownType (img : Image.FileInfo) : Prop :=
  eqb (Image.fileType img) (lit "svg") = false
  /\ ImageStages.is_raster (Image.fileType img) = false.

(** An SVG file that converts, after which reading the raster or writing it
    to disk throws [e]. *)
Definition SvgStepThrows (env : Image.Env) (img : Image.FileInfo) (e : Exn) : Prop :=
  eqb (Image.fileType img) (lit "svg") = true
  /\ exists svgBuffer,
       Image.svg2img env (Image.Buffer_toString env (Image.buffer img))
                     Image.svgImageWidth Image.svgImageWidth = inr svgBuffer
       /\ (Image.PNG_sync_read env svgBuffer = inl e
           \/ (exists png, Image.PNG_sync_read env svgBuffer = inr png)
              /\ Image.fs_writeFileSync env (Image.path img ++ lit ".png") svgBuffer
                 = Some e).

End MoreStages.

(* ================================================================== *)
(** * A closed environment for the examples *)
(* ================================================================== *)

Module Examples.
Import JS Logger Eff.

(** The value of a base64 or base64url digit. *)
Definition sextet (c : N) : option N :=
  (if (65 <=? c) && (c <=? 90) then Some (c - 65)
   else if (97 <=? c) && (c <=? 122) then Some (c - 71)
   else if (48 <=? c) && (c <=? 57) then Some (c + 4)
   else if (c =? 43) || (c =? 45) then Some 62
   else if (c =? 47) || (c =? 95) then Some 63
   else None)%N.

Fixpoint sextets_to_bytes (l : list N) : Buffer :=
  match l with
  | a :: b :: c :: d :: r =>
      [a * 4 + b / 16; (b mod 16) * 16 + c / 4; (c mod 4) * 64 + d]%N
        ++ sextets_to_bytes r
  | [a; b; c] => [a * 4 + b / 16; (b mod 16) * 16 + c / 4]%N
  | [a; b] => [a * 4 + b / 16]%N
  | _ => []
  end.

(** Base64 decoding of unpadded text in either alphabet; other characters
    are skipped. *)
Definition base64_decode (s : jsstring) : Buffer :=
  sextets_to_bytes
    (flat_map (fun c => match sextet c with Some v => [v] | None => [] end) s).

(** Raw DEFLATE restricted to a single final stored block (RFC 1951,
    3.2.4); a reserved block type is rejected as [pako] does, and the
    compressed block types are outside what the examples use. *)
Definition inflate_stored (b : Buffer) : jsstring + jsstring :=
  match b with
  | hdr :: l0 :: l1 :: n0 :: n1 :: body =>
      if (N.land hdr 7 =? 1)%N then
        if ((l0 + n0 =? 255) && (l1 + n1 =? 255)
            && (N.of_nat (length body) =? l0 + 256 * l1))%N
        then inl body
        else inr (lit "invalid stored block lengths")
      else if (N.land hdr 6 =? 6)%N then inr (lit "invalid block type")
      else inr (lit "unsupported block type")
  | hdr :: _ =>
      if (N.land hdr 6 =? 6)%N then inr (lit "invalid block type")
      else inr (lit "unexpected end of file")
  | [] => inr (lit "unexpected end of file")
  end.

Definition example_issuer : jsstring := lit "https://example.org/issuer".

(** The JSON texts [{}] and [{"iss":"https://example.org/issuer"}]. *)
Definition json_empty_object : jsstring := lit "{}".
Definition json_with_iss : jsstring :=
  lit "{" ++ [34%N] ++ lit "iss" ++ [34; 58; 34]%N ++ example_issuer ++ [34%N] ++ lit "}".

(** A Payload Validator that knows the two example payloads. *)
Definition payload_validate (text : jsstring) : ValidationResult JwsCompact.JWSPayload :=
  if eqb text json_with_iss then
    mkResult (Some (JwsCompact.mkPayload (Some example_issuer)))
             (new_Log (lit "JWS.payload"))
  else if eqb text json_empty_object then
    mkResult (Some (JwsCompact.mkPayload None))
             (Log_error (lit "Schema: requires property iss") (Some SCHEMA_ERROR)
                        (new_Log (lit "JWS.payload")))
  else
    mkResult None
             (Log_fatal (lit "Failed to parse JWS.payload data as JSON.")
                        (Some JSON_PARSE_ERROR) (new_Log (lit "JWS.payload"))).

(** An offline environment: every download fails, and a signature verifies
    only against a non-empty key store. *)
Definition offline : JwsCompact.Env :=
  JwsCompact.mkEnv
    (fun jws => if Shape.xyz_shape jws then []
                else [mkItem ERROR (lit "Schema: JWS does not match pattern") (Some SCHEMA_ERROR)])
    base64_decode
    (fun b => b)
    inflate_stored
    payload_validate
    (fun _ => None)
    (fun keySet _ store => (Resolved (Some keySet), [], store ++ keySet))
    (fun store _ => match store with
                    | [] => JwsCompact.VerifyFailed (lit "no key found")
                    | _ => JwsCompact.Verified
                    end).

(** [e30.<stored {}>.c2ln]: a payload without [iss]. *)
Definition token_without_iss : jsstring := lit "e30.AQIA_f97fQ.c2ln".
(** A token whose payload is [{"iss":"https://example.org/issuer"}]. *)
Definition token_with_iss : jsstring :=
  lit "e30.ASQA2_97ImlzcyI6Imh0dHBzOi8vZXhhbXBsZS5vcmcvaXNzdWVyIn0.c2ln".
(** The token with an [iss], padded with spaces. *)
Definition token_padded : jsstring := lit " " ++ token_with_iss ++ lit "  ".
(** A token whose payload segment is the single byte 7: a final block of
    the reserved type. *)
Definition token_not_deflated : jsstring := lit "e30.Bw.c2ln".

(** Image collaborators: an SVG converts when its text starts with [<];
    a raster whose pixel data starts with the bytes of [QR] carries the
    rest as its code. *)
Definition images : Image.Env :=
  Image.mkEnv
    (fun b => b)
    (fun svg _ _ => match svg with
                    | 60%N :: _ => inr svg
                    | _ => inl (lit "not an SVG document")
                    end)
    (fun b => inr (Image.mkPNG b 1 1))
    (fun _ _ => None)
    (fun d _ _ => match d with
                  | 81%N :: 82%N :: code => Some code
                  | _ => None
                  end)
    (fun shcs => mkResult (Some (concat shcs)) (new_Log (lit "QR numeric"))).

Definition raster (n : string) (pixels : jsstring) : Image.FileInfo :=
  Image.mkFileInfo (lit n) (lit n) (lit "png") pixels (Some (Image.mkPNG pixels 1 1)).

Definition svg_file (n : string) (text : jsstring) : Image.FileInfo :=
  Image.mkFileInfo (lit n) (lit n) (lit "svg") text None.

End Examples.

(* ================================================================== *)
(** * Environments in which the key set arrives, or the disk is full *)
(* ================================================================== *)

Module MoreExamples.
Import JS Logger Eff Examples.

Definition example_key : JwsCompact.Key :=
  JwsCompact.mkKey (lit "k1") (lit "EC") (lit "sig") (lit "P-256") (lit "x1") (lit "y1").

Definition with_keys
    (validator : JwsCompact.KeySet -> jsstring -> JwsCompact.KeyStore ->
                 Outcome (option JwsCompact.KeySet) * list LogItem * JwsCompact.KeyStore)
    : JwsCompact.Env :=
  JwsCompact.mkEnv
    (JwsCompact.validateSchema offline)
    (JwsCompact.Buffer_from_base64 offline)
    (JwsCompact.Buffer_toString offline)
    (JwsCompact.inflateRaw offline)
    (JwsCompact.jwsPayload_validate offline)
    (fun _ => Some [example_key])
    validator
    (JwsCompact.verifier_verify offline).

(** Every issuer answers with one key, which the Key Set Validator
    stores. *)
Definition online : JwsCompact.Env :=
  with_keys (JwsCompact.verifyHealthCardIssuerKey offline).

Definition thumbprint_error : LogItem :=
  mkItem ERROR (lit "key's 'kid' does not match its thumbprint") (Some (OtherCode 1)).

(** Every issuer answers with one key; the Key Set Validator stores it,
    logs an error and then rejects. *)
Definition rejecting : JwsCompact.Env :=
  with_keys (fun keySet _ store =>
               (Rejected (Error (lit "key set rejected")), [thumbprint_error],
                store ++ keySet)).

(** The image collaborators of [images] with a disk that takes no file. *)
Definition disk_full : Image.Env :=
  Image.mkEnv
    (Image.Buffer_toString images)
    (Image.svg2img images)
    (Image.PNG_sync_read images)
    (fun _ _ => Some (Error (lit "ENOSPC: no space left on device")))
    (Image.jsQR images)
    (Image.qr_validate images).

Definition other_file (n : string) (type : string) (content : jsstring) : Image.FileInfo :=
  Image.mkFileInfo (lit n) (lit n) (lit type) content None.

(** A directory with two participants of the same URL. *)
Definition directory : TrustedIssuers.TrustedIssuerDirectory :=
  TrustedIssuers.mkDirectory
    (Some (lit "https://example.org/directory.json")) (Some (lit "VCI"))
    (Some (TrustedIssuers.mkIssuers
             [TrustedIssuers.mkIssuer (lit "https://example.org/other") (lit "Other");
              TrustedIssuers.mkIssuer example_issuer (lit "Example");
              TrustedIssuers.mkIssuer example_issuer (lit "Duplicate")])).

(** [svg2img] fails on every path; the disk and Jimp are not reached. *)
Definition no_converter : QrImageFiles.Env :=
  QrImageFiles.mkEnv (fun _ _ _ => None) (fun _ _ => None) (fun _ => None).

End MoreExamples.

(* ================================================================== *)
(** * Facts about the string primitives *)
(* ================================================================== *)

Section StringFacts.
Import JS.

Lemma eqb_refl (a : jsstring) : eqb a a = true.
Proof.
  induction a as [|c a IH]; simpl; [reflexivity|].
  now rewrite N.eqb_refl, IH.
Qed.

Lemma eqb_eq (a b : jsstring) : eqb a b = true <-> a = b.
Proof.
  split.
  - revert b; induction a as [|c a IH]; intros [|d b]; simpl; try discriminate; auto.
    intros H. apply andb_true_iff in H as [Hc Hr].
    apply N.eqb_eq in Hc. subst d. f_equal. now apply IH.
  - intros ->. apply eqb_refl.
Qed.

Lemma eqb_neq (a b : jsstring) : eqb a b = false <-> a <> b.
Proof.
  rewrite <- eqb_eq. destruct (eqb a b); split; congruence.
Qed.

(** ** [trim] *)

Lemma trimStart_fixed (c : N) (s : jsstring) :
  isWhiteSpace c = false -> trimStart (c :: s) = c :: s.
Proof. intros H; simpl; now rewrite H. Qed.

Lemma trimStart_head (s : jsstring) :
  match trimStart s with
  | [] => True
  | c :: _ => isWhiteSpace c = false
  end.
Proof.
  induction s as [|c s IH]; simpl; [exact I|].
  destruct (isWhiteSpace c) eqn:E; [exact IH | exact E].
Qed.

Lemma trimStart_suffix (s : jsstring) : exists ws, s = ws ++ trimStart s.
Proof.
  induction s as [|c s [ws IH]]; simpl.
  - now exists [].
  - destruct (isWhiteSpace c).
    + exists (c :: ws). simpl. now f_equal.
    + now exists [].
Qed.


Lemma trimStart_idem (s : jsstring) : trimStart (trimStart s) = trimStart s.
Proof.
  pose proof (trimStart_head s) as H.
  destruct (trimStart s) as [|c t]; [reflexivity|].
  now apply trimStart_fixed.
Qed.

Lemma trimEnd_idem (s : jsstring) : trimEnd (trimEnd s) = trimEnd s.
Proof.
  unfold trimEnd. now rewrite rev_involutive, trimStart_idem.
Qed.

(** Stripping the end leaves the start as it is. *)
Lemma trimEnd_prefix (s : jsstring) : exists ws, s = trimEnd s ++ ws.
Proof.
  unfold trimEnd. destruct (trimStart_suffix (rev s)) as [ws H].
  exists (rev ws). rewrite <- rev_app_distr, <- H. now rewrite rev_involutive.
Qed.

Lemma trimStart_trimEnd (s : jsstring) :
  trimStart (trimEnd (trimStart s)) = trimEnd (trimStart s).
Proof.
  pose proof (trimStart_head s) as Hh.
  destruct (trimEnd_prefix (trimStart s)) as [ws Hp].
  destruct (trimEnd (trimStart s)) as [|c t] eqn:E; [reflexivity|].
  rewrite Hp in Hh. simpl in Hh. now apply trimStart_fixed.
Qed.

Lemma trim_idempotent (s : jsstring) : trim (trim s) = trim s.
Proof.
  unfold trim. now rewrite trimStart_trimEnd, trimEnd_idem.
Qed.

(** A string that neither starts nor ends with white space is its own
    trimmed form. *)
Lemma trim_fixed (s : jsstring) :
  (forall c t, s = c :: t -> isWhiteSpace c = false) ->
  (forall c t, s = t ++ [c] -> isWhiteSpace c = false) ->
  trim s = s.
Proof.
  intros Hfirst Hlast. unfold trim, trimEnd.
  assert (E : trimStart s = s).
  { destruct s as [|c t]; [reflexivity|].
    apply trimStart_fixed. now apply (Hfirst c t). }
  rewrite E.
  destruct (rev s) as [|c t] eqn:R.
  - simpl. apply (f_equal (@rev N)) in R. now rewrite rev_involutive in R.
  - rewrite trimStart_fixed.
    + rewrite <- R. apply rev_involutive.
    + apply (Hlast c (rev t)).
      apply (f_equal (@rev N)) in R. now rewrite rev_involutive in R.
Qed.

(** ** [split] *)

Lemma split_length (sep : N) (s : jsstring) :
  length (split sep s) = S (count_occ N.eq_dec s sep).
Proof.
  induction s as [|c s IH]; simpl; [reflexivity|].
  destruct (N.eqb_spec c sep) as [->|Hne].
  - destruct (N.eq_dec sep sep); [|congruence]. simpl. now rewrite IH.
  - destruct (N.eq_dec c sep); [congruence|].
    destruct (split sep s); simpl in *; [discriminate | exact IH].
Qed.

Lemma split_free (sep : N) (x : jsstring) :
  forallb (fun c => negb (c =? sep)%N) x = true -> split sep x = [x].
Proof.
  induction x as [|c x IH]; simpl; [reflexivity|].
  intros H. apply andb_true_iff in H as [Hc Hx].
  apply negb_true_iff in Hc. rewrite Hc, (IH Hx). reflexivity.
Qed.

Lemma split_app_sep (sep : N) (x r : jsstring) :
  forallb (fun c => negb (c =? sep)%N) x = true ->
  split sep (x ++ sep :: r) = x :: split sep r.
Proof.
  induction x as [|c x IH]; simpl.
  - intros _. now rewrite N.eqb_refl.
  - intros H. apply andb_true_iff in H as [Hc Hx].
    apply negb_true_iff in Hc. rewrite Hc, (IH Hx). reflexivity.
Qed.

(** ** Regular expressions: the matcher decides the language *)

Lemma nullable_Matches (r : regex) : nullable r = true <-> Matches r [].
Proof.
  split.
  - induction r; simpl; intros H; try discriminate.
    + constructor.
    + apply andb_true_iff in H as [H1 H2].
      change (@nil N) with (@nil N ++ []). constructor; auto.
    + apply orb_true_iff in H as [H|H]; [apply MAltL | apply MAltR]; auto.
    + constructor.
  - intros H. remember (@nil N) as u eqn:E.
    induction H; simpl; try discriminate; auto.
    + apply app_eq_nil in E as [-> ->]. now rewrite IHMatches1, IHMatches2.
    + now rewrite IHMatches.
    + rewrite IHMatches by assumption. apply orb_true_r.
Qed.

Lemma deriv_sound (c : N) (r : regex) :
  forall u, Matches (deriv c r) u -> Matches r (c :: u).
Proof.
  induction r as [| |p|r1 IH1 r2 IH2|r1 IH1 r2 IH2|r1 IH1]; simpl; intros u H.
  - inversion H.
  - inversion H.
  - destruct (p c) eqn:E; inversion H; subst. now constructor.
  - assert (L : forall w, Matches (Cat (deriv c r1) r2) w -> Matches (Cat r1 r2) (c :: w)).
    { intros w Hw. inversion Hw; subst.
      change (c :: u0 ++ v) with ((c :: u0) ++ v). constructor; auto. }
    destruct (nullable r1) eqn:N1; [|now apply L].
    inversion H; subst; [now apply L|].
    change (c :: u) with ([] ++ c :: u). constructor; auto.
    now apply nullable_Matches.
  - inversion H; subst; [apply MAltL | apply MAltR]; auto.
  - inversion H; subst.
    change (c :: u0 ++ v) with ((c :: u0) ++ v). constructor; auto.
Qed.

Lemma deriv_complete (c : N) (r : regex) (w : jsstring) :
  Matches r w -> forall u, w = c :: u -> Matches (deriv c r) u.
Proof.
  induction 1 as [|p d Hp|r1 r2 u0 v H1 IH1 H2 IH2|r1 r2 u0 H1 IH1|r1 r2 u0 H1 IH1
                 |r1|r1 u0 v H1 IH1 H2 IH2]; intros u E; simpl.
  - discriminate.
  - injection E as -> <-. rewrite Hp. constructor.
  - destruct u0 as [|d u0]; simpl in E.
    + apply nullable_Matches in H1. rewrite H1. apply MAltR. now apply IH2.
    + injection E as -> <-.
      assert (L : Matches (Cat (deriv c r1) r2) (u0 ++ v))
        by (constructor; auto).
      destruct (nullable r1); [now apply MAltL | exact L].
  - apply MAltL. now apply IH1.
  - apply MAltR. now apply IH1.
  - discriminate.
  - destruct u0 as [|d u0]; simpl in E.
    + now apply IH2.
    + injection E as -> <-. constructor; auto.
Qed.

Lemma matches_prefix_spec (s : jsstring) :
  forall r, matches_prefix r s = true <-> exists u v, s = u ++ v /\ Matches r u.
Proof.
  induction s as [|c s IH]; intros r; simpl.
  - rewrite orb_false_r, nullable_Matches. split.
    + intros H. now exists [], [].
    + intros (u & v & E & H). symmetry in E. apply app_eq_nil in E as [-> _]. exact H.
  - rewrite orb_true_iff, nullable_Matches, IH. split.
    + intros [H|(u & v & -> & H)].
      * now exists [], (c :: s).
      * exists (c :: u), v. split; [reflexivity|]. now apply deriv_sound.
    + intros ([|d u] & v & E & H); [now left|].
      simpl in E. injection E as <- ->. right. exists u, v. split; [reflexivity|].
      now apply (deriv_complete H).
Qed.

Lemma test_unfold (r : regex) (s : jsstring) :
  test r s = matches_prefix r s || match s with [] => false | _ :: s' => test r s' end.
Proof. destruct s; reflexivity. Qed.

Lemma test_spec (r : regex) (s : jsstring) :
  test r s = true <-> exists pre u post, s = pre ++ u ++ post /\ Matches r u.
Proof.
  induction s as [|c s IH]; rewrite test_unfold.
  - rewrite orb_false_r, matches_prefix_spec. split.
    + intros (u & v & E & H). now exists [], u, v.
    + intros (pre & u & post & E & H). exists u, post.
      symmetry in E. apply app_eq_nil in E as [-> E]. now split.
  - rewrite orb_true_iff, matches_prefix_spec, IH. split.
    + intros [(u & v & E & H)|(pre & u & post & -> & H)].
      * now exists [], u, v.
      * now exists (c :: pre), u, post.
    + intros ([|d pre] & u & post & E & H).
      * left. now exists u, post.
      * simpl in E. injection E as <- ->. right. now exists pre, u, post.
Qed.

Lemma Matches_Star_Class (p : N -> bool) (u : jsstring) :
  Matches (Star (Class p)) u <-> forallb p u = true.
Proof.
  split.
  - intros H. remember (Star (Class p)) as r eqn:E.
    induction H; try discriminate; [reflexivity|].
    injection E as ->. inversion H; subst. simpl.
    match goal with Hp : p _ = true |- _ => rewrite Hp end.
    now apply IHMatches2.
  - induction u as [|c u IH]; simpl; intros H; [constructor|].
    apply andb_true_iff in H as [Hc Hu].
    change (c :: u) with ([c] ++ u). constructor; [now constructor | auto].
Qed.

Lemma Matches_Plus_Class (p : N -> bool) (u : jsstring) :
  Matches (Plus (Class p)) u <-> u <> [] /\ forallb p u = true.
Proof.
  unfold Plus. split.
  - intros H. inversion H as [| |r1 r2 a b Ha Hb| | | |]; subst.
    inversion Ha as [|q c Hc| | | | |]; subst.
    apply Matches_Star_Class in Hb. simpl. rewrite Hc, Hb.
    split; [discriminate | reflexivity].
  - intros [Hn H]. destruct u as [|c u]; [congruence|]. simpl in H.
    apply andb_true_iff in H as [Hc Hu].
    change (c :: u) with ([c] ++ u). constructor; [now constructor|].
    now apply Matches_Star_Class.
Qed.

End StringFacts.

(* ================================================================== *)
(** * Facts about the token shape *)
(* ================================================================== *)

Section ShapeFacts.
Import JS JwsCompact Shape.

Lemma Matches_Cat_iff (r1 r2 : regex) (w : jsstring) :
  Matches (Cat r1 r2) w <-> exists u v, w = u ++ v /\ Matches r1 u /\ Matches r2 v.
Proof.
  split.
  - intros H. inversion H as [| |a b u v Hu Hv| | | |]; subst. now exists u, v.
  - intros (u & v & -> & Hu & Hv). now constructor.
Qed.

Lemma Matches_Class_iff (p : N -> bool) (w : jsstring) :
  Matches (Class p) w <-> exists c, w = [c] /\ p c = true.
Proof.
  split.
  - intros H. inversion H as [|q c Hc| | | | |]; subst. now exists c.
  - intros (c & -> & Hc). now constructor.
Qed.

(** The regular expression denotes the [x.y.z] shape. *)
Lemma jws_shape_Segmentable (u : jsstring) :
  Matches jws_shape u <-> Segmentable u.
Proof.
  unfold jws_shape, Segmentable, Base64url. split.
  - intros H.
    apply Matches_Cat_iff in H as (x & w1 & -> & Hx & H).
    apply Matches_Cat_iff in H as (d1 & w2 & -> & Hd1 & H).
    apply Matches_Cat_iff in H as (y & w3 & -> & Hy & H).
    apply Matches_Cat_iff in H as (d2 & z & -> & Hd2 & Hz).
    apply Matches_Class_iff in Hd1 as (c1 & -> & E1).
    apply Matches_Class_iff in Hd2 as (c2 & -> & E2).
    apply N.eqb_eq in E1, E2. subst c1 c2.
    apply Matches_Plus_Class in Hx, Hy, Hz.
    exists x, y, z. repeat split; tauto.
  - intros (x & y & z & -> & Hx & Hy & Hz).
    apply Matches_Plus_Class in Hx, Hy, Hz.
    constructor; [assumption|].
    constructor; [constructor; apply N.eqb_refl|].
    constructor; [assumption|].
    constructor; [constructor; apply N.eqb_refl | assumption].
Qed.

(** What the shape check of [validate] decides. *)
Lemma shape_test_spec (s : jsstring) :
  test jws_shape s = true <-> ContainsShape s.
Proof.
  rewrite test_spec. unfold ContainsShape.
  split; intros (pre & u & post & E & H); exists pre, u, post;
    (split; [exact E | now apply jws_shape_Segmentable]).
Qed.

Lemma base64url_char_range (c : N) :
  base64url_char c = true -> (45 <= c <= 122 /\ c <> 46)%N.
Proof.
  unfold base64url_char.
  rewrite !orb_true_iff, !andb_true_iff, !N.leb_le, !N.eqb_eq. lia.
Qed.

Lemma base64url_not_dot (c : N) :
  base64url_char c = true -> negb (c =? dot)%N = true.
Proof.
  intros H. apply base64url_char_range in H.
  apply negb_true_iff, N.eqb_neq. unfold dot. lia.
Qed.

Lemma base64url_not_space (c : N) :
  base64url_char c = true -> isWhiteSpace c = false.
Proof.
  intros H. apply base64url_char_range in H.
  apply not_true_iff_false. unfold isWhiteSpace.
  rewrite !orb_true_iff, !andb_true_iff, !N.leb_le, !N.eqb_eq. lia.
Qed.

Lemma Base64url_dot_free (x : jsstring) :
  Base64url x -> forallb (fun c => negb (c =? dot)%N) x = true.
Proof.
  intros [_ H]. apply forallb_forall. intros c Hc.
  apply base64url_not_dot. now apply (proj1 (forallb_forall _ _) H).
Qed.

(** A string of the [x.y.z] shape splits into exactly its three parts. *)
Lemma Segmentable_split (x y z : jsstring) :
  Base64url x -> Base64url y -> Base64url z ->
  split dot (x ++ [dot] ++ y ++ [dot] ++ z) = [x; y; z].
Proof.
  intros Hx Hy Hz. simpl.
  rewrite split_app_sep by now apply Base64url_dot_free.
  rewrite split_app_sep by now apply Base64url_dot_free.
  rewrite split_free by now apply Base64url_dot_free.
  reflexivity.
Qed.

Lemma Segmentable_xyz_shape (s : jsstring) :
  Segmentable s -> xyz_shape s = true.
Proof.
  intros (x & y & z & -> & Hx & Hy & Hz). unfold xyz_shape.
  rewrite Segmentable_split by assumption.
  assert (P : forall p, Base64url p ->
                        negb (eqb p []) && forallb base64url_char p = true).
  { intros p [Hn Hp]. rewrite Hp, andb_true_r.
    apply negb_true_iff, eqb_neq. exact Hn. }
  now rewrite !P.
Qed.

(** A string of the [x.y.z] shape has no white space to trim. *)
Lemma Segmentable_trim (s : jsstring) : Segmentable s -> trim s = s.
Proof.
  intros (x & y & z & -> & [Hxn Hx] & _ & [Hzn Hz]).
  apply trim_fixed.
  - intros c t E. destruct x as [|c0 x]; [congruence|].
    simpl in E. injection E as -> _. simpl in Hx.
    apply andb_true_iff in Hx as [Hc _]. now apply base64url_not_space.
  - intros c t E.
    destruct (exists_last Hzn) as (z' & cl & ->).
    rewrite (app_assoc x), (app_assoc (x ++ [dot])), (app_assoc _ [dot]), app_assoc in E.
    apply app_inj_tail in E as [_ ->].
    rewrite forallb_app in Hz. apply andb_true_iff in Hz as [_ Hc].
    simpl in Hc. rewrite andb_true_r in Hc. now apply base64url_not_space.
Qed.

Lemma Segmentable_ContainsShape (s : jsstring) : Segmentable s -> ContainsShape s.
Proof.
  intros H. exists [], s, []. now rewrite app_nil_r.
Qed.

(** A string that passes the shape check has at least three parts. *)
Lemma ContainsShape_parts (s : jsstring) :
  ContainsShape s ->
  exists header rawPayload key more, split dot s = header :: rawPayload :: key :: more.
Proof.
  intros (pre & u & post & -> & x & y & z & -> & _).
  pose proof (split_length dot (pre ++ (x ++ [dot] ++ y ++ [dot] ++ z) ++ post)) as L.
  rewrite !count_occ_app in L. simpl in L.
  destruct (N.eq_dec dot dot) as [_|N]; [|congruence].
  destruct (split dot _) as [|h [|p [|k more]]]; simpl in L; try lia.
  now exists h, p, k, more.
Qed.

End ShapeFacts.

(* ================================================================== *)
(** * Running the Compact Token Validator *)
(* ================================================================== *)

Section MonadRun.
Import JS Logger Eff JwsCompact.

Lemma run_assoc {St A B C} (m : M St A) (f : A -> M St B) (g : B -> M St C) st :
  bind (bind m f) g st = bind m (fun x => bind (f x) g) st.
Proof. unfold bind. destruct (m st) as [[a|e] s']; reflexivity. Qed.

Lemma run_ret {St A B} (a : A) (k : A -> M St B) st : bind (ret a) k st = k a st.
Proof. reflexivity. Qed.

Lemma run_throw {St A B} (e : Exn) (k : A -> M St B) (st : St) :
  bind (throw e) k st = (Rejected e, st).
Proof. reflexivity. Qed.

Lemma run_logging {B} f (k : unit -> M State B) st :
  bind (logging f) k st = k tt (mkState (f (st_log st)) (st_store st) (st_calls st)).
Proof. reflexivity. Qed.

Lemma run_called {B} c (k : unit -> M State B) st :
  bind (called c) k st = k tt (mkState (st_log st) (st_store st) (st_calls st ++ [c])).
Proof. reflexivity. Qed.

Lemma run_when {B} b f (k : unit -> M State B) st :
  bind (when b (logging f)) k st
  = k tt (mkState ((if b then f else fun l => l) (st_log st)) (st_store st) (st_calls st)).
Proof. destruct b, st; reflexivity. Qed.

Lemma run_current_log {B} (k : Log -> M State B) st :
  bind current_log k st = k (st_log st) st.
Proof. reflexivity. Qed.

Lemma run_get {St B} (k : St -> M St B) st : bind get k st = k st st.
Proof. reflexivity. Qed.

(** A step that resolves hands its value and state to what follows. *)
Lemma run_resolved {St A B} (m : M St A) (k : A -> M St B) st a st' :
  m st = (Resolved a, st') -> bind m k st = k a st'.
Proof. intros H. unfold bind. now rewrite H. Qed.

(** ** Logs *)

Lemma items_push i l : items (push i l) = items l ++ [i].
Proof. now destruct l. Qed.

Lemma child_push i l : child (push i l) = child l.
Proof. now destruct l. Qed.

Lemma items_set_child c l : items (set_child c l) = items l.
Proof. now destruct l. Qed.

Lemma child_set_child c l : child (set_child c l) = Some c.
Proof. now destruct l. Qed.

Lemma items_pushes its l :
  items (fold_left (fun l i => push i l) its l) = items l ++ its.
Proof.
  revert l; induction its as [|i its IH]; intros l; simpl.
  - now rewrite app_nil_r.
  - rewrite IH, items_push, <- app_assoc. reflexivity.
Qed.


Lemma run_rejected {St A B} (m : M St A) (k : A -> M St B) st e st' :
  m st = (Rejected e, st') -> bind m k st = (Rejected e, st').
Proof. intros H. unfold bind. now rewrite H. Qed.

Lemma run_bind_eq {St A B} (m m' : M St A) (k : A -> M St B) st st' :
  m st = m' st' -> bind m k st = bind m' k st'.
Proof. intros H. unfold bind. now rewrite H. Qed.

Lemma img_logging {B} f (k : unit -> M Image.State B) st :
  bind (Image.logging f) k st
  = k tt (Image.mkState (f (Image.st_log st)) (Image.st_written st)).
Proof. reflexivity. Qed.

Lemma img_current_log {B} (k : Log -> M Image.State B) st :
  bind Image.current_log k st = k (Image.st_log st) st.
Proof. reflexivity. Qed.

End MonadRun.

Ltac run_step :=
  first [ rewrite run_assoc | rewrite run_ret | rewrite run_throw
        | rewrite run_when | rewrite run_logging | rewrite run_called
        | rewrite run_current_log | rewrite run_get ];
  cbv beta; cbn [JwsCompact.st_log JwsCompact.st_store JwsCompact.st_calls].

Ltac img_step :=
  first [ rewrite run_assoc | rewrite run_ret | rewrite run_throw
        | rewrite img_logging | rewrite img_current_log | rewrite run_get ];
  cbv beta; cbn [Image.st_log Image.st_written].

Ltac unfold_logging :=
  unfold JwsCompact.log_warn, JwsCompact.log_error, JwsCompact.log_info,
         JwsCompact.log_debug, JwsCompact.log_fatal, JwsCompact.logged.

Section JwsRun.
Import JS Logger Eff JwsCompact Shape Stages.
Variable env : Env.

Lemma items_measured jws l :
  exists its, items (measured jws l) = items l ++ its
              /\ Forall (fun i => i = length_warning) its.
Proof.
  unfold measured. destruct (_ <? _)%N.
  - exists [length_warning]. rewrite items_push. split; [reflexivity|]. now constructor.
  - exists []. now rewrite app_nil_r.
Qed.

Lemma child_measured jws l : child (measured jws l) = child l.
Proof. unfold measured. destruct (_ <? _)%N; [apply child_push | reflexivity]. Qed.

(** ** The stages of [validate] *)

(** The trimming step. *)
Lemma validate_run store s :
  validate env store s = validate_trimmed env (trim s) (entered store s).
Proof.
  unfold validate, validate_body, entered, log_warn.
  destruct (negb (eqb (trim s) s)) eqn:E.
  - now repeat run_step.
  - run_step. apply negb_false_iff, eqb_eq in E. now rewrite E.
Qed.

(** The shape check fails. *)
Lemma validate_trimmed_no_shape jws st :
  test jws_shape jws = false ->
  validate_trimmed env jws st
  = (Resolved (mkResult None (push shape_fatal (measured jws (st_log st)))),
     mkState (push shape_fatal (measured jws (st_log st))) (st_store st) (st_calls st)).
Proof.
  intros H. unfold validate_trimmed. unfold_logging. rewrite H. cbn [negb].
  repeat run_step. reflexivity.
Qed.

(** The shape check passes: the run reaches the Payload Validator. *)
Lemma validate_trimmed_shape jws st :
  test jws_shape jws = true ->
  exists header rawPayload key more,
    split dot jws = header :: rawPayload :: key :: more /\
    validate_trimmed env jws st
    = match result (jwsPayload_validate env (payload_text env rawPayload)) with
      | None =>
          (Resolved (mkResult None (st_log (parsed env jws header rawPayload key st))),
           parsed env jws header rawPayload key st)
      | Some payload =>
          check_issuer env payload jws (parsed env jws header rawPayload key st)
      end.
Proof.
  intros H.
  destruct (ContainsShape_parts (proj1 (shape_test_spec jws) H))
    as (header & rawPayload & key & more & E).
  exists header, rawPayload, key, more. split; [exact E|].
  unfold validate_trimmed, parsed, payload_text, inflation_entry. unfold_logging.
  rewrite H, E. cbn [negb].
  repeat run_step.
  destruct (inflateRaw env (Buffer_from_base64 env rawPayload)) as [[|c t]|err];
    repeat run_step; rewrite <- !app_assoc; cbn [app];
    destruct (result (jwsPayload_validate env _)); repeat run_step; reflexivity.
Qed.

(** A payload without [iss]: the access to [payload.iss.slice] throws. *)
Lemma check_issuer_missing payload jws st :
  iss payload = None ->
  check_issuer env payload jws st
  = (Rejected (TypeError (lit "Cannot read property 'slice' of undefined")),
     mkState (push missing_iss_error (st_log st)) (st_store st) (st_calls st)).
Proof.
  intros H. unfold check_issuer. unfold_logging. rewrite H.
  repeat run_step. reflexivity.
Qed.

(** [downloadKey] when the request fails: the key store stays as it is. *)
Lemma downloadKey_unreachable issuer st :
  got_json env (jwks_url issuer) = None ->
  downloadKey env issuer st
  = (Resolved None,
     mkState (push download_error (push (retrieving_info issuer) (st_log st)))
             (st_store st) (st_calls st ++ [CallGot (jwks_url issuer)])).
Proof.
  intros H. unfold downloadKey. unfold_logging. fold (jwks_url issuer).
  repeat run_step. unfold try_catch. rewrite H. unfold throw.
  repeat run_step. reflexivity.
Qed.

(** [downloadKey] when the key set arrives: the Key Set Validator runs on
    it, and its rejection is caught like a failed download. *)
Lemma downloadKey_downloaded issuer st keySet r entries store' :
  got_json env (jwks_url issuer) = Some keySet ->
  verifyHealthCardIssuerKey env keySet issuer (st_store st) = (r, entries, store') ->
  downloadKey env issuer st
  = (Resolved (match r with Resolved ks => ks | Rejected _ => None end),
     mkState
       (let l := fold_left (fun l i => push i l) entries
                   (Log_debug (lit "Downloaded issuer key(s) : ")
                      (push (retrieving_info issuer) (st_log st))) in
        match r with Resolved _ => l | Rejected _ => push download_error l end)
       store'
       (st_calls st ++ [CallGot (jwks_url issuer); CallVerifyIssuerKey keySet issuer])).
Proof.
  intros Hg Hv. unfold downloadKey. unfold_logging. fold (jwks_url issuer).
  repeat run_step. unfold try_catch. rewrite Hg.
  repeat run_step. rewrite Hv. unfold modify.
  destruct r as [ks|e]; cbv [bind ret throw logging modify];
    cbn [st_log st_store st_calls]; rewrite <- app_assoc; reflexivity.
Qed.

Lemma verifyJws_verified jws st :
  verifier_verify env (st_store st) jws = Verified ->
  verifyJws env jws st
  = (Resolved true,
     mkState (st_log st) (st_store st) (st_calls st ++ [CallVerify (st_store st) jws])).
Proof.
  intros H. unfold verifyJws. repeat run_step. rewrite H. reflexivity.
Qed.

Lemma verifyJws_failed jws st m :
  verifier_verify env (st_store st) jws = VerifyFailed m ->
  verifyJws env jws st
  = (Resolved false,
     mkState (push (verification_error m) (st_log st)) (st_store st)
             (st_calls st ++ [CallVerify (st_store st) jws])).
Proof.
  intros H. unfold verifyJws. unfold_logging. repeat run_step.
  rewrite H. repeat run_step. reflexivity.
Qed.

(** ** How the log and the calls grow *)

Lemma lg_refl l : log_grows env l l.
Proof. exists []. now rewrite app_nil_r. Qed.

Lemma lg_push l l' i :
  later_entry env i -> log_grows env l l' -> log_grows env l (push i l').
Proof.
  intros Hi (its & E & F). exists (its ++ [i]).
  rewrite items_push, E, app_assoc. split; [reflexivity|].
  apply Forall_app. split; [exact F | now constructor].
Qed.

Lemma lg_pushes l l' its :
  Forall (later_entry env) its -> log_grows env l l' ->
  log_grows env l (fold_left (fun l i => push i l) its l').
Proof.
  intros Hi (its0 & E & F). exists (its0 ++ its).
  rewrite items_pushes, E, app_assoc. split; [reflexivity|].
  apply Forall_app. now split.
Qed.

Lemma lg_set_child l l' c : log_grows env l l' -> log_grows env l (set_child c l').
Proof. intros (its & E & F). exists its. now rewrite items_set_child. Qed.

Lemma lg_if l (b : bool) l1 l2 :
  log_grows env l l1 -> log_grows env l l2 -> log_grows env l (if b then l1 else l2).
Proof. now destruct b. Qed.

Lemma lg_when l l' (b : bool) i :
  later_entry env i -> log_grows env l l' ->
  log_grows env l ((if b then push i else fun l => l) l').
Proof. intros Hi G. destruct b; [now apply lg_push | exact G]. Qed.

Lemma app_three {A} (a : list A) x y z : ((a ++ [x]) ++ [y]) ++ [z] = a ++ [x; y; z].
Proof. now rewrite <- !app_assoc. Qed.

Lemma lg_trans l1 l2 l3 :
  log_grows env l1 l2 -> log_grows env l2 l3 -> log_grows env l1 l3.
Proof.
  intros (a & Ea & Fa) (b & Eb & Fb). exists (a ++ b).
  rewrite Eb, Ea, app_assoc. split; [reflexivity|].
  apply Forall_app. now split.
Qed.

Lemma cg_trans st1 st2 st3 :
  calls_grow st1 st2 -> calls_grow st2 st3 -> calls_grow st1 st3.
Proof.
  intros (a & Ea & Fa) (b & Eb & Fb). exists (a ++ b).
  rewrite Eb, Ea, app_assoc. split; [reflexivity|].
  apply Forall_app. now split.
Qed.

Lemma own_entry lv m c : c <> Some TRAILING_CHARACTERS -> later_entry env (mkItem lv m c).
Proof. intros H. left. exact H. Qed.


Ltac grows :=
  unfold Log_debug, Log_info, Log_warn, Log_error, Log_fatal, retrieving_info,
         download_error, verification_error, missing_iss_error, shape_fatal,
         length_warning, inflation_error, measured;
  repeat first
    [ apply lg_refl
    | apply lg_if
    | apply lg_set_child
    | apply lg_push; [apply own_entry; discriminate|]
    | apply lg_when; [apply own_entry; discriminate|] ].

(** [downloadKey] never rejects: its [catch] handles every failure. *)
Lemma downloadKey_effect issuer st :
  exists r st',
    downloadKey env issuer st = (Resolved r, st')
    /\ log_grows env (st_log st) (st_log st')
    /\ calls_grow st st'.
Proof.
  destruct (got_json env (jwks_url issuer)) as [keySet|] eqn:Hg.
  - destruct (verifyHealthCardIssuerKey env keySet issuer (st_store st))
      as [[r entries] store'] eqn:Hv.
    rewrite (downloadKey_downloaded _ _ Hg Hv).
    do 2 eexists. split; [reflexivity|]. cbn [st_log st_calls]. split.
    + assert (G : log_grows env (st_log st)
                    (fold_left (fun l i => push i l) entries
                       (Log_debug (lit "Downloaded issuer key(s) : ")
                          (push (retrieving_info issuer) (st_log st))))).
      { apply lg_pushes; [|grows].
        apply Forall_forall. intros i Hi. right. right.
        exists keySet, issuer, (st_store st). now rewrite Hv. }
      destruct r; [exact G|]. apply lg_push; [|exact G].
      apply own_entry. discriminate.
    + eexists. split; [reflexivity|]. repeat constructor.
  - rewrite (downloadKey_unreachable _ _ Hg).
    do 2 eexists. split; [reflexivity|]. cbn [st_log st_calls]. split.
    + grows.
    + eexists. split; [reflexivity|]. repeat constructor.
Qed.

Lemma verifyJws_effect jws st :
  exists ok st',
    verifyJws env jws st = (Resolved ok, st')
    /\ log_grows env (st_log st) (st_log st')
    /\ calls_grow st st'.
Proof.
  destruct (verifier_verify env (st_store st) jws) as [|m] eqn:H.
  - rewrite (verifyJws_verified _ _ H).
    do 2 eexists. split; [reflexivity|]. cbn [st_log st_calls]. split; [grows|].
    eexists. split; [reflexivity|]. repeat constructor.
  - rewrite (verifyJws_failed _ _ H).
    do 2 eexists. split; [reflexivity|]. cbn [st_log st_calls]. split; [grows|].
    eexists. split; [reflexivity|]. repeat constructor.
Qed.

(** A payload with [iss]: the run ends with the token as its result. *)
Lemma check_issuer_effect payload jws st issuer :
  iss payload = Some issuer ->
  exists st',
    check_issuer env payload jws st = (Resolved (mkResult (Some jws) (st_log st')), st')
    /\ log_grows env (st_log st) (st_log st')
    /\ calls_grow st st'.
Proof.
  intros H. unfold check_issuer. unfold_logging. rewrite H.
  repeat run_step.
  match goal with |- context [bind (downloadKey env issuer) _ ?s] =>
    destruct (downloadKey_effect issuer s) as (r & st1 & E1 & G1 & C1)
  end.
  erewrite run_resolved by exact E1.
  destruct (verifyJws_effect jws st1) as (ok & st2 & E2 & G2 & C2).
  erewrite run_resolved by exact E2.
  repeat run_step. eexists (mkState _ _ _). split; [reflexivity|].
  cbn [st_log st_calls] in *. split.
  - apply lg_when; [apply own_entry; discriminate|].
    eapply lg_trans; [|exact G2]. eapply lg_trans; [|exact G1]. grows.
  - eapply cg_trans; [|exact C2]. exact C1.
Qed.

(** The last stage adds calls of its own kinds only. *)
Lemma check_issuer_calls payload jws st :
  calls_grow st (snd (check_issuer env payload jws st)).
Proof.
  destruct (iss payload) as [issuer|] eqn:H.
  - destruct (check_issuer_effect payload jws st H) as (st' & E & _ & C).
    now rewrite E.
  - rewrite check_issuer_missing by assumption.
    exists []. cbn. now rewrite app_nil_r.
Qed.

(** The two ways a run can go at the shape check. *)
Lemma validate_cases store s :
  (test jws_shape (trim s) = false /\
   validate env store s
   = (Resolved (mkResult None
        (push shape_fatal (measured (trim s) (st_log (entered store s))))),
      mkState (push shape_fatal (measured (trim s) (st_log (entered store s))))
              store []))
  \/
  (test jws_shape (trim s) = true /\
   exists header rawPayload key more,
     split dot (trim s) = header :: rawPayload :: key :: more /\
     validate env store s
     = match result (jwsPayload_validate env (payload_text env rawPayload)) with
       | None =>
           (Resolved (mkResult None
              (st_log (parsed env (trim s) header rawPayload key (entered store s)))),
            parsed env (trim s) header rawPayload key (entered store s))
       | Some payload =>
           check_issuer env payload (trim s)
             (parsed env (trim s) header rawPayload key (entered store s))
       end).
Proof.
  rewrite validate_run.
  destruct (test jws_shape (trim s)) eqn:H; [right | left]; split; try reflexivity.
  - apply validate_trimmed_shape. exact H.
  - now rewrite validate_trimmed_no_shape.
Qed.

(** The Payload Validator is called at most once, on the text the
    inflation step hands on. *)
Lemma payload_call_inv store s text :
  In (CallPayloadValidate text) (st_calls (snd (validate env store s))) ->
  test jws_shape (trim s) = true /\
  exists header rawPayload key more,
    split dot (trim s) = header :: rawPayload :: key :: more /\
    text = payload_text env rawPayload /\
    validate env store s
    = match result (jwsPayload_validate env text) with
      | None =>
          (Resolved (mkResult None
             (st_log (parsed env (trim s) header rawPayload key (entered store s)))),
           parsed env (trim s) header rawPayload key (entered store s))
      | Some payload =>
          check_issuer env payload (trim s)
            (parsed env (trim s) header rawPayload key (entered store s))
      end.
Proof.
  intros Hin.
  destruct (validate_cases store s)
    as [[_ E]|[Hs (header & raw & key & more & Hsplit & E)]].
  - rewrite E in Hin. cbn in Hin. contradiction.
  - split; [exact Hs|]. exists header, raw, key, more. split; [exact Hsplit|].
    assert (T : text = payload_text env raw).
    { rewrite E in Hin.
      destruct (result (jwsPayload_validate env (payload_text env raw))) as [payload|].
      - destruct (@check_issuer_calls payload (trim s)
                    (parsed env (trim s) header raw key (entered store s)))
          as (extra & Ec & Hextra).
        rewrite Ec in Hin. apply in_app_or in Hin as [Hin|Hin].
        + cbn in Hin. intuition congruence.
        + rewrite Forall_forall in Hextra. destruct (Hextra _ Hin).
      - cbn in Hin. intuition congruence. }
    split; [exact T|]. rewrite T. exact E.
Qed.

Lemma payload_call_made store s header rawPayload key more :
  test jws_shape (trim s) = true ->
  split dot (trim s) = header :: rawPayload :: key :: more ->
  exists rest,
    st_calls (snd (validate env store s))
    = [CallValidateSchema (trim s);
       CallInflateRaw (Buffer_from_base64 env rawPayload);
       CallPayloadValidate (payload_text env rawPayload)] ++ rest
    /\ Forall issuer_call rest.
Proof.
  intros Hs Hsplit.
  destruct (validate_cases store s) as [[Hn _]|[_ (h & r & k & m & Hsplit' & E)]];
    [congruence|].
  rewrite Hsplit in Hsplit'. injection Hsplit' as <- <- <- <-.
  rewrite E.
  destruct (result (jwsPayload_validate env (payload_text env rawPayload))) as [payload|].
  - destruct (check_issuer_calls payload (trim s)
                (parsed env (trim s) header rawPayload key (entered store s)))
      as (rest & Ec & F).
    exists rest. now rewrite Ec.
  - exists []. now split.
Qed.

(** The result of a run is determined by the trimmed token. *)
Lemma validate_result_of store s :
  result_of (fst (validate env store s)) = expected_result env (trim s).
Proof.
  unfold expected_result.
  destruct (validate_cases store s) as [[Hn E]|[Hs (h & r & k & m & Hsplit & E)]].
  - now rewrite E, Hn.
  - rewrite E, Hs, Hsplit.
    destruct (result (jwsPayload_validate env (payload_text env r))) as [payload|];
      [|reflexivity].
    destruct (iss payload) as [issuer|] eqn:Hi.
    + destruct (check_issuer_effect payload (trim s)
                  (parsed env (trim s) h r k (entered store s)) Hi) as (st' & E' & _).
      now rewrite E'.
    + now rewrite check_issuer_missing.
Qed.

(** Everything logged after the trimming step is a later entry. *)
Lemma validate_grows store s :
  log_grows env (st_log (entered store s)) (st_log (snd (validate env store s))).
Proof.
  destruct (validate_cases store s) as [[Hn E]|[Hs (h & r & k & m & Hsplit & E)]];
    rewrite E.
  - cbn [snd st_log]. grows.
  - assert (G : log_grows env (st_log (entered store s))
                  (st_log (parsed env (trim s) h r k (entered store s)))).
    { unfold parsed. cbn [st_log]. apply lg_set_child. apply lg_push.
      - unfold inflation_entry.
        destruct (inflateRaw env _); apply own_entry; discriminate.
      - grows. apply lg_pushes; [|grows].
        apply Forall_forall. intros i Hi. right. left. now exists (trim s). }
    destruct (result (jwsPayload_validate env (payload_text env r))) as [payload|];
      [|exact G].
    destruct (iss payload) as [issuer|] eqn:Hi.
    + destruct (check_issuer_effect payload (trim s)
                  (parsed env (trim s) h r k (entered store s)) Hi) as (st' & E' & G' & _).
      rewrite E'. cbn [snd]. eapply lg_trans; [exact G | exact G'].
    + rewrite check_issuer_missing by assumption. cbn [snd st_log].
      apply lg_push; [apply own_entry; discriminate | exact G].
Qed.

End JwsRun.

(* ================================================================== *)
(** * Properties of the Compact Token Validator *)
(* ================================================================== *)

Section CompactTokenProperties.
Import JS Logger Eff JwsCompact Shape Stages.
Variable env : Env.

(** C1 (the code departs from the specification).  Specified: on a payload
    that parses but has no [iss], [validate] logs a schema error and then
    goes on to the scheme check, the key download and the signature
    verification without raising.  What the code does: it logs the schema
    error, and the next statement, [payload.iss.slice(0,8)], throws a
    [TypeError]; the promise is rejected and neither the download nor the
    verification is attempted. *)
Theorem missing_iss_rejects store s text payload :
  In (CallPayloadValidate text) (st_calls (snd (validate env store s))) ->
  result (jwsPayload_validate env text) = Some payload ->
  iss payload = None ->
  exists its,
    fst (validate env store s)
    = Rejected (TypeError (lit "Cannot read property 'slice' of undefined"))
    /\ items (st_log (snd (validate env store s))) = its ++ [missing_iss_error]
    /\ Forall (fun c => ~ issuer_call c) (st_calls (snd (validate env store s))).
Proof.
  intros Hin Hres Hiss.
  destruct (payload_call_inv env store s text Hin)
    as (_ & h & r & k & m & _ & -> & E).
  rewrite Hres in E. rewrite check_issuer_missing in E by exact Hiss.
  rewrite E. cbn [fst snd st_log st_calls].
  eexists. split; [reflexivity|]. split; [apply items_push|].
  unfold entered. cbn [st_calls app].
  repeat constructor; intros H; exact H.
Qed.

(** C2 (amended).  [validate] returns an undefined result when the shape
    check fails or when the Payload Validator gave no payload, and only
    then; when the payload has an [iss] it returns the token with its
    surrounding white space removed, not re-encoded. *)
Theorem validate_result store s :
  (~ ContainsShape (trim s) ->
   exists l, fst (validate env store s) = Resolved (mkResult None l))
  /\ (ContainsShape (trim s) ->
      exists text, In (CallPayloadValidate text) (st_calls (snd (validate env store s))))
  /\ (forall text,
        In (CallPayloadValidate text) (st_calls (snd (validate env store s))) ->
        match result (jwsPayload_validate env text) with
        | None => exists l, fst (validate env store s) = Resolved (mkResult None l)
        | Some payload =>
            forall issuer, iss payload = Some issuer ->
              exists l, fst (validate env store s) = Resolved (mkResult (Some (trim s)) l)
        end)
  /\ (forall r, fst (validate env store s) = Resolved r ->
        (result r = None <->
         ~ ContainsShape (trim s)
         \/ exists text,
              In (CallPayloadValidate text) (st_calls (snd (validate env store s)))
              /\ result (jwsPayload_validate env text) = None)
        /\ (result r <> None -> result r = Some (trim s))).
Proof.
  assert (P3 : forall text,
             In (CallPayloadValidate text) (st_calls (snd (validate env store s))) ->
             match result (jwsPayload_validate env text) with
             | None => exists l, fst (validate env store s) = Resolved (mkResult None l)
             | Some payload =>
                 forall issuer, iss payload = Some issuer ->
                   exists l, fst (validate env store s)
                             = Resolved (mkResult (Some (trim s)) l)
             end).
  { intros text Hin.
    destruct (payload_call_inv env store s text Hin)
      as (_ & h & r & k & m & _ & -> & E).
    destruct (result (jwsPayload_validate env (payload_text env r))) as [payload|].
    - intros issuer Hi.
      destruct (check_issuer_effect env payload (trim s)
                  (parsed env (trim s) h r k (entered store s)) Hi) as (st' & E' & _).
      rewrite E, E'. eexists. reflexivity.
    - rewrite E. eexists. reflexivity. }
  repeat split.
  - intros Hn. rewrite <- shape_test_spec in Hn. apply not_true_is_false in Hn.
    destruct (validate_cases env store s) as [[_ E]|[Hs _]]; [|congruence].
    rewrite E. eexists. reflexivity.
  - intros Hc. apply shape_test_spec in Hc.
    destruct (ContainsShape_parts (proj1 (shape_test_spec _) Hc)) as (h & r & k & m & Hsplit).
    destruct (payload_call_made env store s Hc Hsplit) as (rest & Ec & _).
    exists (payload_text env r). rewrite Ec. cbn. tauto.
  - exact P3.
  - intros Hr.
    pose proof (validate_result_of env store s) as R. rewrite H in R. cbn in R.
    unfold expected_result in R.
    destruct (test jws_shape (trim s)) eqn:Hs.
    + right.
      destruct (ContainsShape_parts (proj1 (shape_test_spec _) Hs))
        as (h & p & k & m & Hsplit).
      destruct (payload_call_made env store s Hs Hsplit) as (rest & Ec & _).
      exists (payload_text env p). split; [rewrite Ec; cbn; tauto|].
      rewrite Hsplit in R.
      destruct (result (jwsPayload_validate env (payload_text env p))) as [payload|];
        [|reflexivity].
      destruct (iss payload); congruence.
    + left. rewrite <- shape_test_spec. congruence.
  - intros [Hn|(text & Hin & Hnone)].
    + rewrite <- shape_test_spec in Hn. apply not_true_is_false in Hn.
      destruct (validate_cases env store s) as [[_ E]|[Hs _]]; [|congruence].
      rewrite E in H. cbn in H. now injection H as <-.
    + specialize (P3 text Hin). rewrite Hnone in P3. destruct P3 as (l & E).
      rewrite E in H. now injection H as <-.
  - intros Hr.
    pose proof (validate_result_of env store s) as R. rewrite H in R. cbn in R.
    unfold expected_result in R.
    destruct (test jws_shape (trim s)); [|congruence].
    destruct (split dot (trim s)) as [|h [|p [|k m]]]; try discriminate.
    destruct (result (jwsPayload_validate env (payload_text env p))) as [payload|];
      [|congruence].
    destruct (iss payload); congruence.
Qed.

(** C3 (amended).  The shape check looks for the [x.y.z] pattern anywhere
    in the trimmed token: when no substring has that shape, [validate]
    records the fatal entry, returns an undefined result and does nothing
    more; when some substring has it, and so whenever the whole string has
    it, the check passes and processing continues with the schema
    validation. *)
Theorem shape_check_contains store s :
  (~ ContainsShape (trim s) -> stopped_at_shape_check (validate env store s))
  /\ (ContainsShape (trim s) -> passed_shape_check (trim s) (validate env store s))
  /\ (Segmentable s -> ContainsShape (trim s)).
Proof.
  repeat split.
  - intros Hn. rewrite <- shape_test_spec in Hn. apply not_true_is_false in Hn.
    destruct (validate_cases env store s) as [[_ E]|[Hs _]]; [|congruence].
    unfold stopped_at_shape_check. rewrite E. cbn [fst snd st_log st_calls].
    destruct (items_measured (trim s) (st_log (entered store s))) as (its & Ei & _).
    exists (items (st_log (entered store s)) ++ its).
    repeat split.
    + now rewrite items_push, Ei.
    + rewrite child_push, child_measured. unfold entered. cbn [st_log].
      destruct (negb _); [rewrite child_push|]; reflexivity.
  - intros Hc. apply shape_test_spec in Hc.
    destruct (ContainsShape_parts (proj1 (shape_test_spec _) Hc)) as (h & r & k & m & Hsplit).
    destruct (payload_call_made env store s Hc Hsplit) as (rest & Ec & _).
    unfold passed_shape_check. rewrite Ec. eexists. reflexivity.
  - intros H. rewrite (Segmentable_trim H). now apply Segmentable_ContainsShape.
Qed.

(** C4 (amended).  When the payload segment of a token that passes the
    shape check does not inflate, [validate] logs the inflation error at
    error level and goes on: it hands the payload segment as it stands in
    the token, still base64url-encoded, to the Payload Validator. *)
Theorem inflation_failure_continues store s header rawPayload key more err :
  ContainsShape (trim s) ->
  split dot (trim s) = header :: rawPayload :: key :: more ->
  inflateRaw env (Buffer_from_base64 env rawPayload) = inr err ->
  exists before after rest,
    items (st_log (snd (validate env store s))) = before ++ inflation_error err :: after
    /\ level (inflation_error err) = ERROR
    /\ Forall (later_entry env) after
    /\ st_calls (snd (validate env store s))
       = [CallValidateSchema (trim s);
          CallInflateRaw (Buffer_from_base64 env rawPayload);
          CallPayloadValidate rawPayload] ++ rest.
Proof.
  intros Hc Hsplit Hinf. apply shape_test_spec in Hc.
  assert (T : payload_text env rawPayload = rawPayload)
    by (unfold payload_text; now rewrite Hinf).
  destruct (payload_call_made env store s Hc Hsplit) as (rest & Ec & _).
  rewrite T in Ec.
  assert (G : exists before after,
             items (st_log (snd (validate env store s)))
             = before ++ inflation_error err :: after
             /\ Forall (later_entry env) after).
  { destruct (validate_cases env store s) as [[Hn _]|[_ (h & r & k & m & Hsplit' & E)]];
      [congruence|].
    rewrite Hsplit in Hsplit'. injection Hsplit' as <- <- <- <-.
    assert (I : exists before,
               items (st_log (parsed env (trim s) header rawPayload key (entered store s)))
               = before ++ [inflation_error err]).
    { unfold parsed. cbn [st_log]. rewrite items_set_child, items_push.
      unfold inflation_entry. rewrite Hinf. eexists. reflexivity. }
    destruct I as (before & I).
    rewrite T in E. rewrite E.
    destruct (result (jwsPayload_validate env rawPayload)) as [payload|].
    - destruct (iss payload) as [issuer|] eqn:Hi.
      + destruct (check_issuer_effect env payload (trim s)
                    (parsed env (trim s) header rawPayload key (entered store s)) Hi)
          as (st' & E' & (its & Ei & F) & _).
        rewrite E'. cbn [snd]. exists before, its.
        rewrite Ei, I, <- app_assoc. now split.
      + rewrite check_issuer_missing by assumption. cbn [snd st_log].
        exists before, [missing_iss_error].
        rewrite items_push, I, <- app_assoc. split; [reflexivity|].
        constructor; [left; discriminate | constructor].
    - cbn [snd]. exists before, []. now split. }
  destruct G as (before & after & Ei & F).
  exists before, after, rest. repeat split; assumption.
Qed.

(** C5.  On a token that passes the shape check and whose payload parses
    with an [iss], when the issuer's key-set endpoint cannot be fetched or
    parsed and the signature does not verify against the key store as it
    was, [validate] logs the issuer-key-download error and then the
    signature-verification error, leaves the key store as it was, verifies
    against it, and still returns the token as its result; both entries are
    at error level, which is the worst of the two. *)
Theorem unreachable_key_set store s text payload issuer m :
  In (CallPayloadValidate text) (st_calls (snd (validate env store s))) ->
  result (jwsPayload_validate env text) = Some payload ->
  iss payload = Some issuer ->
  got_json env (jwks_url issuer) = None ->
  verifier_verify env store (trim s) = VerifyFailed m ->
  exists l its calls,
    validate env store s
    = (Resolved (mkResult (Some (trim s)) l),
       mkState l store (calls ++ [CallGot (jwks_url issuer); CallVerify store (trim s)]))
    /\ items l = its ++ [retrieving_info issuer; download_error; verification_error m]
    /\ level download_error = ERROR
    /\ level (verification_error m) = ERROR
    /\ worst [download_error; verification_error m] = ERROR.
Proof.
  intros Hin Hres Hiss Hgot Hver.
  destruct (payload_call_inv env store s text Hin)
    as (_ & h & r & k & mo & _ & -> & E).
  rewrite Hres in E. rewrite E. clear E Hin.
  unfold check_issuer. unfold_logging. rewrite Hiss.
  repeat run_step.
  erewrite run_resolved by (apply downloadKey_unreachable; exact Hgot).
  cbn [st_log st_store st_calls].
  erewrite run_resolved
    by (apply verifyJws_failed; cbn [st_store parsed entered]; exact Hver).
  repeat run_step. cbn [st_log st_store st_calls parsed entered].
  eexists. eexists.
  exists [CallValidateSchema (trim s); CallInflateRaw (Buffer_from_base64 env r);
          CallPayloadValidate (payload_text env r)].
  split; [reflexivity|].
  split; [|repeat split].
  rewrite !items_push, app_three. reflexivity.
Qed.

(** C7.  [validate] gives the same result value on a string and on its
    trimmed form, whatever the key store holds, and it logs the
    trailing-characters warning when the string differs from its trimmed
    form; conversely, provided the schema validator and the Key Set
    Validator, which write into the same log, log no trailing-characters
    warning of their own, a trailing-characters warning in the log means
    that the string differs from its trimmed form. *)
Theorem trimming_is_idempotent store store' s :
  result_of (fst (validate env store' (trim s))) = result_of (fst (validate env store s))
  /\ (s <> trim s ->
      existsb (is_entry WARNING TRAILING_CHARACTERS)
              (items (st_log (snd (validate env store s)))) = true)
  /\ ((forall jws i, In i (validateSchema env jws) ->
                     is_entry WARNING TRAILING_CHARACTERS i = false) ->
      (forall keySet url st i,
          In i (snd (fst (verifyHealthCardIssuerKey env keySet url st))) ->
          is_entry WARNING TRAILING_CHARACTERS i = false) ->
      existsb (is_entry WARNING TRAILING_CHARACTERS)
              (items (st_log (snd (validate env store s)))) = true ->
      s <> trim s).
Proof.
  split; [now rewrite !validate_result_of, trim_idempotent|].
  destruct (validate_grows env store s) as (its & E & F).
  rewrite E, existsb_app. unfold entered. cbn [st_log]. split.
  - intros Hne. destruct (eqb (trim s) s) eqn:Et.
    + apply eqb_eq in Et. congruence.
    + reflexivity.
  - intros Hschema Hkeys.
    assert (L : existsb (is_entry WARNING TRAILING_CHARACTERS) its = false).
    { apply not_true_is_false. intros Hex.
      apply existsb_exists in Hex as (i & Hi & Ht).
      rewrite Forall_forall in F.
      destruct (F i Hi) as [Hown|[(jws & Hs)|(ks & url & st & Hk)]].
      - unfold is_entry in Ht. destruct (code i) as [[]|]; try congruence;
          cbn in Ht; rewrite ?andb_false_r in Ht; discriminate.
      - rewrite (Hschema _ _ Hs) in Ht. discriminate.
      - rewrite (Hkeys _ _ _ _ Hk) in Ht. discriminate. }
    rewrite L, orb_false_r.
    destruct (eqb (trim s) s) eqn:Et; cbn; [discriminate|].
    apply eqb_neq in Et. congruence.
Qed.

End CompactTokenProperties.

(* ================================================================== *)
(** * Running the Image QR Decoder *)
(* ================================================================== *)

Section ImageRun.
Import JS Logger Eff Image ImageStages.
Variable env : Env.

Lemma is_raster_not_svg t : is_raster t = true -> eqb t (lit "svg") = false.
Proof.
  unfold is_raster. rewrite !orb_true_iff, !eqb_eq.
  intros [[->| ->]| ->]; reflexivity.
Qed.

(** The QR reader finds nothing: [decode] logs the fatal entry and returns
    [undefined]. *)
Lemma decode_unreadable img st :
  QrUnreadable env img ->
  exists st',
    decode env img st = (Resolved None, st')
    /\ st_log st' = push (decode_error (name img)) (st_log st).
Proof.
  intros [[Hr (png & Hi & Hq)]|[Hs (buf & png & H1 & H2 & H3 & H4)]].
  - unfold decode. rewrite (is_raster_not_svg _ Hr).
    unfold is_raster in Hr. rewrite Hr.
    unfold decodeQrBuffer. rewrite Hi, Hq.
    eexists. split; reflexivity.
  - unfold decode. rewrite Hs. unfold svgToImageBuffer. rewrite H1.
    repeat img_step. rewrite H2. repeat img_step.
    cbv zeta. cbn [path]. rewrite H3.
    unfold modify. repeat img_step.
    unfold decodeQrBuffer. cbn [image name data width height]. rewrite H4.
    eexists. split; reflexivity.
Qed.

(** The conversion fails: [decode] logs the fatal entry and the promise is
    rejected. *)
Lemma decode_conversion_fails img m st :
  SvgConversionFails env img m ->
  decode env img st
  = (Rejected RejectedUndefined,
     mkState (push (conversion_error m) (st_log st)) (st_written st)).
Proof.
  intros [Hs Hc]. unfold decode. rewrite Hs.
  unfold svgToImageBuffer. rewrite Hc. repeat img_step. reflexivity.
Qed.

(** The loop over a prefix of images that all decode. *)
Lemma decode_loop_app pre shcs :
  Forall2 (Decodes env) pre shcs ->
  forall rest acc st,
  exists st', decode_loop env (pre ++ rest) acc st = decode_loop env rest (acc ++ shcs) st'.
Proof.
  induction 1 as [|img shc pre shcs Hd _ IH]; intros rest acc st.
  - exists st. now rewrite app_nil_r.
  - destruct (Hd st) as (st1 & E).
    cbn [app decode_loop]. erewrite run_resolved by exact E.
    cbv iota. repeat img_step.
    match goal with |- context [decode_loop env (pre ++ rest) ?a ?s] =>
      destruct (IH rest a s) as (st' & E')
    end.
    exists st'. rewrite E', <- app_assoc. reflexivity.
Qed.

Lemma unreadable_gives_no_text img : QrUnreadable env img -> gives_no_text env img.
Proof.
  intros H st shc. destruct (decode_unreadable st H) as (st' & E & _).
  rewrite E. discriminate.
Qed.

Lemma conversion_gives_no_text img m :
  SvgConversionFails env img m -> gives_no_text env img.
Proof.
  intros H st shc. rewrite (decode_conversion_fails st H). discriminate.
Qed.

(** One image without text: the loop never completes. *)
Lemma decode_loop_incomplete img images :
  gives_no_text env img -> In img images ->
  forall acc st shcs, fst (decode_loop env images acc st) <> Resolved (Some shcs).
Proof.
  intros Hbad. induction images as [|a images IH]; intros Hin acc st shcs; [destruct Hin|].
  cbn [decode_loop]. unfold bind at 1.
  destruct (decode env a st) as [[[shc|]|e] st1] eqn:E.
  - destruct Hin as [->|Hin].
    + exfalso. apply (Hbad st shc). now rewrite E.
    + cbv iota. repeat img_step. now apply IH.
  - discriminate.
  - discriminate.
Qed.

(** No usable result for a batch with such an image. *)
Lemma validate_incomplete img images :
  gives_no_text env img -> In img images ->
  forall r, fst (validate env images) = Resolved r -> result r = None.
Proof.
  intros Hbad Hin r. unfold validate, validate_body. unfold bind at 1.
  pose proof (@decode_loop_incomplete img images Hbad Hin []) as L.
  match goal with |- context [decode_loop env images [] ?s] =>
    specialize (L s); destruct (decode_loop env images [] s) as [[[shcs|]|e] st1]
  end.
  - exfalso. now apply (L shcs).
  - repeat img_step. intros H. now injection H as <-.
  - discriminate.
Qed.

(** ** The JSON text of a string is longer than the string *)

Lemma quote_unit_length c : (1 <= length (quote_unit c))%nat.
Proof.
  unfold quote_unit.
  repeat match goal with |- context [if ?b then _ else _] => destruct b end;
    cbn; lia.
Qed.

Lemma quote_units_length n :
  forall s, (length s <= n)%nat -> (length s <= length (quote_units s))%nat.
Proof.
  induction n as [|n IH]; intros [|c s] Hn; cbn [length] in *; try lia.
  cbn [quote_units].
  assert (Hs : (length s <= length (quote_units s))%nat) by (apply IH; lia).
  destruct (is_lead c).
  - destruct s as [|d s']; [cbn; lia|].
    destruct (is_trail d).
    + cbn [length] in *. assert (length s' <= length (quote_units s'))%nat
        by (apply IH; lia). lia.
    + rewrite length_app. cbn [length] in *. change (length (unicode_escape c)) with 6%nat.
      lia.
  - destruct (is_trail c); rewrite length_app.
    + change (length (unicode_escape c)) with 6%nat. lia.
    + pose proof (quote_unit_length c). lia.
Qed.

Lemma JSON_stringify_single shc :
  JSON_stringify [shc] = lit "[" ++ QuoteJSONString shc ++ lit "]"
  /\ JSON_stringify [shc] <> shc.
Proof.
  split; [reflexivity|].
  intros E. apply (f_equal (@length N)) in E.
  unfold JSON_stringify, QuoteJSONString in E. cbn [map join] in E.
  rewrite !length_app in E. cbn [length lit map list_ascii_of_string] in E.
  pose proof (quote_units_length (n := length shc) shc (le_n _)). lia.
Qed.

End ImageRun.

(* ================================================================== *)
(** * Properties of the Image QR Decoder *)
(* ================================================================== *)

Section ImageProperties.
Import JS Logger Eff Image ImageStages.
Variable env : Env.

(** C6.  When the QR reader finds no code in an image of a batch, the batch
    has no result: whenever [validate] returns, its result is undefined,
    whatever the other images hold; and when the images before that one
    decode, so that the reader is run on it, [validate] returns the
    undefined result with the fatal QR-decode-error entry as the last entry
    of its log. *)
Theorem undecodable_image_fails_batch images img :
  In img images ->
  QrUnreadable env img ->
  (forall r, fst (validate env images) = Resolved r -> result r = None)
  /\ (forall pre post shcs,
        images = pre ++ img :: post ->
        Forall2 (Decodes env) pre shcs ->
        exists st' its,
          validate env images = (Resolved (mkResult None (st_log st')), st')
          /\ items (st_log st') = its ++ [decode_error (name img)]
          /\ level (decode_error (name img)) = FATAL
          /\ code (decode_error (name img)) = Some QR_DECODE_ERROR).
Proof.
  intros Hin Hq. split.
  - apply validate_incomplete with (img := img); [|exact Hin].
    now apply unreadable_gives_no_text.
  - intros pre post shcs -> Hpre.
    unfold validate, validate_body.
    match goal with |- context [bind _ _ ?s] =>
      destruct (decode_loop_app Hpre (img :: post) [] s) as (st1 & E)
    end.
    rewrite (@run_bind_eq _ _ _ _ _ _ _ _ E). cbn [decode_loop]. rewrite run_assoc.
    destruct (decode_unreadable st1 Hq) as (st2 & E2 & L2).
    erewrite run_resolved by exact E2. cbv iota. repeat img_step.
    exists st2, (items (st_log st1)). split; [reflexivity|].
    rewrite L2, items_push. repeat split.
Qed.

(** C9.  When the conversion of an SVG file of a batch to a raster fails,
    the batch has no usable result: whenever [validate] returns, its result
    is undefined; and when the images before that one decode, so that the
    conversion is run, the decoder logs the conversion error, which wraps
    the message of the underlying error, at fatal level as the last entry,
    and the promise of [validate] is rejected. *)
Theorem svg_conversion_failure_is_fatal images img m :
  In img images ->
  SvgConversionFails env img m ->
  (forall r, fst (validate env images) = Resolved r -> result r = None)
  /\ (forall pre post shcs,
        images = pre ++ img :: post ->
        Forall2 (Decodes env) pre shcs ->
        exists its,
          fst (validate env images) = Rejected RejectedUndefined
          /\ items (st_log (snd (validate env images))) = its ++ [conversion_error m]
          /\ level (conversion_error m) = FATAL).
Proof.
  intros Hin Hc. split.
  - apply validate_incomplete with (img := img); [|exact Hin].
    now apply conversion_gives_no_text with (m := m).
  - intros pre post shcs -> Hpre.
    unfold validate, validate_body.
    match goal with |- context [bind _ _ ?s] =>
      destruct (decode_loop_app Hpre (img :: post) [] s) as (st1 & E)
    end.
    rewrite (@run_bind_eq _ _ _ _ _ _ _ _ E). cbn [decode_loop]. rewrite run_assoc.
    erewrite run_rejected by (apply decode_conversion_fails; exact Hc).
    cbn [fst snd st_log]. exists (items (st_log st1)).
    rewrite items_push. repeat split.
Qed.

(** C10.  When every image of the batch decodes, [validate] returns the
    JSON text of the array of the decoded strings, in the order of the
    images, and the log of the numeric-QR validation of those strings is the
    child of its log; for a single image the result is the text of a
    one-element array, never the decoded string itself. *)
Theorem decoded_batch_is_json_array images shcs :
  Forall2 (Decodes env) images shcs ->
  exists st',
    validate env images
    = (Resolved (mkResult (Some (JSON_stringify shcs)) (st_log st')), st')
    /\ child (st_log st') = Some (log (qr_validate env shcs))
    /\ (forall shc, shcs = [shc] ->
          JSON_stringify shcs = lit "[" ++ QuoteJSONString shc ++ lit "]"
          /\ JSON_stringify shcs <> shc).
Proof.
  intros Hall. unfold validate, validate_body.
  match goal with |- context [bind _ _ ?s] =>
    destruct (decode_loop_app Hall [] [] s) as (st1 & E)
  end.
  rewrite app_nil_r in E. rewrite (@run_bind_eq _ _ _ _ _ _ _ _ E). cbn [decode_loop app].
  repeat img_step.
  eexists (mkState _ _). split; [reflexivity|]. cbn [st_log].
  split; [apply child_set_child|].
  intros shc ->. apply JSON_stringify_single.
Qed.

End ImageProperties.

(* ================================================================== *)
(** * Properties of the Trusted Issuer Directory *)
(* ================================================================== *)

Section TrustedIssuerProperties.
Import JS Logger TrustedIssuers.

(** What [checkTrustedIssuerDirectory] logs: one entry in every case. *)
Lemma checkTrustedIssuerDirectory_logs dir url log :
  checkTrustedIssuerDirectory dir url log
  = match issuers dir with
    | None =>
        Log_error
          (lit "Error validating against the trusted issuers directory: directory not set")
          None log
    | Some directory =>
        match find (fun issuer => eqb (iss issuer) url) (participating_issuers directory) with
        | Some (mkIssuer _ (c :: n)) =>
            Log_debug (lit "Issuer found in " ++ class_name
                       ++ lit " directory; name: " ++ (c :: n)) log
        | _ =>
            Log_error (lit "Issuer not part of the " ++ interpolate (directoryName dir)
                       ++ lit " directory") (Some ISSUER_NOT_TRUSTED) log
        end
    end.
Proof.
  unfold checkTrustedIssuerDirectory.
  destruct (issuers dir) as [[l]|]; [|reflexivity]. cbn [participating_issuers].
  induction l as [|[i n] l IH]; [reflexivity|].
  cbn [filter find iss]. destruct (eqb i url); [|exact IH].
  cbn [map nth_error name]. now destruct n.
Qed.

(** C8 (the code departs from the specification).  Specified: with a
    directory configured, a participant whose URL is exactly [iss] gives a
    debug entry with its friendly name, and the issuer-not-trusted error is
    logged otherwise.  What the code does when the first participant with
    that URL has an empty friendly name: it tests the name for truth, not
    the match, and logs the issuer-not-trusted error for a listed issuer. *)
Theorem listed_issuer_with_empty_name_not_trusted dirURL dirName url rest log :
  checkTrustedIssuerDirectory
    (mkDirectory dirURL dirName (Some (mkIssuers (mkIssuer url [] :: rest)))) url log
  = Log_error (lit "Issuer not part of the " ++ interpolate dirName ++ lit " directory")
              (Some ISSUER_NOT_TRUSTED) log.
Proof.
  rewrite checkTrustedIssuerDirectory_logs.
  cbn [issuers participating_issuers find iss directoryName].
  now rewrite eqb_refl.
Qed.

End TrustedIssuerProperties.

(* ================================================================== *)
(** * The properties at concrete inputs *)
(* ================================================================== *)

Section Instances.
Import JS Logger Eff Shape Examples.

(** A token whose payload is [{}]: the run is rejected after the schema
    error. *)
Lemma missing_iss_rejects_witness :
  (In (JwsCompact.CallPayloadValidate json_empty_object)
      (JwsCompact.st_calls (snd (JwsCompact.validate offline [] token_without_iss)))
   /\ result (JwsCompact.jwsPayload_validate offline json_empty_object)
      = Some (JwsCompact.mkPayload None))
  /\ exists its,
       fst (JwsCompact.validate offline [] token_without_iss)
       = Rejected (TypeError (lit "Cannot read property 'slice' of undefined"))
       /\ items (JwsCompact.st_log (snd (JwsCompact.validate offline [] token_without_iss)))
          = its ++ [Stages.missing_iss_error]
       /\ Forall (fun c => ~ Stages.issuer_call c)
                 (JwsCompact.st_calls (snd (JwsCompact.validate offline [] token_without_iss))).
Proof.
  assert (Hin : In (JwsCompact.CallPayloadValidate json_empty_object)
                   (JwsCompact.st_calls
                      (snd (JwsCompact.validate offline [] token_without_iss)))).
  { vm_compute. right. right. left. reflexivity. }
  assert (Hres : result (JwsCompact.jwsPayload_validate offline json_empty_object)
                 = Some (JwsCompact.mkPayload None)) by reflexivity.
  split; [split; assumption|].
  exact (@missing_iss_rejects offline [] token_without_iss json_empty_object
           (JwsCompact.mkPayload None) Hin Hres eq_refl).
Defined.

(** A string without dots gets an undefined result although the Payload
    Validator was never called. *)
Lemma undefined_result_without_payload_call :
  ~ Stages.undefined_iff_payload_failed offline [] (lit "abc").
Proof.
  unfold Stages.undefined_iff_payload_failed. intros H.
  destruct (H _ eq_refl) as [[Hcall _] _].
  destruct (Hcall eq_refl) as (text & Hin & _).
  vm_compute in Hin. exact Hin.
Qed.

(** The token with an [iss]: the result is the token. *)
Lemma validate_result_witness :
  In (JwsCompact.CallPayloadValidate json_with_iss)
     (JwsCompact.st_calls (snd (JwsCompact.validate offline [] token_with_iss)))
  /\ exists l,
       fst (JwsCompact.validate offline [] token_with_iss)
       = Resolved (mkResult (Some (trim token_with_iss)) l).
Proof.
  assert (Hin : In (JwsCompact.CallPayloadValidate json_with_iss)
                   (JwsCompact.st_calls
                      (snd (JwsCompact.validate offline [] token_with_iss)))).
  { vm_compute. right. right. left. reflexivity. }
  split; [exact Hin|].
  destruct (validate_result offline [] token_with_iss) as (_ & _ & H & _).
  exact (H json_with_iss Hin example_issuer eq_refl).
Defined.

(** Four parts: not of the [x.y.z] shape, and yet past the shape check. *)
Lemma four_parts_pass_shape_check :
  ~ Stages.shape_check_is_exact offline [] (lit "a.b.c.d").
Proof.
  intros [H _].
  assert (N : ~ Segmentable (lit "a.b.c.d")).
  { intros S. apply Segmentable_xyz_shape in S. vm_compute in S. discriminate. }
  destruct (H N) as (its & _ & _ & _ & Hcalls).
  vm_compute in Hcalls. discriminate.
Qed.

(** A string without dots stops at the shape check. *)
Lemma shape_check_contains_witness :
  ~ ContainsShape (trim (lit "abc"))
  /\ Stages.stopped_at_shape_check (JwsCompact.validate offline [] (lit "abc")).
Proof.
  assert (N : ~ ContainsShape (trim (lit "abc"))).
  { rewrite <- shape_test_spec. vm_compute. discriminate. }
  split; [exact N|].
  exact (proj1 (shape_check_contains offline [] (lit "abc")) N).
Defined.

(** The payload segment [Bw] decodes to the byte 7 and does not inflate;
    the Payload Validator receives the two characters [Bw]. *)
Lemma encoded_segment_handed_on :
  ~ Stages.decoded_bytes_handed_on offline [] token_not_deflated.
Proof.
  intros H.
  destruct (H (lit "e30") (lit "Bw") (lit "c2ln") [] (lit "invalid block type")
              eq_refl eq_refl) as [_ Hin].
  vm_compute in Hin.
  repeat destruct Hin as [Hin|Hin]; try discriminate Hin; exact Hin.
Qed.

Lemma inflation_failure_continues_witness :
  (ContainsShape (trim token_not_deflated)
   /\ split JwsCompact.dot (trim token_not_deflated) = [lit "e30"; lit "Bw"; lit "c2ln"]
   /\ JwsCompact.inflateRaw offline (JwsCompact.Buffer_from_base64 offline (lit "Bw"))
      = inr (lit "invalid block type"))
  /\ exists before after rest,
       items (JwsCompact.st_log (snd (JwsCompact.validate offline [] token_not_deflated)))
       = before ++ Stages.inflation_error (lit "invalid block type") :: after
       /\ level (Stages.inflation_error (lit "invalid block type")) = ERROR
       /\ Forall (Stages.later_entry offline) after
       /\ JwsCompact.st_calls (snd (JwsCompact.validate offline [] token_not_deflated))
          = [JwsCompact.CallValidateSchema (trim token_not_deflated);
             JwsCompact.CallInflateRaw (JwsCompact.Buffer_from_base64 offline (lit "Bw"));
             JwsCompact.CallPayloadValidate (lit "Bw")] ++ rest.
Proof.
  assert (C : ContainsShape (trim token_not_deflated)).
  { rewrite <- shape_test_spec. vm_compute. reflexivity. }
  split; [split; [exact C | split; reflexivity]|].
  exact (@inflation_failure_continues offline [] token_not_deflated
           (lit "e30") (lit "Bw") (lit "c2ln") [] (lit "invalid block type")
           C eq_refl eq_refl).
Defined.

(** The token with an [iss], offline and with an empty key store. *)
Lemma unreachable_key_set_witness :
  (In (JwsCompact.CallPayloadValidate json_with_iss)
      (JwsCompact.st_calls (snd (JwsCompact.validate offline [] token_with_iss)))
   /\ JwsCompact.got_json offline (Stages.jwks_url example_issuer) = None
   /\ JwsCompact.verifier_verify offline [] (trim token_with_iss)
      = JwsCompact.VerifyFailed (lit "no key found"))
  /\ exists l its calls,
       JwsCompact.validate offline [] token_with_iss
       = (Resolved (mkResult (Some (trim token_with_iss)) l),
          JwsCompact.mkState l []
            (calls ++ [JwsCompact.CallGot (Stages.jwks_url example_issuer);
                       JwsCompact.CallVerify [] (trim token_with_iss)]))
       /\ items l = its ++ [Stages.retrieving_info example_issuer; Stages.download_error;
                            Stages.verification_error (lit "no key found")]
       /\ level Stages.download_error = ERROR
       /\ level (Stages.verification_error (lit "no key found")) = ERROR
       /\ worst [Stages.download_error; Stages.verification_error (lit "no key found")]
          = ERROR.
Proof.
  assert (Hin : In (JwsCompact.CallPayloadValidate json_with_iss)
                   (JwsCompact.st_calls
                      (snd (JwsCompact.validate offline [] token_with_iss)))).
  { vm_compute. right. right. left. reflexivity. }
  split; [split; [exact Hin | split; reflexivity]|].
  exact (@unreachable_key_set offline [] token_with_iss json_with_iss
           (JwsCompact.mkPayload (Some example_issuer)) example_issuer
           (lit "no key found") Hin eq_refl eq_refl eq_refl eq_refl).
Defined.

(** A padded token, offline: the collaborators log no trailing-characters
    warning, the result is that of the bare token and the warning is there. *)
Lemma trimming_is_idempotent_witness :
  (token_padded <> trim token_padded
   /\ (forall jws i, In i (JwsCompact.validateSchema offline jws) ->
                     is_entry WARNING TRAILING_CHARACTERS i = false)
   /\ (forall keySet url st i,
         In i (snd (fst (JwsCompact.verifyHealthCardIssuerKey offline keySet url st))) ->
         is_entry WARNING TRAILING_CHARACTERS i = false))
  /\ Stages.result_of (fst (JwsCompact.validate offline [] (trim token_padded)))
     = Stages.result_of (fst (JwsCompact.validate offline [] token_padded))
  /\ (existsb (is_entry WARNING TRAILING_CHARACTERS)
              (items (JwsCompact.st_log (snd (JwsCompact.validate offline [] token_padded))))
      = true
      <-> token_padded <> trim token_padded).
Proof.
  assert (Hne : token_padded <> trim token_padded).
  { intros E. apply (f_equal (@length N)) in E. vm_compute in E. discriminate. }
  assert (Hs : forall jws i, In i (JwsCompact.validateSchema offline jws) ->
                             is_entry WARNING TRAILING_CHARACTERS i = false).
  { intros jws i. cbn [JwsCompact.validateSchema offline].
    destruct (xyz_shape jws); cbn [In]; [intros []|].
    intros [<-|[]]. reflexivity. }
  assert (Hk : forall keySet url st i,
             In i (snd (fst (JwsCompact.verifyHealthCardIssuerKey offline keySet url st))) ->
             is_entry WARNING TRAILING_CHARACTERS i = false).
  { intros keySet url st i []. }
  split; [split; [exact Hne | split; assumption]|].
  destruct (@trimming_is_idempotent offline [] [] token_padded) as (R & W & C).
  split; [exact R | split; [exact (C Hs Hk) | exact W]].
Defined.

(** Two rasters, the second one blank. *)
Lemma undecodable_image_fails_batch_witness :
  (In (raster "b.png" (lit "blank"))
      [raster "a.png" (lit "QRone"); raster "b.png" (lit "blank")]
   /\ ImageStages.QrUnreadable images (raster "b.png" (lit "blank"))
   /\ Forall2 (ImageStages.Decodes images) [raster "a.png" (lit "QRone")] [lit "one"])
  /\ exists st' its,
       Image.validate images [raster "a.png" (lit "QRone"); raster "b.png" (lit "blank")]
       = (Resolved (mkResult None (Image.st_log st')), st')
       /\ items (Image.st_log st') = its ++ [ImageStages.decode_error (lit "b.png")]
       /\ level (ImageStages.decode_error (lit "b.png")) = FATAL
       /\ code (ImageStages.decode_error (lit "b.png")) = Some QR_DECODE_ERROR.
Proof.
  assert (Hin : In (raster "b.png" (lit "blank"))
                   [raster "a.png" (lit "QRone"); raster "b.png" (lit "blank")])
    by (right; left; reflexivity).
  assert (Hq : ImageStages.QrUnreadable images (raster "b.png" (lit "blank"))).
  { left. split; [reflexivity|]. eexists. split; reflexivity. }
  assert (Hd : Forall2 (ImageStages.Decodes images) [raster "a.png" (lit "QRone")]
                       [lit "one"]).
  { constructor; [|constructor]. intros st. eexists. reflexivity. }
  split; [repeat split; assumption|].
  exact (proj2 (@undecodable_image_fails_batch images
                  [raster "a.png" (lit "QRone"); raster "b.png" (lit "blank")]
                  (raster "b.png" (lit "blank")) Hin Hq)
               [raster "a.png" (lit "QRone")] [] [lit "one"] eq_refl Hd).
Defined.

(** A raster followed by a file that is not an SVG document. *)
Lemma svg_conversion_failure_is_fatal_witness :
  (In (svg_file "c.svg" (lit "oops"))
      [raster "a.png" (lit "QRone"); svg_file "c.svg" (lit "oops")]
   /\ ImageStages.SvgConversionFails images (svg_file "c.svg" (lit "oops"))
        (lit "not an SVG document")
   /\ Forall2 (ImageStages.Decodes images) [raster "a.png" (lit "QRone")] [lit "one"])
  /\ exists its,
       fst (Image.validate images
              [raster "a.png" (lit "QRone"); svg_file "c.svg" (lit "oops")])
       = Rejected RejectedUndefined
       /\ items (Image.st_log
                   (snd (Image.validate images
                           [raster "a.png" (lit "QRone"); svg_file "c.svg" (lit "oops")])))
          = its ++ [ImageStages.conversion_error (lit "not an SVG document")]
       /\ level (ImageStages.conversion_error (lit "not an SVG document")) = FATAL.
Proof.
  assert (Hin : In (svg_file "c.svg" (lit "oops"))
                   [raster "a.png" (lit "QRone"); svg_file "c.svg" (lit "oops")])
    by (right; left; reflexivity).
  assert (Hc : ImageStages.SvgConversionFails images (svg_file "c.svg" (lit "oops"))
                 (lit "not an SVG document")) by (split; reflexivity).
  assert (Hd : Forall2 (ImageStages.Decodes images) [raster "a.png" (lit "QRone")]
                       [lit "one"]).
  { constructor; [|constructor]. intros st. eexists. reflexivity. }
  split; [repeat split; assumption|].
  exact (proj2 (@svg_conversion_failure_is_fatal images
                  [raster "a.png" (lit "QRone"); svg_file "c.svg" (lit "oops")]
                  (svg_file "c.svg" (lit "oops")) (lit "not an SVG document") Hin Hc)
               [raster "a.png" (lit "QRone")] [] [lit "one"] eq_refl Hd).
Defined.

(** Two rasters that decode. *)
Lemma decoded_batch_is_json_array_witness :
  Forall2 (ImageStages.Decodes images)
          [raster "a.png" (lit "QRone"); raster "b.png" (lit "QRtwo")]
          [lit "one"; lit "two"]
  /\ exists st',
       Image.validate images [raster "a.png" (lit "QRone"); raster "b.png" (lit "QRtwo")]
       = (Resolved (mkResult (Some (Image.JSON_stringify [lit "one"; lit "two"]))
                             (Image.st_log st')), st')
       /\ child (Image.st_log st')
          = Some (log (Image.qr_validate images [lit "one"; lit "two"])).
Proof.
  assert (Hd : Forall2 (ImageStages.Decodes images)
                       [raster "a.png" (lit "QRone"); raster "b.png" (lit "QRtwo")]
                       [lit "one"; lit "two"]).
  { repeat constructor; intros st; eexists; reflexivity. }
  split; [exact Hd|].
  destruct (@decoded_batch_is_json_array images _ _ Hd) as (st' & E & C & _).
  exists st'. split; assumption.
Defined.

End Instances.

(* ================================================================== *)
(** * More about the string primitives *)
(* ================================================================== *)

Section SliceFacts.
Import JS MoreStages.

Lemma firstn_min {A} n (s : list A) : firstn (Nat.min n (length s)) s = firstn n s.
Proof.
  rewrite <- firstn_firstn. now rewrite firstn_all.
Qed.

(** [s.slice(0, n)] is the first [n] characters. *)
Lemma slice_prefix (n : nat) (s : jsstring) :
  slice 0 (Some (Z.of_nat n)) s = firstn n s.
Proof.
  unfold slice. cbn [Z.ltb Z.compare].
  replace (Z.of_nat n <? 0)%Z with false by (symmetry; apply Z.ltb_ge; lia).
  rewrite (Z.min_l 0) by lia. cbn [Z.to_nat skipn].
  replace (Z.to_nat (Z.max (Z.min (Z.of_nat n) (Z.of_nat (length s)) - 0) 0))
    with (Nat.min n (length s)) by lia.
  apply firstn_min.
Qed.

(** [s.slice(-1)] is the last character, if there is one. *)
Lemma slice_last (s : jsstring) :
  slice (-1) None s = match rev s with [] => [] | c :: _ => [c] end.
Proof.
  destruct s as [|c0 s0] using rev_ind; [reflexivity|].
  rewrite rev_app_distr. cbn [rev app].
  unfold slice. cbn [Z.ltb Z.compare]. rewrite length_app. cbn [length].
  replace (Z.to_nat (Z.max (Z.of_nat (length s0 + 1) + -1) 0)) with (length s0) by lia.
  replace (Z.to_nat (Z.max (Z.of_nat (length s0 + 1)
                            - Z.max (Z.of_nat (length s0 + 1) + -1) 0) 0))
    with 1%nat by lia.
  rewrite skipn_app, skipn_all, Nat.sub_diag. reflexivity.
Qed.

Lemma starts_with_spec (p s : jsstring) :
  starts_with p s = true <-> exists rest, s = p ++ rest.
Proof.
  revert s; induction p as [|a p IH]; intros s; cbn [starts_with].
  - split; [intros _; now exists s | reflexivity].
  - destruct s as [|b s].
    + split; [discriminate | intros (rest & E); discriminate].
    + rewrite andb_true_iff, N.eqb_eq, IH. split.
      * intros [-> (rest & ->)]. now exists rest.
      * intros (rest & E). injection E as -> ->. split; [reflexivity | now exists rest].
Qed.

Lemma starts_with_firstn (p s : jsstring) :
  eqb (firstn (length p) s) p = starts_with p s.
Proof.
  revert s; induction p as [|a p IH]; intros s; cbn [length firstn starts_with].
  - reflexivity.
  - destruct s as [|b s]; [reflexivity|].
    cbn [eqb]. rewrite IH. now rewrite N.eqb_sym.
Qed.

(** The test of line 90 is a prefix test, and the test of line 94 looks at
    the last character. *)
Lemma https_test (issuer : jsstring) :
  eqb (slice 0 (Some 8%Z) issuer) (lit "https://") = starts_with (lit "https://") issuer.
Proof.
  change 8%Z with (Z.of_nat 8). rewrite slice_prefix.
  exact (starts_with_firstn (lit "https://") issuer).
Qed.

Lemma slash_test (issuer : jsstring) :
  eqb (slice (-1) None issuer) (lit "/") = ends_with_slash issuer.
Proof.
  rewrite slice_last. unfold ends_with_slash.
  destruct (rev issuer) as [|c r]; [reflexivity|].
  cbn. now rewrite andb_true_r.
Qed.

End SliceFacts.

(* ================================================================== *)
(** * The issuer stage of the Compact Token Validator, step by step *)
(* ================================================================== *)

Section IssuerStage.
Import JS Logger Eff JwsCompact Shape Stages MoreStages.
Variable env : Env.

Lemma title_push i l : title (push i l) = title l.
Proof. now destruct l. Qed.

(** The three checks of the issuer URL log [issuer_entries]. *)
Lemma checks_log (issuer : jsstring) (l : Log) :
  (if eqb (slice (-1) None issuer) (lit "/")
   then Log_error (lit "Issuer URL SHALL NOT include a trailing /") (Some INVALID_ISSUER_URL)
   else fun l => l)
    ((if negb (eqb (slice 0 (Some 8%Z) issuer) (lit "https://"))
      then Log_error (lit "Issuer URL SHALL use https") (Some INVALID_ISSUER_URL)
      else fun l => l)
       ((if match issuer with [] => true | _ :: _ => false end
         then Log_error (lit "Can't find 'iss' entry in JWS payload") (Some SCHEMA_ERROR)
         else fun l => l) l))
  = fold_left (fun l i => push i l) (issuer_entries issuer) l.
Proof.
  rewrite https_test, slash_test. unfold issuer_entries.
  destruct issuer as [|c i]; [reflexivity|].
  destruct (starts_with (lit "https://") (c :: i)), (ends_with_slash (c :: i));
    reflexivity.
Qed.

Lemma check_issuer_run payload jws st issuer :
  iss payload = Some issuer ->
  check_issuer env payload jws st
  = bind (downloadKey env issuer)
      (fun _ => bind (verifyJws env jws)
         (fun ok => bind (when ok (logging (Log_info (lit "JWS signature verified"))))
            (fun _ => bind current_log
               (fun l => ret (mkResult (Some jws) l)))))
      (mkState (fold_left (fun l i => push i l) (issuer_entries issuer) (st_log st))
               (st_store st) (st_calls st)).
Proof.
  intros H. unfold check_issuer. unfold_logging. rewrite H.
  repeat run_step. cbv iota. now rewrite checks_log.
Qed.

Lemma child_fold its l :
  child (fold_left (fun l i => push i l) its l) = child l.
Proof.
  revert l; induction its as [|i its IH]; intros l; cbn [fold_left]; [reflexivity|].
  now rewrite IH, child_push.
Qed.

(** [downloadKey], in full. *)
Lemma downloadKey_log issuer st :
  exists r dl_its dl_calls store1 L1,
    downloadKey env issuer st
    = (Resolved r,
       mkState L1 store1 (st_calls st ++ CallGot (jwks_url issuer) :: dl_calls))
    /\ items L1 = items (st_log st) ++ retrieving_info issuer :: dl_its
    /\ child L1 = child (st_log st)
    /\ ((got_json env (jwks_url issuer) = None
         /\ dl_its = [download_error] /\ dl_calls = [] /\ store1 = st_store st)
        \/ (exists keySet o entries,
              got_json env (jwks_url issuer) = Some keySet
              /\ verifyHealthCardIssuerKey env keySet issuer (st_store st)
                 = (o, entries, store1)
              /\ dl_its = downloaded_debug :: entries
                          ++ match o with Rejected _ => [download_error] | Resolved _ => [] end
              /\ dl_calls = [CallVerifyIssuerKey keySet issuer])).
Proof.
  destruct (got_json env (jwks_url issuer)) as [keySet|] eqn:Hg.
  - destruct (verifyHealthCardIssuerKey env keySet issuer (st_store st))
      as [[o entries] store1] eqn:Hv.
    rewrite (downloadKey_downloaded env _ _ Hg Hv).
    eexists _, (downloaded_debug :: entries
                ++ match o with Rejected _ => [download_error] | Resolved _ => [] end),
            [CallVerifyIssuerKey keySet issuer], store1, _.
    split; [reflexivity|]. split; [|split].
    + cbv zeta. unfold Log_debug.
      destruct o; rewrite ?items_push, items_pushes, !items_push, <- ?app_assoc;
        cbn [app]; rewrite ?app_nil_r; reflexivity.
    + cbv zeta. unfold Log_debug.
      destruct o; now rewrite ?child_push, child_fold, !child_push.
    + right. exists keySet, o, entries. repeat split; assumption.
  - rewrite (downloadKey_unreachable env _ _ Hg).
    eexists _, [download_error], [], (st_store st), _.
    split; [reflexivity|]. split; [|split].
    + now rewrite !items_push, <- app_assoc.
    + now rewrite !child_push.
    + left. repeat split.
Qed.

(** The whole issuer stage: what is logged, which calls are made and which
    key store the verification uses. *)
Lemma issuer_stage payload jws st issuer :
  iss payload = Some issuer ->
  exists dl_its dl_calls store1 v_its L,
    check_issuer env payload jws st
    = (Resolved (mkResult (Some jws) L),
       mkState L store1
         (st_calls st ++ CallGot (jwks_url issuer) :: dl_calls ++ [CallVerify store1 jws]))
    /\ items L
       = items (st_log st) ++ issuer_entries issuer
         ++ retrieving_info issuer :: dl_its ++ v_its
    /\ child L = child (st_log st)
    /\ ((got_json env (jwks_url issuer) = None
         /\ dl_its = [download_error] /\ dl_calls = [] /\ store1 = st_store st)
        \/ (exists keySet o entries,
              got_json env (jwks_url issuer) = Some keySet
              /\ verifyHealthCardIssuerKey env keySet issuer (st_store st)
                 = (o, entries, store1)
              /\ dl_its = downloaded_debug :: entries
                          ++ match o with Rejected _ => [download_error] | Resolved _ => [] end
              /\ dl_calls = [CallVerifyIssuerKey keySet issuer]))
    /\ ((verifier_verify env store1 jws = Verified /\ v_its = [verified_info])
        \/ (exists m, verifier_verify env store1 jws = VerifyFailed m
                      /\ v_its = [verification_error m])).
Proof.
  intros H. rewrite (check_issuer_run _ _ _ H).
  match goal with |- context [bind (downloadKey env issuer) _ ?s] =>
    destruct (downloadKey_log issuer s)
      as (r & dl_its & dl_calls & store1 & L1 & E1 & I1 & C1 & D1)
  end.
  cbn [st_log st_store st_calls] in E1, I1, C1, D1.
  rewrite items_pushes in I1. rewrite child_fold in C1.
  erewrite run_resolved by exact E1.
  destruct (verifier_verify env store1 jws) as [|m] eqn:Hv.
  - erewrite run_resolved by (apply verifyJws_verified; exact Hv).
    repeat run_step.
    exists dl_its, dl_calls, store1, [verified_info], (Log_info (lit "JWS signature verified") L1).
    split; [now rewrite <- app_assoc|]. split; [|split; [|split]].
    + unfold Log_info. rewrite items_push, I1, <- !app_assoc. reflexivity.
    + unfold Log_info. now rewrite child_push.
    + exact D1.
    + left. now split.
  - erewrite run_resolved by (apply verifyJws_failed; exact Hv).
    repeat run_step.
    exists dl_its, dl_calls, store1, [verification_error m], (push (verification_error m) L1).
    split; [now rewrite <- app_assoc|]. split; [|split; [|split]].
    + rewrite items_push, I1, <- !app_assoc. reflexivity.
    + now rewrite child_push.
    + exact D1.
    + right. now exists m.
Qed.

Lemma ends_with_slash_spec (s : jsstring) :
  ends_with_slash s = true <-> exists pre, s = pre ++ [47%N].
Proof.
  unfold ends_with_slash. split.
  - destruct (rev s) as [|c r] eqn:R; [discriminate|].
    intros H. apply N.eqb_eq in H. subst c. exists (rev r).
    apply (f_equal (@rev N)) in R. rewrite rev_involutive in R. exact R.
  - intros (pre & ->). rewrite rev_app_distr. reflexivity.
Qed.

(** The log when the Payload Validator has returned. *)
Lemma parsed_items jws h r k st :
  items (st_log (parsed env jws h r k st))
  = items (measured jws (st_log st)) ++ validateSchema env jws
    ++ [mkItem DEBUG (lit "JWS.header = " ++ Buffer_toString env (Buffer_from_base64 env h))
               None;
        mkItem DEBUG (lit "JWS.key (hex) = " ++ Buffer_toString_hex (Buffer_from_binary k))
               None;
        inflation_entry env r].
Proof.
  unfold parsed, Log_debug. cbn [st_log].
  rewrite items_set_child, !items_push, items_pushes, <- !app_assoc. reflexivity.
Qed.

Lemma parsed_child jws h r k st :
  child (st_log (parsed env jws h r k st))
  = Some (log (jwsPayload_validate env (payload_text env r))).
Proof. unfold parsed. cbn [st_log]. apply child_set_child. Qed.

(** A run whose payload has an [iss], in full. *)
Lemma validate_issuer_stage store s text payload issuer :
  In (CallPayloadValidate text) (st_calls (snd (validate env store s))) ->
  result (jwsPayload_validate env text) = Some payload ->
  iss payload = Some issuer ->
  exists h r k more dl_its dl_calls store1 v_its L,
    split dot (trim s) = h :: r :: k :: more
    /\ text = payload_text env r
    /\ validate env store s
       = (Resolved (mkResult (Some (trim s)) L),
          mkState L store1
            ([CallValidateSchema (trim s); CallInflateRaw (Buffer_from_base64 env r);
              CallPayloadValidate text]
             ++ CallGot (jwks_url issuer) :: dl_calls ++ [CallVerify store1 (trim s)]))
    /\ items L
       = items (st_log (parsed env (trim s) h r k (entered store s)))
         ++ issuer_entries issuer ++ retrieving_info issuer :: dl_its ++ v_its
    /\ child L = Some (log (jwsPayload_validate env text))
    /\ ((got_json env (jwks_url issuer) = None
         /\ dl_its = [download_error] /\ dl_calls = [] /\ store1 = store)
        \/ (exists keySet o entries,
              got_json env (jwks_url issuer) = Some keySet
              /\ verifyHealthCardIssuerKey env keySet issuer store = (o, entries, store1)
              /\ dl_its = downloaded_debug :: entries
                          ++ match o with Rejected _ => [download_error] | Resolved _ => [] end
              /\ dl_calls = [CallVerifyIssuerKey keySet issuer]))
    /\ ((verifier_verify env store1 (trim s) = Verified /\ v_its = [verified_info])
        \/ (exists m, verifier_verify env store1 (trim s) = VerifyFailed m
                      /\ v_its = [verification_error m])).
Proof.
  intros Hin Hres Hiss.
  destruct (payload_call_inv env store s text Hin)
    as (_ & h & r & k & more & Hsplit & Ht & E).
  rewrite Hres in E.
  destruct (issuer_stage payload (trim s)
              (parsed env (trim s) h r k (entered store s)) Hiss)
    as (dl_its & dl_calls & store1 & v_its & L & E' & I & C & D & V).
  exists h, r, k, more, dl_its, dl_calls, store1, v_its, L.
  split; [exact Hsplit|]. split; [exact Ht|]. split; [|split; [|split; [|split]]].
  - rewrite E, E'. subst text. reflexivity.
  - exact I.
  - rewrite C, parsed_child. now subst text.
  - exact D.
  - exact V.
Qed.

(** The four ways a run can end. *)
Lemma validate_shapes store s :
  (~ ContainsShape (trim s)
   /\ validate env store s
      = (Resolved (mkResult None
           (push shape_fatal (measured (trim s) (st_log (entered store s))))),
         mkState (push shape_fatal (measured (trim s) (st_log (entered store s))))
                 store []))
  \/
  (exists h r k more,
     split dot (trim s) = h :: r :: k :: more
     /\ ContainsShape (trim s)
     /\ st_calls (parsed env (trim s) h r k (entered store s))
        = [CallValidateSchema (trim s); CallInflateRaw (Buffer_from_base64 env r);
           CallPayloadValidate (payload_text env r)]
     /\ st_store (parsed env (trim s) h r k (entered store s)) = store
     /\ ((result (jwsPayload_validate env (payload_text env r)) = None
          /\ validate env store s
             = (Resolved (mkResult None
                            (st_log (parsed env (trim s) h r k (entered store s)))),
                parsed env (trim s) h r k (entered store s)))
         \/ (exists payload,
               result (jwsPayload_validate env (payload_text env r)) = Some payload
               /\ iss payload = None
               /\ validate env store s
                  = (Rejected (TypeError (lit "Cannot read property 'slice' of undefined")),
                     mkState (push missing_iss_error
                                (st_log (parsed env (trim s) h r k (entered store s))))
                             store
                             (st_calls (parsed env (trim s) h r k (entered store s)))))
         \/ (exists payload issuer dl_its dl_calls store1 v_its L,
               result (jwsPayload_validate env (payload_text env r)) = Some payload
               /\ iss payload = Some issuer
               /\ validate env store s
                  = (Resolved (mkResult (Some (trim s)) L),
                     mkState L store1
                       (st_calls (parsed env (trim s) h r k (entered store s))
                        ++ CallGot (jwks_url issuer) :: dl_calls
                        ++ [CallVerify store1 (trim s)]))
               /\ items L
                  = items (st_log (parsed env (trim s) h r k (entered store s)))
                    ++ issuer_entries issuer ++ retrieving_info issuer :: dl_its ++ v_its
               /\ child L = child (st_log (parsed env (trim s) h r k (entered store s)))
               /\ ((got_json env (jwks_url issuer) = None
                    /\ dl_its = [download_error] /\ dl_calls = [] /\ store1 = store)
                   \/ (exists keySet o entries,
                         got_json env (jwks_url issuer) = Some keySet
                         /\ verifyHealthCardIssuerKey env keySet issuer store
                            = (o, entries, store1)
                         /\ dl_its = downloaded_debug :: entries
                                     ++ match o with
                                        | Rejected _ => [download_error]
                                        | Resolved _ => []
                                        end
                         /\ dl_calls = [CallVerifyIssuerKey keySet issuer]))
               /\ ((verifier_verify env store1 (trim s) = Verified
                    /\ v_its = [verified_info])
                   \/ (exists m, verifier_verify env store1 (trim s) = VerifyFailed m
                                 /\ v_its = [verification_error m]))))).
Proof.
  destruct (validate_cases env store s) as [[Hn E]|[Hs (h & r & k & more & Hsplit & E)]].
  - left. split; [|exact E]. rewrite <- shape_test_spec. congruence.
  - right. exists h, r, k, more.
    split; [exact Hsplit|]. split; [now apply shape_test_spec|].
    split; [reflexivity|]. split; [reflexivity|].
    destruct (result (jwsPayload_validate env (payload_text env r))) as [payload|] eqn:R.
    + destruct (iss payload) as [issuer|] eqn:Hi.
      * right. right.
        destruct (issuer_stage payload (trim s)
                    (parsed env (trim s) h r k (entered store s)) Hi)
          as (dl_its & dl_calls & store1 & v_its & L & E' & I & C & D & V).
        exists payload, issuer, dl_its, dl_calls, store1, v_its, L.
        rewrite E, E'. repeat split; assumption.
      * right. left. exists payload. rewrite E, check_issuer_missing by assumption.
        repeat split; assumption.
    + left. now split.
Qed.

End IssuerStage.

(* ================================================================== *)
(** * More properties of the Compact Token Validator *)
(* ================================================================== *)

Section CompactTokenMore.
Import JS Logger Eff JwsCompact Shape Stages MoreStages.
Variable env : Env.

(** X1.  A token that fails the shape check is answered from the string
    alone: the log holds the trailing-characters warning if the string had
    surrounding white space, the length warning if the trimmed string is
    longer than 1195 characters, and the fatal entry, in this order and
    nothing else; the key store is untouched and no collaborator is
    called. *)
Theorem shape_failure_log store s :
  ~ ContainsShape (trim s) ->
  exists l,
    validate env store s = (Resolved (mkResult None l), mkState l store [])
    /\ title l = lit "JWS-compact"
    /\ child l = None
    /\ items l
       = (if eqb (trim s) s then [] else [trailing_warning])
         ++ (if (1195 <? N.of_nat (length (trim s)))%N then [length_warning] else [])
         ++ [shape_fatal].
Proof.
  intros Hn. rewrite <- shape_test_spec in Hn. apply not_true_is_false in Hn.
  destruct (validate_cases env store s) as [[_ E]|[Hs _]]; [|congruence].
  eexists. split; [exact E|].
  unfold entered, measured. cbn [st_log]. change MAX_JWS_SINGLE_CHUNK_LENGTH with 1195%N.
  destruct (eqb (trim s) s), (1195 <? N.of_nat (length (trim s)))%N;
    repeat split; reflexivity.
Qed.

(** X2.  For a token that is exactly of the [x.y.z] shape, the schema
    validator gets the whole token, the payload segment [y] is what is
    base64-decoded and inflated, and the log holds the debug entries of the
    decoded header [x] and of the signature [z] in hexadecimal. *)
Theorem wellformed_token_parts store x y z :
  Base64url x -> Base64url y -> Base64url z ->
  let s := x ++ [dot] ++ y ++ [dot] ++ z in
  exists rest,
    st_calls (snd (validate env store s))
    = [CallValidateSchema s; CallInflateRaw (Buffer_from_base64 env y);
       CallPayloadValidate (payload_text env y)] ++ rest
    /\ In (mkItem DEBUG (lit "JWS.header = " ++ Buffer_toString env (Buffer_from_base64 env x))
                  None)
          (items (st_log (snd (validate env store s))))
    /\ In (mkItem DEBUG (lit "JWS.key (hex) = " ++ Buffer_toString_hex (Buffer_from_binary z))
                  None)
          (items (st_log (snd (validate env store s)))).
Proof.
  intros Hx Hy Hz s.
  assert (S : Segmentable s).
  { exists x, y, z. split; [reflexivity|]. split; [assumption|]. now split. }
  assert (T : trim s = s) by now apply Segmentable_trim.
  assert (Hs : test jws_shape (trim s) = true).
  { apply shape_test_spec. rewrite T. now apply Segmentable_ContainsShape. }
  assert (Hsplit : split dot (trim s) = [x; y; z]).
  { rewrite T. now apply Segmentable_split. }
  destruct (payload_call_made env store s Hs Hsplit) as (rest & Ec & _).
  rewrite T in Ec. exists rest. split; [exact Ec|].
  destruct (validate_grows env store s) as (its & Ei & _).
  destruct (validate_cases env store s) as [[Hn _]|[_ (h & r & k & m & Hsplit' & E)]];
    [congruence|].
  rewrite Hsplit in Hsplit'. injection Hsplit' as <- <- <- <-.
  assert (G : log_grows env (st_log (parsed env (trim s) x y z (entered store s)))
                (st_log (snd (validate env store s)))).
  { rewrite E.
    destruct (result (jwsPayload_validate env (payload_text env y))) as [payload|];
      [|apply lg_refl].
    destruct (iss payload) as [issuer|] eqn:Hi.
    - destruct (check_issuer_effect env payload (trim s)
                  (parsed env (trim s) x y z (entered store s)) Hi) as (st' & E' & G' & _).
      now rewrite E'.
    - rewrite check_issuer_missing by assumption. cbn [snd st_log].
      apply lg_push; [left; discriminate | apply lg_refl]. }
  destruct G as (more & Em & _). rewrite Em, parsed_items.
  split; apply in_or_app; left; apply in_or_app; right; apply in_or_app; right;
    cbn [In]; tauto.
Qed.

(** X3.  When the payload segment inflates, the entry "JWS payload inflated"
    is logged and the Payload Validator gets the inflated text, except when
    that text is empty: then it gets the payload segment as it stands in the
    token. *)
Theorem inflated_text_handed_on store s header rawPayload key more text :
  ContainsShape (trim s) ->
  split dot (trim s) = header :: rawPayload :: key :: more ->
  inflateRaw env (Buffer_from_base64 env rawPayload) = inl text ->
  In inflated_info (items (st_log (snd (validate env store s))))
  /\ In (CallPayloadValidate (match text with [] => rawPayload | _ => text end))
        (st_calls (snd (validate env store s))).
Proof.
  intros Hc Hsplit Hinf. apply shape_test_spec in Hc.
  destruct (payload_call_made env store s Hc Hsplit) as (rest & Ec & _).
  split.
  - destruct (validate_cases env store s) as [[Hn _]|[_ (h & r & k & m & Hsplit' & E)]];
      [congruence|].
    rewrite Hsplit in Hsplit'. injection Hsplit' as <- <- <- <-.
    assert (I : In inflated_info
                   (items (st_log (parsed env (trim s) header rawPayload key
                                          (entered store s))))).
    { rewrite parsed_items. unfold inflation_entry. rewrite Hinf.
      apply in_or_app; right; apply in_or_app; right. cbn [In]. tauto. }
    rewrite E.
    destruct (result (jwsPayload_validate env (payload_text env rawPayload)))
      as [payload|]; [|exact I].
    destruct (iss payload) as [issuer|] eqn:Hi.
    + destruct (check_issuer_effect env payload (trim s)
                  (parsed env (trim s) header rawPayload key (entered store s)) Hi)
        as (st' & E' & (its & Ei & _) & _).
      rewrite E'. cbn [snd]. rewrite Ei. apply in_or_app. now left.
    + rewrite check_issuer_missing by assumption. cbn [snd st_log].
      rewrite items_push. apply in_or_app. now left.
  - rewrite Ec. unfold payload_text. rewrite Hinf.
    destruct text; cbn [In app]; tauto.
Qed.

(** X4.  Without a payload from the Payload Validator the run ends there:
    the result is undefined, exactly the schema validator, the inflater and
    the Payload Validator were called, the key store is as it was, and the
    log of the Payload Validator is the child of the log. *)
Theorem no_payload_stops store s text :
  In (CallPayloadValidate text) (st_calls (snd (validate env store s))) ->
  result (jwsPayload_validate env text) = None ->
  exists l inflated,
    validate env store s
    = (Resolved (mkResult None l),
       mkState l store [CallValidateSchema (trim s); CallInflateRaw inflated;
                        CallPayloadValidate text])
    /\ child l = Some (log (jwsPayload_validate env text)).
Proof.
  intros Hin Hres.
  destruct (payload_call_inv env store s text Hin)
    as (_ & h & r & k & more & _ & -> & E).
  rewrite Hres in E. rewrite E.
  exists (st_log (parsed env (trim s) h r k (entered store s))),
         (Buffer_from_base64 env r).
  split; [reflexivity | apply parsed_child].
Qed.

(** X5.  An issuer URL that starts with [https://] and does not end with a
    slash draws no entry: the entry that follows those of the payload stage
    is the one that announces the retrieval of the keys. *)
Theorem wellformed_issuer_draws_no_entry store s text payload host :
  In (CallPayloadValidate text) (st_calls (snd (validate env store s))) ->
  result (jwsPayload_validate env text) = Some payload ->
  iss payload = Some (lit "https://" ++ host) ->
  (forall pre, lit "https://" ++ host <> pre ++ [47%N]) ->
  exists h r k more after,
    split dot (trim s) = h :: r :: k :: more
    /\ items (st_log (snd (validate env store s)))
       = items (st_log (parsed env (trim s) h r k (entered store s)))
         ++ retrieving_info (lit "https://" ++ host) :: after.
Proof.
  intros Hin Hres Hiss Hslash.
  destruct (validate_issuer_stage env store s text Hin Hres Hiss)
    as (h & r & k & more & dl_its & dl_calls & store1 & v_its & L
        & Hsplit & _ & E & I & _).
  exists h, r, k, more, (dl_its ++ v_its). split; [exact Hsplit|].
  rewrite E. cbn [snd st_log]. rewrite I. f_equal.
  unfold issuer_entries.
  assert (P : starts_with (lit "https://") (lit "https://" ++ host) = true)
    by (apply starts_with_spec; now exists host).
  assert (Q : ends_with_slash (lit "https://" ++ host) = false).
  { apply not_true_is_false. intros Q. apply ends_with_slash_spec in Q as (pre & Q).
    exact (Hslash pre Q). }
  rewrite P, Q. reflexivity.
Qed.


(** X7.  When the key set arrives but the Key Set Validator rejects, the
    rejection is caught like a failed download: the entries it wrote stay
    and the issuer-key-download error follows them, the signature is
    verified against the key store as the validator left it, and the run
    returns the token with that key store in place. *)
Theorem key_validator_rejection_is_caught store s text payload issuer keySet e entries store1 :
  In (CallPayloadValidate text) (st_calls (snd (validate env store s))) ->
  result (jwsPayload_validate env text) = Some payload ->
  iss payload = Some issuer ->
  got_json env (jwks_url issuer) = Some keySet ->
  verifyHealthCardIssuerKey env keySet issuer store = (Rejected e, entries, store1) ->
  exists l before v_its inflated,
    validate env store s
    = (Resolved (mkResult (Some (trim s)) l),
       mkState l store1
         [CallValidateSchema (trim s); CallInflateRaw inflated; CallPayloadValidate text;
          CallGot (jwks_url issuer); CallVerifyIssuerKey keySet issuer;
          CallVerify store1 (trim s)])
    /\ items l
       = before ++ [retrieving_info issuer; downloaded_debug] ++ entries
         ++ [download_error] ++ v_its
    /\ (v_its = [verified_info] \/ exists m, v_its = [verification_error m]).
Proof.
  intros Hin Hres Hiss Hgot Hval.
  destruct (validate_issuer_stage env store s text Hin Hres Hiss)
    as (h & r & k & more & dl_its & dl_calls & st1 & v_its & L
        & Hsplit & _ & E & I & _ & D & V).
  destruct D as [(Hg & _)|(ks & o & ents & Hg & Hv & -> & ->)]; [congruence|].
  rewrite Hgot in Hg. injection Hg as <-.
  rewrite Hval in Hv. injection Hv as <- <- <-.
  exists L, (items (st_log (parsed env (trim s) h r k (entered store s)))
             ++ issuer_entries issuer), v_its, (Buffer_from_base64 env r).
  split; [exact E|]. split.
  - rewrite I. repeat first [rewrite <- app_assoc | progress cbn [app]]. reflexivity.
  - destruct V as [[_ ->]|(m & _ & ->)]; [now left | right; now exists m].
Qed.

(** X8.  When the key set arrives, the Key Set Validator accepts it and the
    signature verifies against the key store the validator left, the entries
    after the retrieval notice are the download notice, those of the
    validator and "JWS signature verified": the download and the
    verification log no error, and the run returns the token. *)
Theorem downloaded_keys_verify store s text payload issuer keySet ks entries store1 :
  In (CallPayloadValidate text) (st_calls (snd (validate env store s))) ->
  result (jwsPayload_validate env text) = Some payload ->
  iss payload = Some issuer ->
  got_json env (jwks_url issuer) = Some keySet ->
  verifyHealthCardIssuerKey env keySet issuer store = (Resolved ks, entries, store1) ->
  verifier_verify env store1 (trim s) = Verified ->
  exists l before,
    fst (validate env store s) = Resolved (mkResult (Some (trim s)) l)
    /\ st_store (snd (validate env store s)) = store1
    /\ items l
       = before ++ [retrieving_info issuer; downloaded_debug] ++ entries ++ [verified_info].
Proof.
  intros Hin Hres Hiss Hgot Hval Hver.
  destruct (validate_issuer_stage env store s text Hin Hres Hiss)
    as (h & r & k & more & dl_its & dl_calls & st1 & v_its & L
        & Hsplit & _ & E & I & _ & D & V).
  destruct D as [(Hg & _)|(ks' & o & ents & Hg & Hv & -> & ->)]; [congruence|].
  rewrite Hgot in Hg. injection Hg as <-.
  rewrite Hval in Hv. injection Hv as <- <- <-.
  destruct V as [[_ ->]|(m & Hm & _)]; [|congruence].
  exists L, (items (st_log (parsed env (trim s) h r k (entered store s)))
             ++ issuer_entries issuer).
  rewrite E. split; [reflexivity|]. split; [reflexivity|].
  rewrite I. repeat first [rewrite <- app_assoc | progress cbn [app]].
  rewrite ?app_nil_r. reflexivity.
Qed.

(** X9.  The collaborators are called in a fixed order and at most once
    each: a run makes no call at all, or calls the schema validator, the
    inflater and the Payload Validator and stops, or goes on to request the
    key set, to run the Key Set Validator if the key set arrived, and last
    to verify the signature of the trimmed token against the key store the
    run ends with. *)
Theorem call_protocol store s :
  (st_calls (snd (validate env store s)) = []
   /\ st_store (snd (validate env store s)) = store)
  \/ (exists inflated text,
        st_calls (snd (validate env store s))
        = [CallValidateSchema (trim s); CallInflateRaw inflated; CallPayloadValidate text]
        /\ st_store (snd (validate env store s)) = store)
  \/ (exists inflated text issuer mid,
        st_calls (snd (validate env store s))
        = [CallValidateSchema (trim s); CallInflateRaw inflated; CallPayloadValidate text;
           CallGot (jwks_url issuer)]
          ++ mid ++ [CallVerify (st_store (snd (validate env store s))) (trim s)]
        /\ (mid = [] \/ exists keySet, mid = [CallVerifyIssuerKey keySet issuer])).
Proof.
  destruct (validate_shapes env store s)
    as [[_ E]|(h & r & k & more & _ & _ & Hc & Hst
               & [[_ E]|[(payload & _ & _ & E)
                        |(payload & issuer & dl_its & dl_calls & store1 & v_its & L
                          & _ & _ & E & _ & _ & D & _)]])].
  - left. now rewrite E.
  - right. left. exists (Buffer_from_base64 env r), (payload_text env r).
    rewrite E. now split.
  - right. left. exists (Buffer_from_base64 env r), (payload_text env r).
    rewrite E. now split.
  - right. right.
    exists (Buffer_from_base64 env r), (payload_text env r), issuer, dl_calls.
    rewrite E, Hc. cbn [snd st_calls st_store]. split; [reflexivity|].
    destruct D as [(_ & _ & -> & _)|(keySet & o & entries & _ & _ & _ & ->)];
      [now left | right; now exists keySet].
Qed.

(** X10.  The key store changes only through the Key Set Validator: a run
    that does not call it ends with the key store it started with, and a run
    that calls it ends with the key store the validator left, also when the
    validator rejects. *)
Theorem store_changes_only_through_key_validator store s :
  ((forall keySet url,
       ~ In (CallVerifyIssuerKey keySet url) (st_calls (snd (validate env store s)))) ->
   st_store (snd (validate env store s)) = store)
  /\ (forall keySet url,
        In (CallVerifyIssuerKey keySet url) (st_calls (snd (validate env store s))) ->
        st_store (snd (validate env store s))
        = snd (verifyHealthCardIssuerKey env keySet url store)).
Proof.
  destruct (validate_shapes env store s)
    as [[_ E]|(h & r & k & more & _ & _ & Hc & Hst
               & [[_ E]|[(payload & _ & _ & E)
                        |(payload & issuer & dl_its & dl_calls & store1 & v_its & L
                          & _ & _ & E & _ & _ & D & _)]])];
    rewrite E; cbn [snd st_store st_calls]; rewrite ?Hc, ?Hst.
  - split; [reflexivity | intros ? ? []].
  - split; [reflexivity|]. intros ks url Hin. cbn in Hin. intuition discriminate.
  - split; [reflexivity|]. intros ks url Hin. cbn in Hin. intuition discriminate.
  - destruct D as [(_ & _ & -> & ->)|(keySet & o & entries & _ & Hv & _ & ->)].
    + split; [reflexivity|]. intros ks url Hin. cbn in Hin. intuition discriminate.
    + split.
      * intros Hno. exfalso. apply (Hno keySet issuer). cbn. tauto.
      * intros ks url Hin. cbn in Hin.
        destruct Hin as [Hin|[Hin|[Hin|[Hin|[Hin|[Hin|[]]]]]]]; try discriminate.
        injection Hin as <- <-. now rewrite Hv.
Qed.

(** X11.  Whenever the Payload Validator is called, its log is the child of
    the log of the run, whatever the run does afterwards; a run that stops
    at the shape check has a log without child. *)
Theorem payload_log_is_child store s :
  (forall text,
      In (CallPayloadValidate text) (st_calls (snd (validate env store s))) ->
      child (st_log (snd (validate env store s)))
      = Some (log (jwsPayload_validate env text)))
  /\ (~ ContainsShape (trim s) -> child (st_log (snd (validate env store s))) = None).
Proof.
  destruct (validate_shapes env store s)
    as [[Hn E]|(h & r & k & more & _ & Hs & Hc & Hst
                & [[_ E]|[(payload & _ & _ & E)
                         |(payload & issuer & dl_its & dl_calls & store1 & v_its & L
                           & _ & _ & E & _ & C & D & _)]])];
    rewrite E; cbn [snd st_log st_calls]; rewrite ?Hc.
  - split; [intros ? []|]. intros _.
    rewrite child_push, child_measured. unfold entered. cbn [st_log].
    destruct (negb _); [apply child_push | reflexivity].
  - split; [|contradiction]. intros text Hin. cbn in Hin.
    destruct Hin as [Hin|[Hin|[Hin|[]]]]; try discriminate.
    injection Hin as <-. apply parsed_child.
  - split; [|contradiction]. intros text Hin. cbn in Hin.
    destruct Hin as [Hin|[Hin|[Hin|[]]]]; try discriminate.
    injection Hin as <-. rewrite child_push. apply parsed_child.
  - split; [|contradiction]. intros text Hin. rewrite C, parsed_child.
    cbn in Hin. destruct Hin as [Hin|[Hin|[Hin|Hin]]]; try discriminate.
    + now injection Hin as <-.
    + exfalso. destruct Hin as [Hin|Hin]; [discriminate|].
      apply in_app_or in Hin as [Hin|[Hin|[]]]; [|discriminate].
      destruct D as [(_ & _ & -> & _)|(keySet & o & entries & _ & _ & _ & ->)];
        cbn in Hin; intuition discriminate.
Qed.

(** X12.  Past the shape check the validator is never fatal: in a run on a
    token that passes it, every entry of the log is below fatal level,
    unless the schema validator or the Key Set Validator wrote it. *)
Theorem only_the_shape_check_is_fatal store s :
  ContainsShape (trim s) ->
  Forall (nonfatal_entry env) (items (st_log (snd (validate env store s)))).
Proof.
  intros Hs.
  assert (Own : forall lv m c, lv <> FATAL -> nonfatal_entry env (mkItem lv m c))
    by (intros; now left).
  assert (Schema : Forall (nonfatal_entry env) (validateSchema env (trim s))).
  { apply Forall_forall. intros i Hi. right. left. now exists (trim s). }
  assert (P : forall h r k,
             Forall (nonfatal_entry env)
                    (items (st_log (parsed env (trim s) h r k (entered store s))))).
  { intros h r k. rewrite parsed_items.
    apply Forall_app. split; [|apply Forall_app; split; [exact Schema|]].
    - unfold measured, entered. cbn [st_log].
      destruct (negb _), (_ <? _)%N; cbn;
        repeat (constructor; [apply Own; discriminate|]); constructor.
    - constructor; [apply Own; discriminate|].
      constructor; [apply Own; discriminate|].
      constructor; [|constructor].
      unfold inflation_entry. destruct (inflateRaw env _); apply Own; discriminate. }
  destruct (validate_shapes env store s)
    as [[Hn _]|(h & r & k & more & _ & _ & Hc & Hst
                & [[_ E]|[(payload & _ & _ & E)
                         |(payload & issuer & dl_its & dl_calls & store1 & v_its & L
                           & _ & _ & E & I & _ & D & V)]])];
    [contradiction| | |]; rewrite E; cbn [snd st_log].
  - apply P.
  - rewrite items_push. apply Forall_app. split; [apply P|].
    constructor; [apply Own; discriminate | constructor].
  - rewrite I. apply Forall_app. split; [apply P|].
    apply Forall_app. split.
    { unfold issuer_entries.
      destruct issuer, (starts_with _ _), (ends_with_slash _); cbn;
        repeat (constructor; [apply Own; discriminate|]); constructor. }
    constructor; [apply Own; discriminate|].
    apply Forall_app. split.
    + destruct D as [(_ & -> & _)|(keySet & o & entries & _ & Hv & -> & _)].
      * constructor; [apply Own; discriminate | constructor].
      * constructor; [apply Own; discriminate|].
        apply Forall_app. split.
        -- apply Forall_forall. intros i Hi. right. right.
           exists keySet, issuer, store. now rewrite Hv.
        -- destruct o; [constructor|].
           constructor; [apply Own; discriminate | constructor].
    + destruct V as [[_ ->]|(m & _ & ->)];
        (constructor; [apply Own; discriminate | constructor]).
Qed.

End CompactTokenMore.

(* ================================================================== *)
(** * More properties of the Image QR Decoder *)
(* ================================================================== *)

Section ImageMore.
Import JS Logger Eff Image ImageStages MoreStages.
Variable env : Env.

Lemma img_modify {B} f (k : unit -> M State B) st : bind (modify f) k st = k tt (f st).
Proof. reflexivity. Qed.

Lemma appended_nil st : mkState (st_log st) (st_written st ++ []) = st.
Proof. destruct st. cbn. now rewrite app_nil_r. Qed.

(** What [decode] does to a state: it adds entries and files that depend on
    the file alone. *)
Lemma decode_adds (img : FileInfo) :
  exists o its files,
    (forall st,
        decode env img st
        = (o, mkState (fold_left (fun l i => push i l) its (st_log st))
                      (st_written st ++ files)))
    /\ (length its <= 1)%nat
    /\ Forall (fun i => level i = FATAL) its
    /\ (forall shc, o = Resolved (Some shc) -> its = [])
    /\ (files = []
        \/ (eqb (fileType img) (lit "svg") = true
            /\ exists content, files = [(path img ++ lit ".png", content)])).
Proof.
  unfold decode.
  destruct (eqb (fileType img) (lit "svg")) eqn:Hsvg.
  - destruct (svg2img env (Buffer_toString env (buffer img)) svgImageWidth svgImageWidth)
      as [m|buf] eqn:Hc.
    { exists (Rejected RejectedUndefined), [conversion_error m], [].
      split; [|repeat split; auto; discriminate].
      intros st. unfold svgToImageBuffer. rewrite Hc. repeat img_step.
      rewrite app_nil_r. reflexivity. }
    destruct (PNG_sync_read env buf) as [e|png] eqn:Hp.
    { exists (Rejected e), [], [].
      split; [|repeat split; auto; discriminate].
      intros st. unfold svgToImageBuffer. rewrite Hc. repeat img_step.
      rewrite Hp. repeat img_step. rewrite app_nil_r. now destruct st. }
    destruct (fs_writeFileSync env (path img ++ lit ".png") buf) as [e|] eqn:Hw.
    { exists (Rejected e), [], [].
      split; [|repeat split; auto; discriminate].
      intros st. unfold svgToImageBuffer. rewrite Hc. repeat img_step.
      rewrite Hp. repeat img_step. cbv zeta. cbn [path]. rewrite Hw.
      repeat img_step. rewrite app_nil_r. now destruct st. }
    destruct (jsQR env (data png) (width png) (height png)) as [shc|] eqn:Hq.
    + exists (Resolved (Some shc)), [], [(path img ++ lit ".png", buf)].
      split; [|repeat split; auto; right; split; [reflexivity | now exists buf]].
      intros st. unfold svgToImageBuffer. rewrite Hc. repeat img_step.
      rewrite Hp. repeat img_step. cbv zeta. cbn [path]. rewrite Hw.
      rewrite img_modify. unfold decodeQrBuffer. cbn [image name data width height].
      rewrite Hq. reflexivity.
    + exists (Resolved None), [decode_error (name img)], [(path img ++ lit ".png", buf)].
      split; [|repeat split; auto; try discriminate;
               right; split; [reflexivity | now exists buf]].
      intros st. unfold svgToImageBuffer. rewrite Hc. repeat img_step.
      rewrite Hp. repeat img_step. cbv zeta. cbn [path]. rewrite Hw.
      rewrite img_modify. unfold decodeQrBuffer. cbn [image name data width height].
      rewrite Hq. repeat img_step. reflexivity.
  - destruct (eqb (fileType img) (lit "png") || eqb (fileType img) (lit "jpg")
              || eqb (fileType img) (lit "bmp")).
    + unfold decodeQrBuffer. destruct (image img) as [png|].
      * destruct (jsQR env (data png) (width png) (height png)) as [shc|].
        -- exists (Resolved (Some shc)), [], [].
           split; [intros st; cbn; rewrite appended_nil; reflexivity|]. repeat split; auto.
        -- exists (Resolved None), [decode_error (name img)], [].
           split; [intros st; repeat img_step; rewrite app_nil_r; reflexivity|].
           repeat split; auto. discriminate.
      * exists (Resolved None), [missing_data_error (name img)], [].
        split; [intros st; repeat img_step; rewrite app_nil_r; reflexivity|].
        repeat split; auto. discriminate.
    + exists (Resolved None), [unknown_file_error], [].
      split; [intros st; repeat img_step; rewrite app_nil_r; reflexivity|].
      repeat split; auto. discriminate.
Qed.

(** X13.  [decode] only adds to what is there: run on any state, it gives
    the outcome it gives on the empty state, and leaves the state with the
    entries and files of that run added.  It logs at most one entry, a fatal
    one, and none when it gives a text; it writes at most one file, only for
    an SVG file, at the path of the file followed by [.png]. *)
Theorem decode_frame (img : FileInfo) (st : State) :
  decode env img st
  = (fst (decode env img fresh), appended (snd (decode env img fresh)) st)
  /\ (length (items (st_log (snd (decode env img fresh)))) <= 1)%nat
  /\ Forall (fun i => level i = FATAL) (items (st_log (snd (decode env img fresh))))
  /\ (forall shc, fst (decode env img fresh) = Resolved (Some shc) ->
                  items (st_log (snd (decode env img fresh))) = [])
  /\ (st_written (snd (decode env img fresh)) = []
      \/ (eqb (fileType img) (lit "svg") = true
          /\ exists content,
               st_written (snd (decode env img fresh))
               = [(path img ++ lit ".png", content)])).
Proof.
  destruct (decode_adds img) as (o & its & files & F & L & Fa & S & W).
  rewrite (F st), (F fresh). unfold appended, fresh.
  cbn [fst snd st_log st_written app]. rewrite items_pushes. cbn [items new_Log app].
  repeat split; assumption.
Qed.

Lemma title_fold its l : title (fold_left (fun l i => push i l) its l) = title l.
Proof.
  revert l; induction its as [|i its IH]; intros l; cbn [fold_left]; [reflexivity|].
  rewrite IH. now destruct l.
Qed.

Lemma child_fold_img its l : child (fold_left (fun l i => push i l) its l) = child l.
Proof.
  revert l; induction its as [|i its IH]; intros l; cbn [fold_left]; [reflexivity|].
  now rewrite IH, child_push.
Qed.

(** The loop only adds to what is there, too. *)
Lemma decode_loop_frame images :
  forall acc, exists o its files,
    forall st,
      decode_loop env images acc st
      = (o, mkState (fold_left (fun l i => push i l) its (st_log st))
                    (st_written st ++ files)).
Proof.
  induction images as [|img images IH]; intros acc.
  - exists (Resolved (Some acc)), [], []. intros st. cbn. now rewrite appended_nil.
  - destruct (decode_adds img) as (o & its & files & F & _).
    destruct o as [[shc|]|e].
    + destruct (IH (acc ++ [shc])) as (o2 & its2 & files2 & F2).
      exists o2, (its ++ decoded_entries (name img) shc ++ its2), (files ++ files2).
      intros st. cbn [decode_loop]. erewrite run_resolved by apply F.
      cbv iota. repeat img_step. rewrite F2. cbn [st_log st_written].
      rewrite !fold_left_app, <- (app_assoc (st_written st)). reflexivity.
    + exists (Resolved None), its, files. intros st. cbn [decode_loop].
      erewrite run_resolved by apply F. reflexivity.
    + exists (Rejected e), its, files. intros st. cbn [decode_loop].
      erewrite run_rejected by apply F. reflexivity.
Qed.

(** After a prefix that decodes, the loop goes on with the rest. *)
Lemma decode_loop_continue pre :
  forall acc st l st1 rest,
    decode_loop env pre acc st = (Resolved (Some l), st1) ->
    decode_loop env (pre ++ rest) acc st = decode_loop env rest l st1.
Proof.
  induction pre as [|img pre IH]; intros acc st l st1 rest E.
  - cbn in E. injection E as <- <-. reflexivity.
  - cbn [app decode_loop] in *. unfold bind at 1 in E. unfold bind at 1.
    destruct (decode env img st) as [[[shc|]|e] st0]; try discriminate.
    revert E. repeat img_step. apply IH.
Qed.

(** The state in which the loop leaves a prefix that decodes is the one in
    which a run on the prefix alone ends, up to the title of the log. *)
Lemma after_prefix pre shcs :
  Forall2 (Decodes env) pre shcs ->
  exists its files,
    (forall st rest,
        decode_loop env (pre ++ rest) [] st
        = decode_loop env rest shcs
            (mkState (fold_left (fun l i => push i l) its (st_log st))
                     (st_written st ++ files)))
    /\ items (st_log (snd (validate env pre))) = its
    /\ st_written (snd (validate env pre)) = files
    /\ fst (validate env pre)
       = Resolved (mkResult (Some (JSON_stringify shcs)) (st_log (snd (validate env pre)))).
Proof.
  intros Hpre.
  destruct (decode_loop_frame pre []) as (o & its & files & F).
  assert (O : o = Resolved (Some shcs)).
  { destruct (decode_loop_app Hpre [] [] fresh) as (st' & E).
    rewrite app_nil_r, F in E. cbn in E. now injection E as -> _. }
  subst o. exists its, files. split; [|split; [|split]].
  - intros st rest. now apply decode_loop_continue.
  - unfold validate, validate_body. erewrite run_resolved by apply F.
    cbv iota. repeat img_step. unfold ret. cbn [snd st_log].
    now rewrite items_set_child, items_pushes.
  - unfold validate, validate_body. erewrite run_resolved by apply F.
    cbv iota. repeat img_step. reflexivity.
  - unfold validate, validate_body. erewrite run_resolved by apply F.
    cbv iota. repeat img_step. reflexivity.
Qed.

(** A run on a batch whose first image without text comes after [pre]. *)
Lemma validate_stops pre img post shcs o its files :
  Forall2 (Decodes env) pre shcs ->
  (forall st,
      decode env img st
      = (o, mkState (fold_left (fun l i => push i l) its (st_log st))
                    (st_written st ++ files))) ->
  (forall shc, o <> Resolved (Some shc)) ->
  exists l,
    validate env (pre ++ img :: post)
    = (match o with
       | Rejected e => Rejected e
       | Resolved _ => Resolved (mkResult None l)
       end,
       mkState l (st_written (snd (validate env pre)) ++ files))
    /\ items l = items (st_log (snd (validate env pre))) ++ its
    /\ child l = None.
Proof.
  intros Hpre F Ho.
  destruct (after_prefix Hpre) as (its0 & files0 & P & <- & <- & _).
  unfold validate at 1, validate_body.
  match goal with |- context [bind _ _ ?st] => set (st0 := st) end.
  rewrite (@run_bind_eq _ _ _ _ _ _ _ _ (P st0 (img :: post))).
  cbn [decode_loop]. rewrite run_assoc.
  destruct o as [[shc|]|e]; [now destruct (Ho shc)| |].
  - erewrite run_resolved by apply F. cbv iota. repeat img_step.
    eexists. split; [reflexivity|].
    rewrite !items_pushes, child_fold_img, child_fold_img. now split.
  - erewrite run_rejected by apply F. cbn [st_log st_written].
    eexists. split; [reflexivity|].
    rewrite !items_pushes, child_fold_img, child_fold_img. now split.
Qed.

Lemma decode_readable img shc st :
  ReadableRaster env img shc -> decode env img st = (Resolved (Some shc), st).
Proof.
  intros [Hr (png & Hi & Hq)]. unfold decode.
  rewrite (is_raster_not_svg _ Hr). unfold is_raster in Hr. rewrite Hr.
  unfold decodeQrBuffer. now rewrite Hi, Hq.
Qed.

Lemma decode_unknown img st :
  UnknownType img ->
  decode env img st
  = (Resolved None,
     mkState (fold_left (fun l i => push i l) [unknown_file_error] (st_log st))
             (st_written st ++ [])).
Proof.
  intros [Hs Hr]. unfold decode. rewrite Hs. unfold is_raster in Hr. rewrite Hr.
  repeat img_step. now rewrite app_nil_r.
Qed.

Lemma decode_missing img st :
  is_raster (fileType img) = true -> image img = None ->
  decode env img st
  = (Resolved None,
     mkState (fold_left (fun l i => push i l) [missing_data_error (name img)] (st_log st))
             (st_written st ++ [])).
Proof.
  intros Hr Hi. unfold decode.
  rewrite (is_raster_not_svg _ Hr). unfold is_raster in Hr. rewrite Hr.
  unfold decodeQrBuffer. rewrite Hi. repeat img_step. now rewrite app_nil_r.
Qed.

Lemma decode_throws img e st :
  SvgStepThrows env img e ->
  decode env img st
  = (Rejected e,
     mkState (fold_left (fun l i => push i l) [] (st_log st)) (st_written st ++ [])).
Proof.
  intros [Hs (buf & Hc & Hthrow)]. unfold decode. rewrite Hs.
  unfold svgToImageBuffer. rewrite Hc. repeat img_step.
  cbn [fold_left]. rewrite appended_nil.
  destruct Hthrow as [Hp|[(png & Hp) Hw]]; rewrite Hp; repeat img_step;
    [reflexivity|].
  cbv zeta. cbn [path]. rewrite Hw. repeat img_step. reflexivity.
Qed.

(** X14.  The batch stops at the first image that gives no text: the
    images after it are not looked at, so that the outcome, the entries of
    the log and the files written are those of the batch that ends with that
    image. *)
Theorem batch_stops_at_first_failure pre img post shcs :
  Forall2 (Decodes env) pre shcs ->
  gives_no_text env img ->
  Stages.result_of (fst (validate env (pre ++ img :: post)))
  = Stages.result_of (fst (validate env (pre ++ [img])))
  /\ items (st_log (snd (validate env (pre ++ img :: post))))
     = items (st_log (snd (validate env (pre ++ [img]))))
  /\ st_written (snd (validate env (pre ++ img :: post)))
     = st_written (snd (validate env (pre ++ [img]))).
Proof.
  intros Hpre Hbad.
  destruct (decode_adds img) as (o & its & files & F & _).
  assert (Ho : forall shc, o <> Resolved (Some shc)).
  { intros shc E. apply (Hbad fresh shc). now rewrite F, E. }
  destruct (@validate_stops pre img post shcs o its files Hpre F Ho) as (l1 & E1 & I1 & _).
  destruct (@validate_stops pre img [] shcs o its files Hpre F Ho) as (l2 & E2 & I2 & _).
  rewrite E1, E2. cbn [fst snd st_log st_written]. rewrite I1, I2.
  destruct o as [[shc|]|e]; repeat split; reflexivity.
Qed.

(** X15.  A batch of raster files in which the reader finds a code writes
    no file and logs, for each image in order, the entry that it was decoded
    and the debug entry with its text, and nothing else; the title of the
    log counts the images when there are at least two. *)
Theorem raster_batch_log images shcs :
  Forall2 (ReadableRaster env) images shcs ->
  exists l,
    validate env images
    = (Resolved (mkResult (Some (JSON_stringify shcs)) l), mkState l [])
    /\ items l
       = flat_map (fun p => decoded_entries (name (fst p)) (snd p)) (combine images shcs)
    /\ title l
       = (if (1 <? length images)%nat
          then lit "QR images (" ++ of_N (N.of_nat (length images)) ++ lit ")"
          else lit "QR image")
    /\ child l = Some (log (qr_validate env shcs)).
Proof.
  intros Hall.
  assert (Loop : forall acc st,
             decode_loop env images acc st
             = (Resolved (Some (acc ++ shcs)),
                mkState (fold_left (fun l i => push i l)
                           (flat_map (fun p => decoded_entries (name (fst p)) (snd p))
                                     (combine images shcs))
                           (st_log st))
                        (st_written st))).
  { induction Hall as [|img shc images shcs Hr _ IH]; intros acc st.
    - cbn. rewrite app_nil_r. now destruct st.
    - cbn [decode_loop]. erewrite run_resolved by (apply decode_readable; exact Hr).
      cbv iota. repeat img_step. rewrite IH. cbn [st_log st_written].
      rewrite <- app_assoc. reflexivity. }
  unfold validate, validate_body. erewrite run_resolved by apply Loop.
  cbv iota. repeat img_step. unfold ret. cbn [app st_written].
  eexists. split; [reflexivity|]. split; [|split].
  - rewrite items_set_child, items_pushes. reflexivity.
  - destruct (fold_left _ _ _) eqn:E.
    apply (f_equal title) in E. rewrite title_fold in E. cbn in E. now subst.
  - apply child_set_child.
Qed.

(** X16.  A file of a type that is none of [svg], [png], [jpg] and [bmp],
    reached after images that decode, ends the batch: the result is
    undefined and the log is the one of the images before followed by the
    fatal entry of kind unknown-file-data; no file is written for it. *)
Theorem unknown_type_fails_batch pre img post shcs :
  Forall2 (Decodes env) pre shcs ->
  UnknownType img ->
  exists l,
    validate env (pre ++ img :: post)
    = (Resolved (mkResult None l), mkState l (st_written (snd (validate env pre))))
    /\ items l = items (st_log (snd (validate env pre))) ++ [unknown_file_error].
Proof.
  intros Hpre Hu.
  destruct (@validate_stops pre img post shcs (Resolved None) [unknown_file_error] []
              Hpre (fun st => @decode_unknown img st Hu))
    as (l & E & I & _); [discriminate|].
  exists l. rewrite app_nil_r in E. now split.
Qed.

(** X17.  A raster file without pixel data, reached after images that
    decode, ends the batch: the result is undefined and the last entry of
    the log is fatal, names the file and is logged without an error kind. *)
Theorem missing_image_data_fails_batch pre img post shcs :
  Forall2 (Decodes env) pre shcs ->
  is_raster (fileType img) = true ->
  image img = None ->
  exists l,
    validate env (pre ++ img :: post)
    = (Resolved (mkResult None l), mkState l (st_written (snd (validate env pre))))
    /\ items l
       = items (st_log (snd (validate env pre))) ++ [missing_data_error (name img)]
    /\ code (missing_data_error (name img)) = None.
Proof.
  intros Hpre Hr Hi.
  destruct (@validate_stops pre img post shcs (Resolved None)
              [missing_data_error (name img)] []
              Hpre (fun st => @decode_missing img st Hr Hi))
    as (l & E & I & _); [discriminate|].
  exists l. rewrite app_nil_r in E. now repeat split.
Qed.

(** X18.  When an SVG file converts but reading the raster or writing it to
    disk throws, the promise of [validate] is rejected with what was thrown;
    nothing is logged for the file, and no file is recorded as written:
    the log and the files are those of the images before. *)
Theorem svg_step_failure_rejects pre img post shcs e :
  Forall2 (Decodes env) pre shcs ->
  SvgStepThrows env img e ->
  fst (validate env (pre ++ img :: post)) = Rejected e
  /\ items (st_log (snd (validate env (pre ++ img :: post))))
     = items (st_log (snd (validate env pre)))
  /\ st_written (snd (validate env (pre ++ img :: post)))
     = st_written (snd (validate env pre)).
Proof.
  intros Hpre Ht.
  destruct (@validate_stops pre img post shcs (Rejected e) [] []
              Hpre (fun st => @decode_throws img e st Ht))
    as (l & E & I & _); [discriminate|].
  rewrite E. cbn [fst snd st_log st_written]. rewrite I, !app_nil_r. now repeat split.
Qed.

(** X19.  For an SVG file that converts, the raster is written next to the
    file, at its path followed by [.png], before the QR reader runs on the
    raster read back from the converted bytes: the file is written also
    when the reader then finds no code, and the text is the one found in the
    converted raster, not in the [image] the file came with. *)
Theorem svg_is_written_before_reading img svgBuffer png st :
  eqb (fileType img) (lit "svg") = true ->
  svg2img env (Buffer_toString env (buffer img)) svgImageWidth svgImageWidth
  = inr svgBuffer ->
  PNG_sync_read env svgBuffer = inr png ->
  fs_writeFileSync env (path img ++ lit ".png") svgBuffer = None ->
  decode env img st
  = (Resolved (jsQR env (data png) (width png) (height png)),
     mkState (match jsQR env (data png) (width png) (height png) with
              | Some _ => st_log st
              | None => push (decode_error (name img)) (st_log st)
              end)
             (st_written st ++ [(path img ++ lit ".png", svgBuffer)])).
Proof.
  intros Hs Hc Hp Hw. unfold decode. rewrite Hs.
  unfold svgToImageBuffer. rewrite Hc. repeat img_step.
  rewrite Hp. repeat img_step. cbv zeta. cbn [path]. rewrite Hw.
  rewrite img_modify. unfold decodeQrBuffer. cbn [image name data width height].
  destruct (jsQR env (data png) (width png) (height png)); repeat img_step; reflexivity.
Qed.

End ImageMore.

(* ================================================================== *)
(** * The trusted-issuers directory *)
(* ================================================================== *)

Section TrustedIssuersMore.
Import JS Logger TrustedIssuers.

Lemma find_first_match url pre (x : TrustedIssuer) rest :
  Forall (fun i => iss i <> url) pre -> iss x = url ->
  find (fun issuer => eqb (iss issuer) url) (pre ++ x :: rest) = Some x.
Proof.
  intros Hpre Hx. induction Hpre as [|i pre Hi _ IH]; cbn [app find].
  - now rewrite Hx, eqb_refl.
  - now rewrite (proj2 (eqb_neq _ _) Hi).
Qed.

Lemma find_no_match url l :
  Forall (fun i : TrustedIssuer => iss i <> url) l ->
  find (fun issuer => eqb (iss issuer) url) l = None.
Proof.
  induction 1 as [|i l Hi _ IH]; cbn [find]; [reflexivity|].
  now rewrite (proj2 (eqb_neq _ _) Hi).
Qed.

(** X20.  The first participant whose URL is exactly [iss] decides: the
    participants before it, which have other URLs, and everything after it,
    duplicates of the URL included, are ignored. *)
Theorem first_match_decides dirURL dirName url pre n rest log :
  Forall (fun i => iss i <> url) pre ->
  checkTrustedIssuerDirectory
    (mkDirectory dirURL dirName (Some (mkIssuers (pre ++ mkIssuer url n :: rest)))) url log
  = checkTrustedIssuerDirectory
      (mkDirectory dirURL dirName (Some (mkIssuers [mkIssuer url n]))) url log.
Proof.
  intros Hpre. rewrite !checkTrustedIssuerDirectory_logs.
  cbn [issuers participating_issuers directoryName].
  rewrite (@find_first_match url pre (mkIssuer url n) rest Hpre eq_refl).
  cbn [find iss]. now rewrite eqb_refl.
Qed.

(** X21.  A listed issuer with a friendly name gets one debug entry, without
    an error kind, whose message ends with that name; the directory it
    names is always [TrustedIssuerDirectory], the name of the class, whatever
    the directory's own name is. *)
Theorem listed_issuer_debug_entry dirURL dirName url pre n rest log :
  Forall (fun i => iss i <> url) pre ->
  n <> [] ->
  checkTrustedIssuerDirectory
    (mkDirectory dirURL dirName (Some (mkIssuers (pre ++ mkIssuer url n :: rest)))) url log
  = push (mkItem DEBUG
            (lit "Issuer found in TrustedIssuerDirectory directory; name: " ++ n) None)
         log.
Proof.
  intros Hpre Hn. rewrite checkTrustedIssuerDirectory_logs.
  cbn [issuers participating_issuers directoryName].
  rewrite (@find_first_match url pre (mkIssuer url n) rest Hpre eq_refl).
  destruct n as [|c n]; [congruence|]. reflexivity.
Qed.

(** X22.  An issuer that no participant of the directory has as its URL gets
    the issuer-not-trusted error, whose message names the directory by its
    own name, and reads [undefined] where no name was set. *)
Theorem unlisted_issuer_error dirURL dirName l url log :
  Forall (fun i => iss i <> url) l ->
  checkTrustedIssuerDirectory (mkDirectory dirURL dirName (Some (mkIssuers l))) url log
  = push (mkItem ERROR
            (lit "Issuer not part of the "
             ++ match dirName with Some d => d | None => lit "undefined" end
             ++ lit " directory")
            (Some ISSUER_NOT_TRUSTED))
         log.
Proof.
  intros Hl. rewrite checkTrustedIssuerDirectory_logs.
  cbn [issuers participating_issuers directoryName].
  now rewrite (find_no_match Hl).
Qed.

(** X23.  The check adds exactly one entry to the log it is given and
    changes nothing else of it; the entry is a debug entry or an error,
    never a warning or fatal, and an error of kind issuer-not-trusted only
    when a directory is set. *)
Theorem directory_check_adds_one_entry dir url log :
  exists i,
    checkTrustedIssuerDirectory dir url log = push i log
    /\ (level i = DEBUG \/ level i = ERROR)
    /\ (code i = Some ISSUER_NOT_TRUSTED -> issuers dir <> None)
    /\ (level i = DEBUG -> code i = None /\ issuers dir <> None).
Proof.
  rewrite checkTrustedIssuerDirectory_logs.
  destruct (issuers dir) as [d|].
  - destruct (find _ _) as [[i [|c n]]|];
      eexists; (split; [reflexivity|]); cbn [level code];
      repeat split; auto; try discriminate.
  - eexists. split; [reflexivity|]. cbn [level code].
    repeat split; auto; discriminate.
Qed.

End TrustedIssuersMore.

(* ================================================================== *)
(** * The image files made from an SVG *)
(* ================================================================== *)

Section QrImageFilesMore.
Import JS Eff QrImageFiles.

Lemma lastIndexOf_from_absent s : forall i found,
  Forall (fun d => d <> 46%N) s -> lastIndexOf_from 46 s i found = found.
Proof.
  induction s as [|d s IH]; intros i found H; [reflexivity|].
  inversion H as [|? ? Hd Hs]; subst. cbn [lastIndexOf_from].
  rewrite (proj2 (N.eqb_neq _ _) Hd). now apply IH.
Qed.

Lemma lastIndexOf_from_app s t : forall i found,
  lastIndexOf_from 46 (s ++ t) i found
  = lastIndexOf_from 46 t (i + Z.of_nat (length s)) (lastIndexOf_from 46 s i found).
Proof.
  induction s as [|d s IH]; intros i found; cbn [app lastIndexOf_from length].
  - now rewrite Z.add_0_r.
  - rewrite IH. f_equal. lia.
Qed.

(** X24.  For a path whose last dot is followed by a dot-free extension, the
    base of the names of the files written is the path up to that dot. *)
Theorem baseFileName_drops_extension stem ext :
  Forall (fun d => d <> 46%N) ext ->
  baseFileName (stem ++ 46%N :: ext) = stem.
Proof.
  intros Hext. unfold baseFileName, lastIndexOf.
  rewrite lastIndexOf_from_app. cbn [lastIndexOf_from]. rewrite N.eqb_refl.
  rewrite (lastIndexOf_from_absent _ _ Hext). cbn [Z.add].
  rewrite slice_prefix. rewrite firstn_app, firstn_all, Nat.sub_diag.
  cbn [firstn]. apply app_nil_r.
Qed.

(** X25.  For a path without a dot, [lastIndexOf] gives -1 and the base is
    the path without its last character. *)
Theorem baseFileName_without_dot filePath :
  Forall (fun d => d <> 46%N) filePath ->
  baseFileName filePath = removelast filePath.
Proof.
  intros H. unfold baseFileName, lastIndexOf.
  rewrite (lastIndexOf_from_absent _ _ H).
  unfold slice. cbn [Z.ltb Z.compare].
  rewrite (Z.min_l 0) by lia. cbn [Z.to_nat skipn].
  rewrite removelast_firstn_len. f_equal. lia.
Qed.

(** X26.  The bitmap and the JPEG are written only after the PNG was
    written and read back, and then nothing is printed: a run that prints an
    error writes neither, and prints once. *)
Theorem printed_error_excludes_outputs env filePath what :
  In (ConsoleError what) (svgToQRImage env filePath) ->
  (forall p, ~ In (JimpWrite p) (svgToQRImage env filePath))
  /\ exists before, svgToQRImage env filePath = before ++ [ConsoleError what]
       /\ forall r, ~ In (ConsoleError r) before.
Proof.
  unfold svgToQRImage.
  destruct (svg2img env filePath 600 600) as [buffer|].
  - destruct (fs_writeFileSync env _ buffer) as [e|].
    + intros [E|[]]. inversion E; subst. split.
      * intros p [D|[]]; discriminate.
      * exists []. split; [reflexivity|]. intros r [].
    + destruct (Jimp_read env _) as [e|].
      * intros [D|[D|[E|[]]]]; try discriminate. inversion E; subst. split.
        -- intros p [D|[D|[D|[]]]]; discriminate.
        -- eexists [_; _]. split; [reflexivity|].
           intros r [D|[D|[]]]; discriminate.
      * intros [D|[D|[D|[D|[D|[D|[]]]]]]]; discriminate.
  - intros [E|[]]. inversion E; subst. split.
    + intros p [D|[]]; discriminate.
    + exists []. split; [reflexivity|]. intros r [].
Qed.

End QrImageFilesMore.

(* ================================================================== *)
(** * These properties at concrete inputs *)
(* ================================================================== *)

Section MoreInstances.
Import JS Logger Eff Shape Examples MoreExamples.

(** A string with a leading space and no dots. *)
Lemma shape_failure_log_witness :
  ~ ContainsShape (trim (lit " abc"))
  /\ exists l,
       JwsCompact.validate offline [] (lit " abc")
       = (Resolved (mkResult None l), JwsCompact.mkState l [] [])
       /\ title l = lit "JWS-compact"
       /\ child l = None
       /\ items l = [Stages.trailing_warning; Stages.shape_fatal].
Proof.
  assert (N : ~ ContainsShape (trim (lit " abc"))).
  { rewrite <- shape_test_spec. vm_compute. discriminate. }
  split; [exact N|].
  exact (@shape_failure_log offline [] (lit " abc") N).
Defined.

(** The token [e30.Bw.c2ln]: its header decodes to [{}]. *)
Lemma wellformed_token_parts_witness :
  (Base64url (lit "e30") /\ Base64url (lit "Bw") /\ Base64url (lit "c2ln"))
  /\ exists rest,
       JwsCompact.st_calls (snd (JwsCompact.validate offline [] token_not_deflated))
       = [JwsCompact.CallValidateSchema token_not_deflated;
          JwsCompact.CallInflateRaw [7%N];
          JwsCompact.CallPayloadValidate (lit "Bw")] ++ rest
       /\ In (mkItem DEBUG (lit "JWS.header = {}") None)
             (items (JwsCompact.st_log
                       (snd (JwsCompact.validate offline [] token_not_deflated))))
       /\ In (mkItem DEBUG (lit "JWS.key (hex) = 63326c6e") None)
             (items (JwsCompact.st_log
                       (snd (JwsCompact.validate offline [] token_not_deflated)))).
Proof.
  assert (B : forall x, x <> [] -> forallb JwsCompact.base64url_char x = true -> Base64url x)
    by (intros x H1 H2; split; assumption).
  assert (Hx : Base64url (lit "e30")) by (apply B; [discriminate|reflexivity]).
  assert (Hy : Base64url (lit "Bw")) by (apply B; [discriminate|reflexivity]).
  assert (Hz : Base64url (lit "c2ln")) by (apply B; [discriminate|reflexivity]).
  split; [split; [exact Hx | split; [exact Hy | exact Hz]]|].
  exact (@wellformed_token_parts offline [] (lit "e30") (lit "Bw") (lit "c2ln") Hx Hy Hz).
Defined.

(** The token with an [iss]: its payload segment inflates. *)
Lemma inflated_text_handed_on_witness :
  (ContainsShape (trim token_with_iss)
   /\ split JwsCompact.dot (trim token_with_iss)
      = [lit "e30"; lit "ASQA2_97ImlzcyI6Imh0dHBzOi8vZXhhbXBsZS5vcmcvaXNzdWVyIn0"; lit "c2ln"]
   /\ JwsCompact.inflateRaw offline
        (JwsCompact.Buffer_from_base64 offline
           (lit "ASQA2_97ImlzcyI6Imh0dHBzOi8vZXhhbXBsZS5vcmcvaXNzdWVyIn0"))
      = inl json_with_iss)
  /\ In MoreStages.inflated_info
        (items (JwsCompact.st_log (snd (JwsCompact.validate offline [] token_with_iss))))
  /\ In (JwsCompact.CallPayloadValidate json_with_iss)
        (JwsCompact.st_calls (snd (JwsCompact.validate offline [] token_with_iss))).
Proof.
  assert (C : ContainsShape (trim token_with_iss)).
  { rewrite <- shape_test_spec. vm_compute. reflexivity. }
  split; [split; [exact C | split; reflexivity]|].
  exact (@inflated_text_handed_on offline [] token_with_iss
           (lit "e30") (lit "ASQA2_97ImlzcyI6Imh0dHBzOi8vZXhhbXBsZS5vcmcvaXNzdWVyIn0")
           (lit "c2ln") [] json_with_iss C eq_refl eq_refl).
Defined.

(** The token [e30.Bw.c2ln]: the payload is no JSON text. *)
Lemma no_payload_stops_witness :
  (In (JwsCompact.CallPayloadValidate (lit "Bw"))
      (JwsCompact.st_calls (snd (JwsCompact.validate offline [] token_not_deflated)))
   /\ result (JwsCompact.jwsPayload_validate offline (lit "Bw")) = None)
  /\ exists l inflated,
       JwsCompact.validate offline [] token_not_deflated
       = (Resolved (mkResult None l),
          JwsCompact.mkState l []
            [JwsCompact.CallValidateSchema (trim token_not_deflated);
             JwsCompact.CallInflateRaw inflated;
             JwsCompact.CallPayloadValidate (lit "Bw")])
       /\ child l = Some (log (JwsCompact.jwsPayload_validate offline (lit "Bw"))).
Proof.
  assert (Hin : In (JwsCompact.CallPayloadValidate (lit "Bw"))
                   (JwsCompact.st_calls
                      (snd (JwsCompact.validate offline [] token_not_deflated)))).
  { vm_compute. right. right. left. reflexivity. }
  split; [split; [exact Hin | reflexivity]|].
  exact (@no_payload_stops offline [] token_not_deflated (lit "Bw") Hin eq_refl).
Defined.

(** The issuer of the example token starts with [https://] and ends with
    no slash. *)
Lemma wellformed_issuer_draws_no_entry_witness :
  (In (JwsCompact.CallPayloadValidate json_with_iss)
      (JwsCompact.st_calls (snd (JwsCompact.validate offline [] token_with_iss)))
   /\ result (JwsCompact.jwsPayload_validate offline json_with_iss)
      = Some (JwsCompact.mkPayload (Some example_issuer))
   /\ (forall pre, lit "https://" ++ lit "example.org/issuer" <> pre ++ [47%N]))
  /\ exists h r k more after,
       split JwsCompact.dot (trim token_with_iss) = h :: r :: k :: more
       /\ items (JwsCompact.st_log (snd (JwsCompact.validate offline [] token_with_iss)))
          = items (JwsCompact.st_log
                     (Stages.parsed offline (trim token_with_iss) h r k
                        (Stages.entered [] token_with_iss)))
            ++ Stages.retrieving_info example_issuer :: after.
Proof.
  assert (Hin : In (JwsCompact.CallPayloadValidate json_with_iss)
                   (JwsCompact.st_calls
                      (snd (JwsCompact.validate offline [] token_with_iss)))).
  { vm_compute. right. right. left. reflexivity. }
  assert (Hs : forall pre, lit "https://" ++ lit "example.org/issuer" <> pre ++ [47%N]).
  { intros pre E. apply (f_equal (@rev N)) in E. rewrite (rev_app_distr pre) in E.
    vm_compute in E. discriminate E. }
  split; [split; [exact Hin | split; [reflexivity | exact Hs]]|].
  exact (@wellformed_issuer_draws_no_entry offline [] token_with_iss json_with_iss
           (JwsCompact.mkPayload (Some example_issuer)) (lit "example.org/issuer")
           Hin eq_refl eq_refl Hs).
Defined.


(** The example token where the Key Set Validator rejects the key it has
    stored. *)
Lemma key_validator_rejection_is_caught_witness :
  (In (JwsCompact.CallPayloadValidate json_with_iss)
      (JwsCompact.st_calls (snd (JwsCompact.validate rejecting [] token_with_iss)))
   /\ JwsCompact.got_json rejecting (Stages.jwks_url example_issuer) = Some [example_key]
   /\ JwsCompact.verifyHealthCardIssuerKey rejecting [example_key] example_issuer []
      = (Rejected (Error (lit "key set rejected")), [thumbprint_error], [example_key]))
  /\ exists l before v_its inflated,
       JwsCompact.validate rejecting [] token_with_iss
       = (Resolved (mkResult (Some (trim token_with_iss)) l),
          JwsCompact.mkState l [example_key]
            [JwsCompact.CallValidateSchema (trim token_with_iss);
             JwsCompact.CallInflateRaw inflated;
             JwsCompact.CallPayloadValidate json_with_iss;
             JwsCompact.CallGot (Stages.jwks_url example_issuer);
             JwsCompact.CallVerifyIssuerKey [example_key] example_issuer;
             JwsCompact.CallVerify [example_key] (trim token_with_iss)])
       /\ items l
          = before ++ [Stages.retrieving_info example_issuer; MoreStages.downloaded_debug]
            ++ [thumbprint_error] ++ [Stages.download_error] ++ v_its
       /\ (v_its = [MoreStages.verified_info]
           \/ exists m, v_its = [Stages.verification_error m]).
Proof.
  assert (Hin : In (JwsCompact.CallPayloadValidate json_with_iss)
                   (JwsCompact.st_calls
                      (snd (JwsCompact.validate rejecting [] token_with_iss)))).
  { vm_compute. right. right. left. reflexivity. }
  split; [split; [exact Hin | split; reflexivity]|].
  exact (@key_validator_rejection_is_caught rejecting [] token_with_iss json_with_iss
           (JwsCompact.mkPayload (Some example_issuer)) example_issuer [example_key]
           (Error (lit "key set rejected")) [thumbprint_error] [example_key]
           Hin eq_refl eq_refl eq_refl eq_refl).
Defined.

(** The example token where the key arrives and is accepted. *)
Lemma downloaded_keys_verify_witness :
  (In (JwsCompact.CallPayloadValidate json_with_iss)
      (JwsCompact.st_calls (snd (JwsCompact.validate online [] token_with_iss)))
   /\ JwsCompact.got_json online (Stages.jwks_url example_issuer) = Some [example_key]
   /\ JwsCompact.verifyHealthCardIssuerKey online [example_key] example_issuer []
      = (Resolved (Some [example_key]), [], [example_key])
   /\ JwsCompact.verifier_verify online [example_key] (trim token_with_iss)
      = JwsCompact.Verified)
  /\ exists l before,
       fst (JwsCompact.validate online [] token_with_iss)
       = Resolved (mkResult (Some (trim token_with_iss)) l)
       /\ JwsCompact.st_store (snd (JwsCompact.validate online [] token_with_iss))
          = [example_key]
       /\ items l
          = before ++ [Stages.retrieving_info example_issuer; MoreStages.downloaded_debug]
            ++ [] ++ [MoreStages.verified_info].
Proof.
  assert (Hin : In (JwsCompact.CallPayloadValidate json_with_iss)
                   (JwsCompact.st_calls
                      (snd (JwsCompact.validate online [] token_with_iss)))).
  { vm_compute. right. right. left. reflexivity. }
  split; [split; [exact Hin | repeat split; reflexivity]|].
  exact (@downloaded_keys_verify online [] token_with_iss json_with_iss
           (JwsCompact.mkPayload (Some example_issuer)) example_issuer [example_key]
           (Some [example_key]) [] [example_key]
           Hin eq_refl eq_refl eq_refl eq_refl eq_refl).
Defined.

(** The example token where the key arrives: the run ends with the key in
    the store. *)
Lemma store_changes_only_through_key_validator_witness :
  In (JwsCompact.CallVerifyIssuerKey [example_key] example_issuer)
     (JwsCompact.st_calls (snd (JwsCompact.validate online [] token_with_iss)))
  /\ JwsCompact.st_store (snd (JwsCompact.validate online [] token_with_iss))
     = snd (JwsCompact.verifyHealthCardIssuerKey online [example_key] example_issuer []).
Proof.
  assert (Hin : In (JwsCompact.CallVerifyIssuerKey [example_key] example_issuer)
                   (JwsCompact.st_calls
                      (snd (JwsCompact.validate online [] token_with_iss)))).
  { vm_compute. do 4 right. left. reflexivity. }
  split; [exact Hin|].
  exact (proj2 (@store_changes_only_through_key_validator online [] token_with_iss)
               [example_key] example_issuer Hin).
Defined.

(** The example token: the log of the Payload Validator is the child. *)
Lemma payload_log_is_child_witness :
  In (JwsCompact.CallPayloadValidate json_with_iss)
     (JwsCompact.st_calls (snd (JwsCompact.validate offline [] token_with_iss)))
  /\ child (JwsCompact.st_log (snd (JwsCompact.validate offline [] token_with_iss)))
     = Some (log (JwsCompact.jwsPayload_validate offline json_with_iss)).
Proof.
  assert (Hin : In (JwsCompact.CallPayloadValidate json_with_iss)
                   (JwsCompact.st_calls
                      (snd (JwsCompact.validate offline [] token_with_iss)))).
  { vm_compute. right. right. left. reflexivity. }
  split; [exact Hin|].
  exact (proj1 (@payload_log_is_child offline [] token_with_iss) json_with_iss Hin).
Defined.

(** The example token, offline: errors, and nothing fatal. *)
Lemma only_the_shape_check_is_fatal_witness :
  ContainsShape (trim token_with_iss)
  /\ Forall (MoreStages.nonfatal_entry offline)
            (items (JwsCompact.st_log (snd (JwsCompact.validate offline [] token_with_iss)))).
Proof.
  assert (C : ContainsShape (trim token_with_iss)).
  { rewrite <- shape_test_spec. vm_compute. reflexivity. }
  split; [exact C|].
  exact (@only_the_shape_check_is_fatal offline [] token_with_iss C).
Defined.

(** A blank raster between two that decode. *)
Lemma batch_stops_at_first_failure_witness :
  (Forall2 (ImageStages.Decodes images) [raster "a.png" (lit "QRone")] [lit "one"]
   /\ ImageStages.gives_no_text images (raster "b.png" (lit "blank")))
  /\ Stages.result_of
       (fst (Image.validate images
               ([raster "a.png" (lit "QRone")]
                ++ raster "b.png" (lit "blank") :: [raster "c.png" (lit "QRthree")])))
     = Stages.result_of
         (fst (Image.validate images
                 ([raster "a.png" (lit "QRone")] ++ [raster "b.png" (lit "blank")])))
  /\ items (Image.st_log
              (snd (Image.validate images
                      ([raster "a.png" (lit "QRone")]
                       ++ raster "b.png" (lit "blank") :: [raster "c.png" (lit "QRthree")]))))
     = items (Image.st_log
                (snd (Image.validate images
                        ([raster "a.png" (lit "QRone")] ++ [raster "b.png" (lit "blank")]))))
  /\ Image.st_written
       (snd (Image.validate images
               ([raster "a.png" (lit "QRone")]
                ++ raster "b.png" (lit "blank") :: [raster "c.png" (lit "QRthree")])))
     = Image.st_written
         (snd (Image.validate images
                 ([raster "a.png" (lit "QRone")] ++ [raster "b.png" (lit "blank")]))).
Proof.
  assert (Hd : Forall2 (ImageStages.Decodes images) [raster "a.png" (lit "QRone")]
                       [lit "one"]).
  { constructor; [|constructor]. intros st. eexists. reflexivity. }
  assert (Hb : ImageStages.gives_no_text images (raster "b.png" (lit "blank"))).
  { apply unreadable_gives_no_text. left. split; [reflexivity|].
    eexists. split; reflexivity. }
  split; [split; assumption|].
  exact (@batch_stops_at_first_failure images [raster "a.png" (lit "QRone")]
           (raster "b.png" (lit "blank")) [raster "c.png" (lit "QRthree")] [lit "one"]
           Hd Hb).
Defined.

(** Two rasters that decode. *)
Lemma raster_batch_log_witness :
  Forall2 (MoreStages.ReadableRaster images)
          [raster "a.png" (lit "QRone"); raster "b.png" (lit "QRtwo")]
          [lit "one"; lit "two"]
  /\ exists l,
       Image.validate images [raster "a.png" (lit "QRone"); raster "b.png" (lit "QRtwo")]
       = (Resolved (mkResult (Some (Image.JSON_stringify [lit "one"; lit "two"])) l),
          Image.mkState l [])
       /\ items l
          = MoreStages.decoded_entries (lit "a.png") (lit "one")
            ++ MoreStages.decoded_entries (lit "b.png") (lit "two")
       /\ title l = lit "QR images (2)"
       /\ child l = Some (log (Image.qr_validate images [lit "one"; lit "two"])).
Proof.
  assert (Hd : Forall2 (MoreStages.ReadableRaster images)
                       [raster "a.png" (lit "QRone"); raster "b.png" (lit "QRtwo")]
                       [lit "one"; lit "two"]).
  { repeat constructor; eexists; split; reflexivity. }
  split; [exact Hd|].
  exact (@raster_batch_log images _ _ Hd).
Defined.

(** A GIF after a raster that decodes. *)
Lemma unknown_type_fails_batch_witness :
  (Forall2 (ImageStages.Decodes images) [raster "a.png" (lit "QRone")] [lit "one"]
   /\ MoreStages.UnknownType (other_file "d.gif" "gif" (lit "GIF89a")))
  /\ exists l,
       Image.validate images
         ([raster "a.png" (lit "QRone")]
          ++ other_file "d.gif" "gif" (lit "GIF89a") :: [raster "b.png" (lit "QRtwo")])
       = (Resolved (mkResult None l),
          Image.mkState l
            (Image.st_written (snd (Image.validate images [raster "a.png" (lit "QRone")]))))
       /\ items l
          = items (Image.st_log (snd (Image.validate images [raster "a.png" (lit "QRone")])))
            ++ [MoreStages.unknown_file_error].
Proof.
  assert (Hd : Forall2 (ImageStages.Decodes images) [raster "a.png" (lit "QRone")]
                       [lit "one"]).
  { constructor; [|constructor]. intros st. eexists. reflexivity. }
  assert (Hu : MoreStages.UnknownType (other_file "d.gif" "gif" (lit "GIF89a")))
    by (split; reflexivity).
  split; [split; assumption|].
  exact (@unknown_type_fails_batch images [raster "a.png" (lit "QRone")]
           (other_file "d.gif" "gif" (lit "GIF89a")) [raster "b.png" (lit "QRtwo")]
           [lit "one"] Hd Hu).
Defined.

(** A PNG file that came without pixel data. *)
Lemma missing_image_data_fails_batch_witness :
  (Forall2 (ImageStages.Decodes images) [raster "a.png" (lit "QRone")] [lit "one"]
   /\ ImageStages.is_raster (Image.fileType (other_file "e.png" "png" (lit "QRtwo"))) = true
   /\ Image.image (other_file "e.png" "png" (lit "QRtwo")) = None)
  /\ exists l,
       Image.validate images
         ([raster "a.png" (lit "QRone")] ++ other_file "e.png" "png" (lit "QRtwo") :: [])
       = (Resolved (mkResult None l),
          Image.mkState l
            (Image.st_written (snd (Image.validate images [raster "a.png" (lit "QRone")]))))
       /\ items l
          = items (Image.st_log (snd (Image.validate images [raster "a.png" (lit "QRone")])))
            ++ [MoreStages.missing_data_error (lit "e.png")]
       /\ code (MoreStages.missing_data_error (lit "e.png")) = None.
Proof.
  assert (Hd : Forall2 (ImageStages.Decodes images) [raster "a.png" (lit "QRone")]
                       [lit "one"]).
  { constructor; [|constructor]. intros st. eexists. reflexivity. }
  split; [split; [exact Hd | split; reflexivity]|].
  exact (@missing_image_data_fails_batch images [raster "a.png" (lit "QRone")]
           (other_file "e.png" "png" (lit "QRtwo")) [] [lit "one"] Hd eq_refl eq_refl).
Defined.

(** An SVG file that converts, on a full disk. *)
Lemma svg_step_failure_rejects_witness :
  (Forall2 (ImageStages.Decodes disk_full) [raster "a.png" (lit "QRone")] [lit "one"]
   /\ MoreStages.SvgStepThrows disk_full (svg_file "c.svg" (lit "<svg/>"))
        (Error (lit "ENOSPC: no space left on device")))
  /\ fst (Image.validate disk_full
            ([raster "a.png" (lit "QRone")] ++ svg_file "c.svg" (lit "<svg/>") :: []))
     = Rejected (Error (lit "ENOSPC: no space left on device"))
  /\ items (Image.st_log
              (snd (Image.validate disk_full
                      ([raster "a.png" (lit "QRone")]
                       ++ svg_file "c.svg" (lit "<svg/>") :: []))))
     = items (Image.st_log (snd (Image.validate disk_full [raster "a.png" (lit "QRone")])))
  /\ Image.st_written
       (snd (Image.validate disk_full
               ([raster "a.png" (lit "QRone")] ++ svg_file "c.svg" (lit "<svg/>") :: [])))
     = Image.st_written (snd (Image.validate disk_full [raster "a.png" (lit "QRone")])).
Proof.
  assert (Hd : Forall2 (ImageStages.Decodes disk_full) [raster "a.png" (lit "QRone")]
                       [lit "one"]).
  { constructor; [|constructor]. intros st. eexists. reflexivity. }
  assert (Ht : MoreStages.SvgStepThrows disk_full (svg_file "c.svg" (lit "<svg/>"))
                 (Error (lit "ENOSPC: no space left on device"))).
  { split; [reflexivity|]. eexists. split; [reflexivity|].
    right. split; [eexists; reflexivity | reflexivity]. }
  split; [split; assumption|].
  exact (@svg_step_failure_rejects disk_full [raster "a.png" (lit "QRone")]
           (svg_file "c.svg" (lit "<svg/>")) [] [lit "one"]
           (Error (lit "ENOSPC: no space left on device")) Hd Ht).
Defined.

(** An SVG file that converts to a raster without a code: the raster is
    written all the same. *)
Lemma svg_is_written_before_reading_witness :
  (eqb (Image.fileType (svg_file "c.svg" (lit "<svg/>"))) (lit "svg") = true
   /\ Image.svg2img images (Image.Buffer_toString images (lit "<svg/>"))
        Image.svgImageWidth Image.svgImageWidth = inr (lit "<svg/>")
   /\ Image.PNG_sync_read images (lit "<svg/>") = inr (Image.mkPNG (lit "<svg/>") 1 1)
   /\ Image.fs_writeFileSync images (lit "c.svg" ++ lit ".png") (lit "<svg/>") = None)
  /\ Image.decode images (svg_file "c.svg" (lit "<svg/>")) MoreStages.fresh
     = (Resolved None,
        Image.mkState (push (ImageStages.decode_error (lit "c.svg")) (new_Log []))
                      [(lit "c.svg.png", lit "<svg/>")]).
Proof.
  split; [repeat split; reflexivity|].
  exact (@svg_is_written_before_reading images (svg_file "c.svg" (lit "<svg/>"))
           (lit "<svg/>") (Image.mkPNG (lit "<svg/>") 1 1) MoreStages.fresh
           eq_refl eq_refl eq_refl eq_refl).
Defined.

(** The directory with a duplicate of the example issuer. *)
Lemma first_match_decides_witness :
  Forall (fun i => TrustedIssuers.iss i <> example_issuer)
         [TrustedIssuers.mkIssuer (lit "https://example.org/other") (lit "Other")]
  /\ TrustedIssuers.checkTrustedIssuerDirectory directory example_issuer (new_Log [])
     = TrustedIssuers.checkTrustedIssuerDirectory
         (TrustedIssuers.mkDirectory
            (Some (lit "https://example.org/directory.json")) (Some (lit "VCI"))
            (Some (TrustedIssuers.mkIssuers
                     [TrustedIssuers.mkIssuer example_issuer (lit "Example")])))
         example_issuer (new_Log []).
Proof.
  assert (Hp : Forall (fun i => TrustedIssuers.iss i <> example_issuer)
                 [TrustedIssuers.mkIssuer (lit "https://example.org/other") (lit "Other")]).
  { apply Forall_cons; [|apply Forall_nil]. intros E. vm_compute in E. discriminate E. }
  split; [exact Hp|].
  exact (@first_match_decides (Some (lit "https://example.org/directory.json"))
           (Some (lit "VCI")) example_issuer
           [TrustedIssuers.mkIssuer (lit "https://example.org/other") (lit "Other")]
           (lit "Example")
           [TrustedIssuers.mkIssuer example_issuer (lit "Duplicate")]
           (new_Log []) Hp).
Defined.

(** The example issuer is the second participant of the directory. *)
Lemma listed_issuer_debug_entry_witness :
  (Forall (fun i => TrustedIssuers.iss i <> example_issuer)
          [TrustedIssuers.mkIssuer (lit "https://example.org/other") (lit "Other")]
   /\ lit "Example" <> [])
  /\ TrustedIssuers.checkTrustedIssuerDirectory directory example_issuer (new_Log [])
     = push (mkItem DEBUG
               (lit "Issuer found in TrustedIssuerDirectory directory; name: Example") None)
            (new_Log []).
Proof.
  assert (Hp : Forall (fun i => TrustedIssuers.iss i <> example_issuer)
                 [TrustedIssuers.mkIssuer (lit "https://example.org/other") (lit "Other")]).
  { apply Forall_cons; [|apply Forall_nil]. intros E. vm_compute in E. discriminate E. }
  assert (Hn : lit "Example" <> []) by discriminate.
  split; [split; assumption|].
  exact (@listed_issuer_debug_entry (Some (lit "https://example.org/directory.json"))
           (Some (lit "VCI")) example_issuer
           [TrustedIssuers.mkIssuer (lit "https://example.org/other") (lit "Other")]
           (lit "Example")
           [TrustedIssuers.mkIssuer example_issuer (lit "Duplicate")]
           (new_Log []) Hp Hn).
Defined.

(** An issuer the directory does not list, and a directory without name. *)
Lemma unlisted_issuer_error_witness :
  Forall (fun i => TrustedIssuers.iss i <> lit "https://example.org/unknown")
         [TrustedIssuers.mkIssuer example_issuer (lit "Example")]
  /\ TrustedIssuers.checkTrustedIssuerDirectory
       (TrustedIssuers.mkDirectory None None
          (Some (TrustedIssuers.mkIssuers
                   [TrustedIssuers.mkIssuer example_issuer (lit "Example")])))
       (lit "https://example.org/unknown") (new_Log [])
     = push (mkItem ERROR (lit "Issuer not part of the undefined directory")
                    (Some ISSUER_NOT_TRUSTED))
            (new_Log []).
Proof.
  assert (Hp : Forall (fun i => TrustedIssuers.iss i <> lit "https://example.org/unknown")
                 [TrustedIssuers.mkIssuer example_issuer (lit "Example")]).
  { apply Forall_cons; [|apply Forall_nil]. intros E. vm_compute in E. discriminate E. }
  split; [exact Hp|].
  exact (@unlisted_issuer_error None None
           [TrustedIssuers.mkIssuer example_issuer (lit "Example")]
           (lit "https://example.org/unknown") (new_Log []) Hp).
Defined.

(** [card.svg] gives [card]. *)
Lemma baseFileName_drops_extension_witness :
  Forall (fun d => d <> 46%N) (lit "svg")
  /\ QrImageFiles.baseFileName (lit "card" ++ 46%N :: lit "svg") = lit "card".
Proof.
  assert (He : Forall (fun d => d <> 46%N) (lit "svg")).
  { repeat (apply Forall_cons; [discriminate|]). apply Forall_nil. }
  split; [exact He|].
  exact (@baseFileName_drops_extension (lit "card") (lit "svg") He).
Defined.

(** [card] gives [car]. *)
Lemma baseFileName_without_dot_witness :
  Forall (fun d => d <> 46%N) (lit "card")
  /\ QrImageFiles.baseFileName (lit "card") = lit "car".
Proof.
  assert (He : Forall (fun d => d <> 46%N) (lit "card")).
  { repeat (apply Forall_cons; [discriminate|]). apply Forall_nil. }
  split; [exact He|].
  exact (@baseFileName_without_dot (lit "card") He).
Defined.

(** Without a converter the run prints one error and writes nothing. *)
Lemma printed_error_excludes_outputs_witness :
  In (QrImageFiles.ConsoleError
        (QrImageFiles.ReasonString (lit "Could not create image from svg")))
     (QrImageFiles.svgToQRImage no_converter (lit "card.svg"))
  /\ (forall p, ~ In (QrImageFiles.JimpWrite p)
                     (QrImageFiles.svgToQRImage no_converter (lit "card.svg")))
  /\ exists before,
       QrImageFiles.svgToQRImage no_converter (lit "card.svg")
       = before ++ [QrImageFiles.ConsoleError
                      (QrImageFiles.ReasonString (lit "Could not create image from svg"))]
       /\ forall r, ~ In (QrImageFiles.ConsoleError r) before.
Proof.
  assert (Hin : In (QrImageFiles.ConsoleError
                      (QrImageFiles.ReasonString (lit "Could not create image from svg")))
                   (QrImageFiles.svgToQRImage no_converter (lit "card.svg")))
    by (left; reflexivity).
  split; [exact Hin|].
  exact (@printed_error_excludes_outputs no_converter (lit "card.svg") _ Hin).
Defined.

End MoreInstances.
